(** * SFE_MicroOLED: the framebuffer graphics engine of the Micro OLED driver

    A shallow embedding of [SFE_MicroOLED.cpp].  The driver keeps a packed
    one-bit-per-pixel page buffer ([screenmemory]) that every drawing
    primitive mutates through [MicroOLED::pixel]; nothing else writes single
    bits.  The embedding passes the buffer explicitly.

    Integer model.  Every [uint8_t] and [int8_t] of the source is a [Z];
    the places where C++ narrows an [int] back to eight bits (arguments of a
    call, compound assignments, initialisers) are written out with [u8] and
    [i8].  Arithmetic in between is done in [int], exactly as integer
    promotion does it, and an [int] is wide enough for every intermediate
    value that occurs here. *)

From Stdlib Require Import ZArith Lia Bool.
From stdpp Require Import base tactics option list.

Local Open Scope Z_scope.

(** ** What the headers provide

    [SFE_MicroOLED.cpp] includes [SFE_MicroOLED.h] and four font headers and
    uses their constants and tables by name only.  They are parameters here:
    the panel geometry, the colour, mode and clear-target codes, the three
    controller opcodes used by the bulk transfers, the size of a font header
    and the four font byte tables. *)
Class Header := {
  LCDWIDTH : Z;
  LCDHEIGHT : Z;
  LCDTOTALWIDTH : Z;
  LCDTOTALHEIGHT : Z;
  LCDCOLUMNOFFSET : Z;
  BLACK : Z;
  WHITE : Z;
  NORM : Z;
  XOR : Z;
  PAGE : Z;
  ALL : Z;
  FONTHEADERSIZE : Z;
  MEMORYMODE : Z;
  SETCOLUMNBOUNDS : Z;
  SETPAGEBOUNDS : Z;
  font5x7 : list Z;
  font8x16 : list Z;
  sevensegment : list Z;
  fontlargenumber : list Z
}.

(** ** Eight-bit integers *)

(** Conversion of an [int] to [uint8_t]. *)
Definition u8 (z : Z) : Z := z mod 256.

(** Conversion of an [int] to [int8_t] (two's complement wrap-around). *)
Definition i8 (z : Z) : Z := (z + 128) mod 256 - 128.

(** Conversion of an [int] to [uint16_t]. *)
Definition u16 (z : Z) : Z := z mod 65536.

(** Modelled from the spec: the macro [_BV] comes from a header.  The spec
    addresses a pixel as byte [x + (y/8)*W], bit [y%8], and has [pixel] or
    that bit on, and it off, or toggle it: [_BV(bit)] is the mask of the one
    bit, [1 << bit]. *)
Definition _BV (bit : Z) : Z := Z.shiftl 1 bit.

(** Modelled from the spec: the macro [swap] comes from a header.  The spec
    has [line] transpose the coordinates of a steep line and the code uses
    [swap(a, b)] for it and for ordering the endpoints: it exchanges its two
    arguments. *)
Definition swap (p : Z * Z) : Z * Z := (p.2, p.1).

(** Logical negation [!c] of C++, as an integer. *)
Definition lognot (c : Z) : Z := if c =? 0 then 1 else 0.

Definition is_u8 (z : Z) : Prop := 0 <= z < 256.

(** ** The page buffer *)

(** [static uint8_t screenmemory[LCDWIDTH * LCDHEIGHT / 8]]. *)
Abbreviation framebuffer := (list Z).

(** ** Drawing through [pixel]

    Every primitive of the rasteriser and of the text engine touches the
    buffer through calls [pixel(x, y, color, mode)] only, and never reads it
    back.  The primitives are therefore written once, against the call
    itself: [plot x y color mode] is that call, on whatever it draws to.  Two
    canvases are used: the page buffer, where [plot] is [pixel], and a
    recorder, where [plot] appends the request to a list. *)
Class Canvas (T : Type) := plot : Z -> Z -> Z -> Z -> T -> T.

(** One call [pixel(x, y, color, mode)]. *)
Record request := Request { req_x : Z; req_y : Z; req_color : Z; req_mode : Z }.

#[global] Instance recorder : Canvas (list request) :=
  fun x y color mode rs => rs ++ [Request x y color mode].

(** The requests a primitive issues, in program order. *)
Definition requests (prim : list request -> list request) : list request := prim [].

(** The same for a primitive whose loops may fail to end. *)
Definition requests_within (prim : list request -> option (list request)) :
  option (list request) := prim [].

(** [for (uint8_t i = start; cond(i); i++) body].  The counter wraps at 256
    like the source's, so the loop need not end: [None] is "no result within
    [fuel] passes". *)
Fixpoint for_u8 {T : Type} (fuel : nat) (cond : Z -> bool)
    (body : Z -> T -> option T) (i : Z) (s : T) : option T :=
  match fuel with
  | O => None
  | S fuel' =>
      if cond i
      then match body i s with
           | Some s' => for_u8 fuel' cond body (u8 (i + 1)) s'
           | None => None
           end
      else Some s
  end.

(** ** Bus and object state *)

(** What the driver does to the outside: the two control lines it toggles
    around a transfer and the bytes it clocks out. *)
Inductive bus_event :=
  | SetDC (level : Z)
  | SetCS (level : Z)
  | SpiWrite (byte : Z).

(** Modelled from the spec: the class is declared in the header.  The data
    members that the functions below read or write, as the spec's draw state
    and font descriptor have them (colour, mode, cursor, font index, glyph
    width and height, first code, glyph count: eight-bit values; the bitmap
    row stride: sixteen bits), with the bus traffic so far. *)
Record MicroOLED := {
  foreColor : Z;
  drawMode : Z;
  fontWidth : Z;
  fontHeight : Z;
  fontType : Z;
  fontStartChar : Z;
  fontTotalChar : Z;
  cursorX : Z;
  cursorY : Z;
  fontMapWidth : Z;
  bus : list bus_event
}.

Section Engine.
Context `{Header}.

Definition screen_bytes : Z := LCDWIDTH * LCDHEIGHT / 8.

(** A buffer as the driver holds it: the declared number of bytes, each an
    eight-bit value. *)
Definition wf_screen (fb : framebuffer) : Prop :=
  Z.of_nat (length fb) = screen_bytes /\ Forall is_u8 fb.

(** [screenmemory[i] op= v]: read-modify-write of one byte.  The guard of
    [pixel] keeps [i] inside the array on a well-formed buffer; on a shorter
    list the update does nothing. *)
Definition modify (f : Z -> Z) (i : Z) (fb : framebuffer) : framebuffer :=
  alter f (Z.to_nat i) fb.

(** [MicroOLED::pixel(x, y, color, mode)]. *)
Definition pixel (x y color mode : Z) (screenmemory : framebuffer) : framebuffer :=
  if (LCDWIDTH <=? x) || (LCDHEIGHT <=? y) then screenmemory
  else if mode =? XOR then
    if color =? WHITE
    then modify (fun b => u8 (Z.lxor b (_BV (y mod 8)))) (x + (y / 8) * LCDWIDTH) screenmemory
    else screenmemory
  else
    if color =? WHITE
    then modify (fun b => u8 (Z.lor b (_BV (y mod 8)))) (x + (y / 8) * LCDWIDTH) screenmemory
    else modify (fun b => u8 (Z.land b (Z.lnot (_BV (y mod 8))))) (x + (y / 8) * LCDWIDTH) screenmemory.

(** Reading one pixel back through the addressing formula of [pixel]
    (byte [x + (y/8)*LCDWIDTH], bit [y mod 8]).  The driver itself never
    reads single pixels; this is the observation the properties are stated
    with. *)
Definition bit_at (fb : framebuffer) (x y : Z) : bool :=
  Z.testbit (fb !!! Z.to_nat (x + (y / 8) * LCDWIDTH)) (y mod 8).

Definition on_screen (x y : Z) : bool := (x <? LCDWIDTH) && (y <? LCDHEIGHT).

#[global] Instance screen : Canvas framebuffer := pixel.

(** Performing recorded requests on the page buffer. *)
Definition serve (fb : framebuffer) (r : request) : framebuffer :=
  pixel (req_x r) (req_y r) (req_color r) (req_mode r) fb.

Definition exec (rs : list request) (fb : framebuffer) : framebuffer :=
  fold_left serve rs fb.

Definition visible (r : request) : bool := on_screen (req_x r) (req_y r).

(** A page buffer and a recording that tell the same story from [fb0] on:
    the buffer is what serving the recorded requests makes of [fb0]. *)
Definition serves (fb0 : framebuffer) (fb : framebuffer) (rs : list request) : Prop :=
  fb = exec rs fb0.

(** ** Rasteriser *)

Section Primitives.
Context {T : Type} {canvas : Canvas T}.

(** The stepping loop of [line]: [for (; x0<x1; x0++) { ... }].  [err] is the
    [int8_t] accumulator, [x0] and [y0] the [uint8_t] running coordinates. *)
Fixpoint line_loop (fuel : nat) (steep : bool)
    (x0 y0 x1 dx dy err ystep color mode : Z) (s : T) : T :=
  match fuel with
  | O => s
  | S fuel' =>
      if x0 <? x1 then
        let s := if steep then plot y0 x0 color mode s else plot x0 y0 color mode s in
        let err := i8 (err - dy) in
        if err <? 0
        then line_loop fuel' steep (u8 (x0 + 1)) (u8 (y0 + ystep)) x1 dx dy
                       (i8 (err + dx)) ystep color mode s
        else line_loop fuel' steep (u8 (x0 + 1)) y0 x1 dx dy err ystep color mode s
      else s
  end.

(** [MicroOLED::line(x0, y0, x1, y1, color, mode)].  The loop counter climbs
    from [x0] to [x1], so [x1 - x0] passes exhaust it. *)
Definition line (x0 y0 x1 y1 color mode : Z) (s : T) : T :=
  let steep := Z.abs (y1 - y0) >? Z.abs (x1 - x0) in
  let '(x0, y0) := if steep then swap (x0, y0) else (x0, y0) in
  let '(x1, y1) := if steep then swap (x1, y1) else (x1, y1) in
  let reversed := x0 >? x1 in
  let '(x0, x1) := if reversed then swap (x0, x1) else (x0, x1) in
  let '(y0, y1) := if reversed then swap (y0, y1) else (y0, y1) in
  let dx := u8 (x1 - x0) in
  let dy := u8 (Z.abs (y1 - y0)) in
  let err := i8 (dx / 2) in
  let ystep := if y0 <? y1 then 1 else -1 in
  line_loop (Z.to_nat (x1 - x0)) steep x0 y0 x1 dx dy err ystep color mode s.

(** [MicroOLED::lineH(x, y, width, color, mode)]. *)
Definition lineH (x y width color mode : Z) (s : T) : T :=
  line x y (u8 (x + width)) y color mode s.

(** [MicroOLED::lineV(x, y, height, color, mode)]. *)
Definition lineV (x y height color mode : Z) (s : T) : T :=
  line x y x (u8 (y + height)) color mode s.

(** [MicroOLED::rect(x, y, width, height, color, mode)]. *)
Definition rect (x y width height color mode : Z) (s : T) : T :=
  let s := lineH x y width color mode s in
  let s := lineH x (u8 (y + height - 1)) width color mode s in
  let tempHeight := u8 (height - 2) in
  if tempHeight <? 1 then s
  else
    let s := lineV x (u8 (y + 1)) tempHeight color mode s in
    lineV (u8 (x + width - 1)) (u8 (y + 1)) tempHeight color mode s.

(** The loop of [rectFill]: [for (int i=x; i<x+width; i++) lineV(i, ...)].
    The counter is an [int]; it is narrowed when passed to [lineV]. *)
Fixpoint rectFill_loop (fuel : nat) (i x y width height color mode : Z) (s : T) : T :=
  match fuel with
  | O => s
  | S fuel' =>
      if i <? x + width
      then rectFill_loop fuel' (i + 1) x y width height color mode
             (lineV (u8 i) y height color mode s)
      else s
  end.

(** [MicroOLED::rectFill(x, y, width, height, color, mode)]. *)
Definition rectFill (x y width height color mode : Z) (s : T) : T :=
  rectFill_loop (Z.to_nat width) x x y width height color mode s.

(** One pass of the midpoint iteration shared by [circle] and [circleFill]:
    the update of the [int8_t] variables [(f, ddF_x, ddF_y, x, y)]. *)
Definition midpoint_step (v : Z * Z * Z * Z * Z) : Z * Z * Z * Z * Z :=
  let '(f, ddF_x, ddF_y, x, y) := v in
  let '(y, ddF_y, f) :=
    if f >=? 0
    then (i8 (y - 1), i8 (ddF_y + 2), i8 (f + i8 (ddF_y + 2)))
    else (y, ddF_y, f) in
  let x := i8 (x + 1) in
  let ddF_x := i8 (ddF_x + 2) in
  let f := i8 (f + ddF_x) in
  (f, ddF_x, ddF_y, x, y).

(** The loop of [circle]: [while (x<y) { ... }]. *)
Fixpoint circle_loop (fuel : nat) (x0 y0 : Z) (v : Z * Z * Z * Z * Z)
    (color mode : Z) (s : T) : T :=
  match fuel with
  | O => s
  | S fuel' =>
      let '(_, _, _, x, y) := v in
      if x <? y then
        let v := midpoint_step v in
        let '(_, _, _, x, y) := v in
        let s := plot (u8 (x0 + x)) (u8 (y0 + y)) color mode s in
        let s := plot (u8 (x0 - x)) (u8 (y0 + y)) color mode s in
        let s := plot (u8 (x0 + x)) (u8 (y0 - y)) color mode s in
        let s := plot (u8 (x0 - x)) (u8 (y0 - y)) color mode s in
        let s := plot (u8 (x0 + y)) (u8 (y0 + x)) color mode s in
        let s := plot (u8 (x0 - y)) (u8 (y0 + x)) color mode s in
        let s := plot (u8 (x0 + y)) (u8 (y0 - x)) color mode s in
        let s := plot (u8 (x0 - y)) (u8 (y0 - x)) color mode s in
        circle_loop fuel' x0 y0 v color mode s
      else s
  end.

(** [MicroOLED::circle(x0, y0, radius, color, mode)].  [x] starts at 0, grows
    by one per pass and stays below [y <= 127]: 128 passes exhaust the
    loop. *)
Definition circle (x0 y0 radius color mode : Z) (s : T) : T :=
  let f := i8 (1 - radius) in
  let ddF_x := 1 in
  let ddF_y := i8 (-2 * radius) in
  let x := 0 in
  let y := i8 radius in
  let s := plot x0 (u8 (y0 + radius)) color mode s in
  let s := plot x0 (u8 (y0 - radius)) color mode s in
  let s := plot (u8 (x0 + radius)) y0 color mode s in
  let s := plot (u8 (x0 - radius)) y0 color mode s in
  circle_loop 128 x0 y0 (f, ddF_x, ddF_y, x, y) color mode s.

(** The loop of [circleFill].  Its two inner loops count with a [uint8_t]
    against an [int] bound and may never end; [fuel] bounds the passes of
    this loop and of each inner one. *)
Fixpoint circleFill_loop (passes fuel : nat) (x0 y0 : Z) (v : Z * Z * Z * Z * Z)
    (color mode : Z) (s : T) : option T :=
  match passes with
  | O => None
  | S passes' =>
      let '(_, _, _, x, y) := v in
      if x <? y then
        let v := midpoint_step v in
        let '(_, _, _, x, y) := v in
        match for_u8 fuel (fun i => i <=? y0 + y)
                (fun i s => Some (plot (u8 (x0 - x)) i color mode
                                   (plot (u8 (x0 + x)) i color mode s)))
                (u8 (y0 - y)) s with
        | None => None
        | Some s =>
            match for_u8 fuel (fun i => i <=? y0 + x)
                    (fun i s => Some (plot (u8 (x0 - y)) i color mode
                                       (plot (u8 (x0 + y)) i color mode s)))
                    (u8 (y0 - x)) s with
            | None => None
            | Some s => circleFill_loop passes' fuel x0 y0 v color mode s
            end
        end
      else Some s
  end.

(** [MicroOLED::circleFill(x0, y0, radius, color, mode)]. *)
Definition circleFill (fuel : nat) (x0 y0 radius color mode : Z) (s : T) : option T :=
  let f := i8 (1 - radius) in
  let ddF_x := 1 in
  let ddF_y := i8 (-2 * radius) in
  let x := 0 in
  let y := i8 radius in
  if mode =? XOR then Some s
  else
    match for_u8 fuel (fun i => i <=? y0 + radius)
            (fun i s => Some (plot x0 i color mode s)) (u8 (y0 - radius)) s with
    | None => None
    | Some s => circleFill_loop fuel fuel x0 y0 (f, ddF_x, ddF_y, x, y) color mode s
    end.

End Primitives.

(** ** Fonts *)

(** [#define TOTALFONTS 4]. *)
Definition TOTALFONTS : Z := 4.

(** [MicroOLED::fontsPointer[]], in the order of the source's initialiser. *)
Definition fontsPointer : list (list Z) :=
  [font5x7; font8x16; sevensegment; fontlargenumber].

(** [*(fontsPointer[type] + k)].  A read past the end of a table is undefined
    in the source; here it yields 0. *)
Definition font_byte (type k : Z) : Z :=
  (fontsPointer !!! Z.to_nat type) !!! Z.to_nat k.

(** [MicroOLED::setFontType(type)]: the returned [uint8_t] ([false] is 0,
    [true] is 1) and the object afterwards. *)
Definition setFontType (type : Z) (o : MicroOLED) : Z * MicroOLED :=
  if type >=? TOTALFONTS then (0, o)
  else
    (1, {| foreColor := foreColor o;
           drawMode := drawMode o;
           fontWidth := font_byte type 0;
           fontHeight := font_byte type 1;
           fontType := type;
           fontStartChar := font_byte type 2;
           fontTotalChar := font_byte type 3;
           cursorX := cursorX o;
           cursorY := cursorY o;
           fontMapWidth := u16 (font_byte type 4 * 100 + font_byte type 5);
           bus := bus o |}).

(** ** Text engine *)

Section Glyphs.
Context {T : Type} {canvas : Canvas T}.

(** The bit sweep of one glyph byte, [for (j=0;j<8;j++) { ... temp >>= 1; }],
    plotting at [(x+i, y+j+(row*8))].  The single-band branch of [drawChar]
    plots at [(x+i, y+j)], which is the case [row = 0]. *)
Fixpoint column_loop (fuel : nat) (j temp x i y row color mode : Z) (s : T) : T :=
  match fuel with
  | O => s
  | S fuel' =>
      if j <? 8 then
        let s :=
          if negb (Z.land temp 1 =? 0)
          then plot (u8 (x + i)) (u8 (y + j + row * 8)) color mode s
          else plot (u8 (x + i)) (u8 (y + j + row * 8)) (lognot color) mode s in
        column_loop fuel' (u8 (j + 1)) (u8 (Z.shiftr temp 1)) x i y row color mode s
      else s
  end.

(** [MicroOLED::drawChar(x, y, c, color, mode)], reading the active font from
    the object [o].  The column loop of the single-band branch compares a
    [uint8_t] counter with the [int] [fontWidth+1]; [fuel] bounds the passes
    of each loop.  Division by a zero [fontWidth] in the multi-band branch
    is undefined in the source; [Z] division yields 0 there. *)
Definition drawChar (fuel : nat) (o : MicroOLED) (x y c color mode : Z) (s : T) : option T :=
  if (c <? fontStartChar o) || (c >? fontStartChar o + fontTotalChar o - 1) then Some s
  else
    let tempC := u8 (c - fontStartChar o) in
    let rowsToDraw := u8 (fontHeight o / 8) in
    let rowsToDraw := if rowsToDraw <=? 1 then 1 else rowsToDraw in
    if rowsToDraw =? 1 then
      for_u8 fuel (fun i => i <? fontWidth o + 1)
        (fun i s =>
           let temp :=
             if i =? fontWidth o then 0
             else font_byte (fontType o) (FONTHEADERSIZE + tempC * fontWidth o + i) in
           Some (column_loop 8 0 temp x i y 0 color mode s))
        0 s
    else
      let charPerBitmapRow := u16 (fontMapWidth o / fontWidth o) in
      let charColPositionOnBitmap := u16 (tempC mod charPerBitmapRow) in
      let charRowPositionOnBitmap := u16 (tempC / charPerBitmapRow) in
      let charBitmapStartPosition :=
        u16 (charRowPositionOnBitmap * fontMapWidth o * (fontHeight o / 8)
             + charColPositionOnBitmap * fontWidth o) in
      for_u8 fuel (fun row => row <? rowsToDraw)
        (fun row s =>
           for_u8 fuel (fun i => i <? fontWidth o)
             (fun i s =>
                let temp :=
                  font_byte (fontType o)
                    (FONTHEADERSIZE + (charBitmapStartPosition + i + row * fontMapWidth o)) in
                Some (column_loop 8 0 temp x i y row color mode s))
             0 s)
        0 s.

End Glyphs.

(** ** Buffer clear and transfer *)

Definition emit (evs : list bus_event) (o : MicroOLED) : MicroOLED :=
  {| foreColor := foreColor o; drawMode := drawMode o;
     fontWidth := fontWidth o; fontHeight := fontHeight o; fontType := fontType o;
     fontStartChar := fontStartChar o; fontTotalChar := fontTotalChar o;
     cursorX := cursorX o; cursorY := cursorY o; fontMapWidth := fontMapWidth o;
     bus := bus o ++ evs |}.

(** [MicroOLED::command(c1, ...)], all four arities: data/command low, select
    low, the bytes, select high. *)
Definition command (cs : list Z) (o : MicroOLED) : MicroOLED :=
  emit ([SetDC 0; SetCS 0] ++ map SpiWrite cs ++ [SetCS 1]) o.

(** [memset(screenmemory, c, n)]. *)
Definition memset (fb : framebuffer) (c n : Z) : framebuffer :=
  replicate (Z.to_nat n) (u8 c) ++ drop (Z.to_nat n) fb.

(** The burst [for (i = 0; i < n; i++) miol_spi.write(c)] between select low
    and select high, in data mode. *)
Definition fill_burst (c n : Z) (o : MicroOLED) : MicroOLED :=
  emit ([SetDC 1; SetCS 0] ++ replicate (Z.to_nat n) (SpiWrite c) ++ [SetCS 1]) o.

(** [MicroOLED::display()]. *)
Definition display (st : MicroOLED * framebuffer) : MicroOLED * framebuffer :=
  let '(o, screenmemory) := st in
  let o := command [MEMORYMODE; 0; SETCOLUMNBOUNDS; LCDCOLUMNOFFSET;
                    LCDCOLUMNOFFSET + LCDWIDTH - 1; SETPAGEBOUNDS; 0;
                    LCDHEIGHT / 8 - 1] o in
  let o := emit ([SetDC 1; SetCS 0]
                 ++ map SpiWrite (take (Z.to_nat screen_bytes) screenmemory)
                 ++ [SetCS 1]) o in
  (command [MEMORYMODE; 2] o, screenmemory).

(** The [mode==ALL] branch common to both overloads of [clear]: sweep the
    whole controller memory with the byte [c]. *)
Definition clear_all (c : Z) (o : MicroOLED) : MicroOLED :=
  let o := command [MEMORYMODE; 0; SETCOLUMNBOUNDS; 0; LCDTOTALWIDTH - 1;
                    SETPAGEBOUNDS; 0; LCDTOTALHEIGHT / 8 - 1] o in
  let o := fill_burst c (LCDTOTALWIDTH * LCDTOTALHEIGHT / 8) o in
  command [MEMORYMODE; 2] o.

(** [MicroOLED::clear(mode)]. *)
Definition clear (mode : Z) (st : MicroOLED * framebuffer) : MicroOLED * framebuffer :=
  let '(o, screenmemory) := st in
  if mode =? ALL then (clear_all 0 o, screenmemory)
  else (o, memset screenmemory 0 screen_bytes).

(** [MicroOLED::clear(mode, c)]. *)
Definition clear_with (mode c : Z) (st : MicroOLED * framebuffer) : MicroOLED * framebuffer :=
  let '(o, screenmemory) := st in
  if mode =? ALL then (clear_all c o, screenmemory)
  else display (o, memset screenmemory c screen_bytes).

End Engine.

(** ** A concrete configuration

    The 64x48 module that [init] programs the controller for, with the
    customary codes of the SparkFun header (colours 0/1, modes 0/1, clear
    targets 0/1, a six-byte font header) and short two-glyph tables in the
    layout of the font headers.  It serves to run the definitions on concrete
    inputs. *)
Definition sample_font (width height : Z) : list Z :=
  [width; height; 48; 2; 0; 2 * width]
  ++ [0x3E; 0x51; 0x49; 0x45; 0x3E; 0x00; 0x42; 0x7F; 0x40; 0x00]
  ++ replicate (Z.to_nat (4 * width)) 0x81.

Definition breakout : Header := {|
  LCDWIDTH := 64;
  LCDHEIGHT := 48;
  LCDTOTALWIDTH := 128;
  LCDTOTALHEIGHT := 64;
  LCDCOLUMNOFFSET := 32;
  BLACK := 0;
  WHITE := 1;
  NORM := 0;
  XOR := 1;
  PAGE := 0;
  ALL := 1;
  FONTHEADERSIZE := 6;
  MEMORYMODE := 0x20;
  SETCOLUMNBOUNDS := 0x21;
  SETPAGEBOUNDS := 0x22;
  font5x7 := sample_font 5 8;
  font8x16 := sample_font 8 16;
  sevensegment := sample_font 10 16;
  fontlargenumber := sample_font 12 48
|}.

(** The page buffer right after [init]'s [memset]. *)
Definition blank : framebuffer := replicate 384 0.

(** The object right after construction, before any font is selected. *)
Definition constructed : MicroOLED := {|
  foreColor := 1; drawMode := 0;
  fontWidth := 0; fontHeight := 0; fontType := 0;
  fontStartChar := 0; fontTotalChar := 0;
  cursorX := 0; cursorY := 0; fontMapWidth := 0;
  bus := []
|}.


(** * Reference descriptions

    What the specification says the primitives do, written down
    independently of the code and over unbounded integers, to compare the
    code with. *)

(** Integer Bresenham as the specification words it: the walk along the
    dominant axis issues one request per step; the accumulator is decremented
    by [dy] each step and, whenever it goes negative, incremented by [dx]
    together with a step of the other coordinate. *)
Fixpoint bresenham_walk (n : nat) (steep : bool)
    (x y err dx dy ystep color mode : Z) : list request :=
  match n with
  | O => []
  | S n' =>
      (if steep then Request y x color mode else Request x y color mode)
      :: (if err - dy <? 0
          then bresenham_walk n' steep (x + 1) (y + ystep) (err - dy + dx)
                 dx dy ystep color mode
          else bresenham_walk n' steep (x + 1) y (err - dy) dx dy ystep color mode)
  end.

(** The whole line: transpose when steep, order the endpoints along the
    dominant axis, start the accumulator at [dx/2], and walk [x0 .. x1-1]. *)
Definition bresenham (x0 y0 x1 y1 color mode : Z) : list request :=
  let steep := Z.abs (y1 - y0) >? Z.abs (x1 - x0) in
  let '(x0, y0, x1, y1) := if steep then (y0, x0, y1, x1) else (x0, y0, x1, y1) in
  let '(x0, y0, x1, y1) := if x0 >? x1 then (x1, y1, x0, y0) else (x0, y0, x1, y1) in
  let dx := x1 - x0 in
  let dy := Z.abs (y1 - y0) in
  bresenham_walk (Z.to_nat dx) steep x0 y0 (dx / 2) dx dy
    (if y0 <? y1 then 1 else -1) color mode.

(** The coordinate along which the loop of [line] counts: the row when the
    line is steep, the column otherwise. *)
Definition running (steep : bool) (r : request) : Z :=
  if steep then req_y r else req_x r.

(** One decoded glyph column: the eight bits of [temp], least significant
    first, go to the rows [y .. y+7] of column [x+i]; a 1 bit asks for the
    requested colour, a 0 bit for its negation. *)
Definition glyph_column (x y i temp color mode : Z) : list request :=
  (fun j => Request (u8 (x + i)) (u8 (y + j))
              (if Z.testbit temp j then color else lognot color) mode)
  <$> seqZ 0 8.

Section Reference.
Context `{Header}.

(** A glyph of a single-band font: its [fontWidth] columns, from the bytes of
    glyph number [c - fontStartChar], then one more column decoded from a
    zero byte. *)
Definition glyph_requests (o : MicroOLED) (x y c color mode : Z) : list request :=
  flat_map
    (fun i => glyph_column x y i
                (font_byte (fontType o)
                   (FONTHEADERSIZE + (c - fontStartChar o) * fontWidth o + i))
                color mode)
    (seqZ 0 (fontWidth o))
  ++ glyph_column x y (fontWidth o) 0 color mode.

(** The outline the specification describes for [rect]: the two horizontal
    edges, then, unless [height < 2], the two vertical edges inset by one
    pixel at each end. *)
Definition rect_outline (x y width height color mode : Z) (fb : framebuffer) : framebuffer :=
  let fb := lineH x y width color mode fb in
  let fb := lineH x (u8 (y + height - 1)) width color mode fb in
  if height <? 2 then fb
  else
    let fb := lineV x (u8 (y + 1)) (u8 (height - 2)) color mode fb in
    lineV (u8 (x + width - 1)) (u8 (y + 1)) (u8 (height - 2)) color mode fb.

End Reference.

(** A page buffer and a recording that tell the same story from [fb0] on,
    every recorded request being in the one mode [mode]. *)
Definition served_at `{Header} (mode : Z) (fb0 : framebuffer) (fb : framebuffer)
    (rs : list request) : Prop :=
  fb = exec rs fb0 /\ Forall (fun q => req_mode q = mode) rs.

(** * Cursor, text output and bitmap load *)

(** [MicroOLED::setCursor(x, y)]. *)
Definition setCursor (x y : Z) (o : MicroOLED) : MicroOLED :=
  {| foreColor := foreColor o; drawMode := drawMode o;
     fontWidth := fontWidth o; fontHeight := fontHeight o; fontType := fontType o;
     fontStartChar := fontStartChar o; fontTotalChar := fontTotalChar o;
     cursorX := x; cursorY := y; fontMapWidth := fontMapWidth o;
     bus := bus o |}.

(** [MicroOLED::setColor(color)]. *)
Definition setColor (color : Z) (o : MicroOLED) : MicroOLED :=
  {| foreColor := color; drawMode := drawMode o;
     fontWidth := fontWidth o; fontHeight := fontHeight o; fontType := fontType o;
     fontStartChar := fontStartChar o; fontTotalChar := fontTotalChar o;
     cursorX := cursorX o; cursorY := cursorY o; fontMapWidth := fontMapWidth o;
     bus := bus o |}.

(** [MicroOLED::setDrawMode(mode)]. *)
Definition setDrawMode (mode : Z) (o : MicroOLED) : MicroOLED :=
  {| foreColor := foreColor o; drawMode := mode;
     fontWidth := fontWidth o; fontHeight := fontHeight o; fontType := fontType o;
     fontStartChar := fontStartChar o; fontTotalChar := fontTotalChar o;
     cursorX := cursorX o; cursorY := cursorY o; fontMapWidth := fontMapWidth o;
     bus := bus o |}.

Section Text.
Context `{Header}.
Context {T : Type} {canvas : Canvas T}.

(** [MicroOLED::putc(c)], on the object and what it draws to.  [c] is the
    [char]; ['\n'] is 10 and ['\r'] is 13.  The cursor members are
    [uint8_t], so [+=] narrows.  [None] is [drawChar] not returning. *)
Definition putc (fuel : nat) (c : Z) (st : MicroOLED * T) : option (MicroOLED * T) :=
  let '(o, s) := st in
  if c =? 10 then
    Some (setCursor 0 (u8 (cursorY o + fontHeight o)) o, s)
  else if c =? 13 then
    Some (o, s)
  else
    match drawChar fuel o (cursorX o) (cursorY o) (u8 c) (foreColor o) (drawMode o) s with
    | None => None
    | Some s =>
        let cursorX' := u8 (cursorX o + (fontWidth o + 1)) in
        if cursorX' >? LCDWIDTH - fontWidth o
        then Some (setCursor 0 (u8 (cursorY o + fontHeight o)) o, s)
        else Some (setCursor cursorX' (cursorY o) o, s)
    end.

(** [MicroOLED::puts(cstring)]: one [putc] per character, up to the
    terminating 0.  The list holds the characters at [cstring]; the string
    ends at its first 0, or where the list ends. *)
Fixpoint puts (fuel : nat) (cstring : list Z) (st : MicroOLED * T) : option (MicroOLED * T) :=
  match cstring with
  | [] => Some st
  | c :: cstring' =>
      if c =? 0 then Some st
      else match putc fuel c st with
           | Some st => puts fuel cstring' st
           | None => None
           end
  end.

End Text.

Section Bitmap.
Context `{Header}.

(** [MicroOLED::drawBitmap(bitArray)]: the first [LCDWIDTH*LCDHEIGHT/8]
    bytes of [bitArray], copied one by one.  A read past the end of
    [bitArray] is undefined in the source; here it yields 0. *)
Definition drawBitmap (bitArray : list Z) (screenmemory : framebuffer) : framebuffer :=
  ((fun i => bitArray !!! i) <$> seq 0 (Z.to_nat screen_bytes))
  ++ drop (Z.to_nat screen_bytes) screenmemory.

End Bitmap.

(** ** What the controller hears

    The controller takes a byte only while its select line is low, as a
    command when the data/command line is low and as display data when it is
    high.  [heard] replays the bus traffic from given line levels and returns
    the bytes taken, each tagged [true] for data, with the final levels. *)
Fixpoint heard (dc cs : Z) (evs : list bus_event) : list (bool * Z) * (Z * Z) :=
  match evs with
  | [] => ([], (dc, cs))
  | SetDC level :: evs => heard level cs evs
  | SetCS level :: evs => heard dc level evs
  | SpiWrite byte :: evs =>
      if cs =? 0
      then let '(bytes, levels) := heard dc cs evs in
           ((negb (dc =? 0), byte) :: bytes, levels)
      else heard dc cs evs
  end.

(** ** How one request changes one pixel

    The effect of a request on the pixel [(x, y)], as a function of the
    pixel's value before: nothing when the request is for another place;
    otherwise, in XOR mode, a toggle for WHITE and nothing for other colours,
    and in any other mode the value WHITE-or-not of the colour. *)
Section Effect.
Context `{Header}.

Definition hits (r : request) (x y : Z) : bool := (req_x r =? x) && (req_y r =? y).

Definition effect (r : request) (x y : Z) (before : bool) : bool :=
  if hits r x y then
    if req_mode r =? XOR
    then (if req_color r =? WHITE then negb before else before)
    else (req_color r =? WHITE)
  else before.

End Effect.

(** ** Where a circle's pixels lie

    A request for the pixel at the offset [(dx, dy)] from the centre
    [(x0, y0)], the coordinates narrowed to eight bits as the calls of
    [pixel] narrow them, whose squared distance from the centre differs from
    [radius^2] by less than [radius] (by nothing when the radius is 0): the
    pixel is within half a pixel of the ideal circle. *)
Definition on_ring (x0 y0 radius color mode : Z) (q : request) : Prop :=
  exists dx dy,
    req_x q = u8 (x0 + dx) /\ req_y q = u8 (y0 + dy)
    /\ Z.abs (dx * dx + dy * dy - radius * radius) < Z.max 1 radius
    /\ req_color q = color /\ req_mode q = mode.

(** A request for a pixel inside the disc: at an offset [(dx, dy)] from the
    centre with [dx^2 + dy^2 < radius^2 + radius] (the centre itself when the
    radius is 0). *)
Definition in_disc (x0 y0 radius color mode : Z) (q : request) : Prop :=
  exists dx dy,
    req_x q = u8 (x0 + dx) /\ req_y q = u8 (y0 + dy)
    /\ dx * dx + dy * dy < radius * radius + Z.max 1 radius
    /\ req_color q = color /\ req_mode q = mode.

(** ** Glyphs of more than one band

    One decoded column of band [row]: the eight bits of [temp], least
    significant first, go to the rows [y + 8*row .. y + 8*row + 7] of column
    [x+i]. *)
Definition band_column (x y i row temp color mode : Z) : list request :=
  (fun j => Request (u8 (x + i)) (u8 (y + j + row * 8))
              (if Z.testbit temp j then color else lognot color) mode)
  <$> seqZ 0 8.

Section TallReference.
Context `{Header}.

(** A glyph of a font at least 16 rows tall, as the specification lays the
    sheet out: [fontMapWidth / fontWidth] glyphs per sheet row, the glyph's
    tile found by quotient and remainder of its index, [fontHeight / 8]
    bands of [fontWidth] bytes each, one sheet width apart, and no column
    after the glyph. *)
Definition tall_glyph_requests (o : MicroOLED) (x y c color mode : Z) : list request :=
  let index := c - fontStartChar o in
  let perRow := fontMapWidth o / fontWidth o in
  let start := (index / perRow) * fontMapWidth o * (fontHeight o / 8)
               + (index mod perRow) * fontWidth o in
  flat_map
    (fun row =>
       flat_map
         (fun i => band_column x y i row
                     (font_byte (fontType o)
                        (FONTHEADERSIZE + (start + i + row * fontMapWidth o)))
                     color mode)
         (seqZ 0 (fontWidth o)))
    (seqZ 0 (fontHeight o / 8)).

End TallReference.

Section CellReference.
Context `{Header}.

(** The request for column [i], row [j] of the cell of a single-band glyph
    drawn at [(x, y)] without wrapping: column [fontWidth] is the blank
    one. *)
Definition glyph_cell_request (o : MicroOLED) (x y c color mode i j : Z) : request :=
  Request (x + i) (y + j)
    (if Z.testbit
          (if i =? fontWidth o then 0
           else font_byte (fontType o)
                  (FONTHEADERSIZE + (c - fontStartChar o) * fontWidth o + i))
          j
     then color else lognot color)
    mode.

End CellReference.

(** ** The page buffer as an array with bounds

    An index outside [screenmemory] is undefined behaviour in the source.
    [poke] is the read-modify-write [screenmemory[i] op= v] with the index
    checked against the array: [None] stands for an access outside it. *)
Section Checked.
Context `{Header}.

Definition poke (f : Z -> Z) (i : Z) (fb : framebuffer) : option framebuffer :=
  if (0 <=? i) && (i <? Z.of_nat (length fb)) then Some (modify f i fb) else None.

(** [MicroOLED::pixel(x, y, color, mode)] once more, every access to
    [screenmemory] checked. *)
Definition pixel_checked (x y color mode : Z) (screenmemory : framebuffer) :
    option framebuffer :=
  if (LCDWIDTH <=? x) || (LCDHEIGHT <=? y) then Some screenmemory
  else if mode =? XOR then
    if color =? WHITE
    then poke (fun b => u8 (Z.lxor b (_BV (y mod 8)))) (x + (y / 8) * LCDWIDTH) screenmemory
    else Some screenmemory
  else
    if color =? WHITE
    then poke (fun b => u8 (Z.lor b (_BV (y mod 8)))) (x + (y / 8) * LCDWIDTH) screenmemory
    else poke (fun b => u8 (Z.land b (Z.lnot (_BV (y mod 8))))) (x + (y / 8) * LCDWIDTH)
           screenmemory.

(** Drawing on the checked array: after an access outside the array there
    is no buffer to go on with. *)
#[global] Instance checked : Canvas (option framebuffer) :=
  fun x y color mode s =>
    match s with
    | Some screenmemory => pixel_checked x y color mode screenmemory
    | None => None
    end.

End Checked.

(** A request whose coordinates are eight-bit values, as the [uint8_t]
    parameters of [pixel] are. *)
Definition byte_coordinates (q : request) : Prop :=
  is_u8 (req_x q) /\ is_u8 (req_y q).

(** A checked buffer and a recording that tell the same story from [fb0]
    on: as long as the recorded coordinates are eight-bit values, no access
    has left the array and the buffer is what serving the requests makes of
    [fb0]. *)
Definition checked_serves `{Header} (fb0 : framebuffer) (a : option framebuffer)
    (rs : list request) : Prop :=
  Forall byte_coordinates rs -> a = Some (exec rs fb0).

(** * Properties *)

(** Side conditions on concrete inputs are settled by evaluation. *)
Ltac by_evaluation :=
  first [ done
        | cbn; lia
        | vm_compute; first [ reflexivity | lia | discriminate
                            | intro; discriminate | intuition congruence ] ].

(** The conjuncts that place a request at an offset from a centre. *)
Ltac ring_point := repeat split; try done; try (f_equal; lia); try lia.

(** ** Eight-bit arithmetic *)

Lemma u8_range z : is_u8 (u8 z).
Proof. unfold is_u8, u8. apply Z.mod_pos_bound. lia. Qed.

Lemma u8_small z : is_u8 z -> u8 z = z.
Proof. unfold is_u8, u8. intros. apply Z.mod_small. lia. Qed.

Lemma i8_small z : -128 <= z < 128 -> i8 z = z.
Proof. unfold i8. intros. rewrite Z.mod_small; lia. Qed.

Lemma testbit_u8 z k : 0 <= k < 8 -> Z.testbit (u8 z) k = Z.testbit z k.
Proof.
  intros Hk. unfold u8. change 256 with (2 ^ 8).
  apply Z.mod_pow2_bits_low. lia.
Qed.

Lemma testbit_u8_high z k : 8 <= k -> Z.testbit (u8 z) k = false.
Proof.
  intros Hk. unfold u8. change 256 with (2 ^ 8).
  apply Z.mod_pow2_bits_high. lia.
Qed.

Lemma testbit_BV k j : 0 <= k -> Z.testbit (_BV k) j = (k =? j).
Proof.
  intros Hk. unfold _BV. rewrite Z.shiftl_1_l. by apply Z.pow2_bits_eqb.
Qed.

Lemma u8_eq_bits a b :
  is_u8 a -> is_u8 b ->
  (forall k, 0 <= k < 8 -> Z.testbit a k = Z.testbit b k) -> a = b.
Proof.
  intros Ha Hb Hbits. rewrite <- (u8_small a), <- (u8_small b) by done.
  apply Z.bits_inj'. intros k Hk.
  destruct (Z.lt_ge_cases k 8).
  - rewrite !testbit_u8 by lia. apply Hbits. lia.
  - by rewrite !testbit_u8_high.
Qed.

(** ** The pixel primitive *)

Section Pixel.
Context `{Header}.

Lemma pixel_off_screen x y color mode fb :
  LCDWIDTH <= x \/ LCDHEIGHT <= y -> pixel x y color mode fb = fb.
Proof.
  intros Hout. unfold pixel.
  destruct (LCDWIDTH <=? x) eqn:Hx; [done|].
  destruct (LCDHEIGHT <=? y) eqn:Hy; [done|]. lia.
Qed.

Lemma pixel_not_visible x y color mode fb :
  on_screen x y = false -> pixel x y color mode fb = fb.
Proof.
  unfold on_screen. intros Hv. apply pixel_off_screen.
  apply andb_false_iff in Hv as [Hv|Hv]; apply Z.ltb_ge in Hv; auto.
Qed.

Lemma pixel_length x y color mode fb :
  length (pixel x y color mode fb) = length fb.
Proof.
  unfold pixel, modify.
  repeat match goal with |- context [if ?b then _ else _] => destruct b end;
    by rewrite ?length_alter.
Qed.

(** [pixel] keeps the page buffer a buffer: the same number of bytes, each
    still an eight-bit value. *)
Lemma pixel_wf x y color mode fb :
  wf_screen fb -> wf_screen (pixel x y color mode fb).
Proof.
  intros [Hlen Hbytes]. split; [by rewrite pixel_length|].
  unfold pixel, modify.
  repeat match goal with |- context [if ?b then _ else _] => destruct b end;
    try done; apply Forall_alter; try done; intros; apply u8_range.
Qed.

Lemma exec_app rs qs fb : exec (rs ++ qs) fb = exec qs (exec rs fb).
Proof. unfold exec. apply fold_left_app. Qed.

Lemma exec_visible rs fb : exec rs fb = exec (List.filter visible rs) fb.
Proof.
  revert fb. induction rs as [|r rs IH]; intros fb; [done|].
  cbn [List.filter]. destruct (visible r) eqn:Hv.
  - cbn. apply IH.
  - cbn. unfold serve at 2. unfold visible in Hv.
    rewrite pixel_not_visible by done. apply IH.
Qed.

Lemma exec_hidden rs fb :
  Forall (fun r => LCDWIDTH <= req_x r \/ LCDHEIGHT <= req_y r) rs -> exec rs fb = fb.
Proof.
  induction 1 as [|r rs Hr _ IH]; [done|].
  cbn. unfold serve at 2. by rewrite pixel_off_screen.
Qed.

Lemma exec_wf rs fb : wf_screen fb -> wf_screen (exec rs fb).
Proof.
  revert fb. induction rs as [|r rs IH]; intros fb Hfb; [done|].
  apply IH. by apply pixel_wf.
Qed.

End Pixel.

(** ** Primitives draw through [plot] alone

    Whatever relation between two canvases [plot] preserves, every primitive
    preserves. *)

Section Simulation.
Context `{Header}.
Context {A B : Type} `{Canvas A} `{Canvas B} (R : A -> B -> Prop).
Hypothesis plot_sim :
  forall x y color mode a b, R a b -> R (plot x y color mode a) (plot x y color mode b).

Lemma for_u8_sim fuel cond (f : Z -> A -> option A) (g : Z -> B -> option B) :
  (forall i a b, R a b -> option_Forall2 R (f i a) (g i b)) ->
  forall i a b, R a b -> option_Forall2 R (for_u8 fuel cond f i a) (for_u8 fuel cond g i b).
Proof.
  intros Hbody. induction fuel as [|fuel IH]; intros i a b Hab; cbn.
  - constructor.
  - destruct (cond i); [|by constructor].
    destruct (Hbody i a b Hab); [by apply IH | constructor].
Qed.

Lemma line_loop_sim fuel steep x0 y0 x1 dx dy err ystep color mode a b :
  R a b ->
  R (line_loop fuel steep x0 y0 x1 dx dy err ystep color mode a)
    (line_loop fuel steep x0 y0 x1 dx dy err ystep color mode b).
Proof.
  revert x0 y0 err a b.
  induction fuel as [|fuel IH]; intros x0 y0 err a b Hab; cbn; [done|].
  destruct (x0 <? x1); [|done].
  destruct (i8 (err - dy) <? 0); apply IH; destruct steep; by apply plot_sim.
Qed.

Lemma line_sim x0 y0 x1 y1 color mode a b :
  R a b -> R (line x0 y0 x1 y1 color mode a) (line x0 y0 x1 y1 color mode b).
Proof.
  intros Hab. unfold line.
  destruct (Z.abs (y1 - y0) >? Z.abs (x1 - x0)); cbn;
    match goal with |- context [if ?a >? ?b then _ else _] => destruct (a >? b) end;
    by apply line_loop_sim.
Qed.

Lemma lineH_sim x y width color mode a b :
  R a b -> R (lineH x y width color mode a) (lineH x y width color mode b).
Proof. apply line_sim. Qed.

Lemma lineV_sim x y height color mode a b :
  R a b -> R (lineV x y height color mode a) (lineV x y height color mode b).
Proof. apply line_sim. Qed.

Lemma rect_sim x y width height color mode a b :
  R a b -> R (rect x y width height color mode a) (rect x y width height color mode b).
Proof.
  intros Hab. unfold rect.
  destruct (u8 (height - 2) <? 1); auto using lineH_sim, lineV_sim.
Qed.

Lemma rectFill_loop_sim fuel i x y width height color mode a b :
  R a b ->
  R (rectFill_loop fuel i x y width height color mode a)
    (rectFill_loop fuel i x y width height color mode b).
Proof.
  revert i a b.
  induction fuel as [|fuel IH]; intros i a b Hab; cbn; [done|].
  destruct (i <? x + width); auto using lineV_sim.
Qed.

Lemma rectFill_sim x y width height color mode a b :
  R a b ->
  R (rectFill x y width height color mode a) (rectFill x y width height color mode b).
Proof. apply rectFill_loop_sim. Qed.

Lemma circle_loop_sim fuel x0 y0 v color mode a b :
  R a b -> R (circle_loop fuel x0 y0 v color mode a) (circle_loop fuel x0 y0 v color mode b).
Proof.
  revert v a b. induction fuel as [|fuel IH]; intros v a b Hab; cbn; [done|].
  destruct v as [[[[f ddx] ddy] x] y].
  destruct (x <? y); [|done].
  destruct (midpoint_step (f, ddx, ddy, x, y)) as [[[[f' ddx'] ddy'] x'] y'].
  apply IH. auto 10.
Qed.

Lemma circle_sim x0 y0 radius color mode a b :
  R a b -> R (circle x0 y0 radius color mode a) (circle x0 y0 radius color mode b).
Proof. intros Hab. unfold circle. apply circle_loop_sim. auto 10. Qed.

Lemma circleFill_loop_sim passes fuel x0 y0 v color mode a b :
  R a b ->
  option_Forall2 R (circleFill_loop passes fuel x0 y0 v color mode a)
                   (circleFill_loop passes fuel x0 y0 v color mode b).
Proof.
  revert v a b. induction passes as [|passes IH]; intros v a b Hab; cbn; [constructor|].
  destruct v as [[[[f ddx] ddy] x] y].
  destruct (x <? y); [|by constructor].
  destruct (midpoint_step (f, ddx, ddy, x, y)) as [[[[f' ddx'] ddy'] x'] y'].
  match goal with |- option_Forall2 _ (match ?u with _ => _ end) (match ?w with _ => _ end) =>
    assert (option_Forall2 R u w) as [a1 b1 Hab1|]
      by (apply for_u8_sim; [intros; constructor; auto | done])
  end; [|constructor].
  match goal with |- option_Forall2 _ (match ?u with _ => _ end) (match ?w with _ => _ end) =>
    assert (option_Forall2 R u w) as [a2 b2 Hab2|]
      by (apply for_u8_sim; [intros; constructor; auto | done])
  end; [|constructor].
  by apply IH.
Qed.

Lemma circleFill_sim fuel x0 y0 radius color mode a b :
  R a b ->
  option_Forall2 R (circleFill fuel x0 y0 radius color mode a)
                   (circleFill fuel x0 y0 radius color mode b).
Proof.
  intros Hab. unfold circleFill. destruct (mode =? XOR); [by constructor|].
  match goal with |- option_Forall2 _ (match ?u with _ => _ end) (match ?w with _ => _ end) =>
    assert (option_Forall2 R u w) as [a1 b1 Hab1|]
      by (apply for_u8_sim; [intros; constructor; auto | done])
  end; [|constructor].
  by apply circleFill_loop_sim.
Qed.

Lemma column_loop_sim fuel j temp x i y row color mode a b :
  R a b ->
  R (column_loop fuel j temp x i y row color mode a)
    (column_loop fuel j temp x i y row color mode b).
Proof.
  revert j temp a b. induction fuel as [|fuel IH]; intros j temp a b Hab; cbn; [done|].
  destruct (j <? 8); [|done].
  apply IH. destruct (negb (Z.land temp 1 =? 0)); auto.
Qed.

Lemma drawChar_sim fuel o x y c color mode a b :
  R a b ->
  option_Forall2 R (drawChar fuel o x y c color mode a) (drawChar fuel o x y c color mode b).
Proof.
  intros Hab. unfold drawChar.
  destruct (_ || _); [by constructor|].
  destruct (_ =? 1).
  - apply for_u8_sim; [|done]. intros. constructor. by apply column_loop_sim.
  - apply for_u8_sim; [|done]. intros. apply for_u8_sim; [|done].
    intros. constructor. by apply column_loop_sim.
Qed.

End Simulation.

(** ** Drawing on the page buffer is serving the recorded requests *)

Section Served.
Context `{Header}.

Lemma serves_plot fb0 x y color mode fb rs :
  serves fb0 fb rs -> serves fb0 (plot x y color mode fb) (plot x y color mode rs).
Proof.
  unfold serves. intros ->. unfold plot at 2, recorder.
  by rewrite exec_app.
Qed.

Lemma serves_nil fb : serves fb fb [].
Proof. done. Qed.

Lemma served_all (p : forall T, Canvas T -> T -> T) fb :
  (forall fb0 a b, serves fb0 a b -> serves fb0 (p _ screen a) (p _ recorder b)) ->
  p _ screen fb = exec (requests (p _ recorder)) fb.
Proof. intros Hsim. apply (Hsim fb), serves_nil. Qed.

Lemma served (p : forall T, Canvas T -> T -> T) fb :
  (forall fb0 a b, serves fb0 a b -> serves fb0 (p _ screen a) (p _ recorder b)) ->
  p _ screen fb = exec (List.filter visible (requests (p _ recorder))) fb.
Proof. intros Hsim. rewrite <- exec_visible. by apply served_all. Qed.

Lemma served_within (p : forall T, Canvas T -> T -> option T) fb :
  (forall fb0 a b, serves fb0 a b ->
     option_Forall2 (serves fb0) (p _ screen a) (p _ recorder b)) ->
  p _ screen fb
  = (fun rs => exec (List.filter visible rs) fb) <$> requests_within (p _ recorder).
Proof.
  intros Hsim. unfold requests_within.
  destruct (Hsim fb fb [] (serves_nil fb)) as [a b Hab|]; cbn; [|done].
  by rewrite <- exec_visible, Hab.
Qed.

End Served.

(** ** Clipping at the panel edge *)

Section Clipping.
Context `{Header}.

(** C1. A call of [pixel] at a coordinate with [x >= LCDWIDTH] or
    [y >= LCDHEIGHT] returns the page buffer unchanged, whatever the colour
    and mode; a sequence of such calls does too; and every primitive built
    on [pixel] ([line], [lineH], [lineV], [rect], [rectFill], [circle],
    [circleFill], [drawChar]) leaves the buffer exactly as the requests that
    fall inside the panel leave it: the requests outside contribute
    nothing. *)
Theorem off_screen_plots_discarded :
  (forall x y color mode fb,
     LCDWIDTH <= x \/ LCDHEIGHT <= y -> pixel x y color mode fb = fb)
  /\ (forall rs fb,
        Forall (fun r => LCDWIDTH <= req_x r \/ LCDHEIGHT <= req_y r) rs ->
        exec rs fb = fb)
  /\ (forall x0 y0 x1 y1 color mode fb,
        line x0 y0 x1 y1 color mode fb
        = exec (List.filter visible (requests (line x0 y0 x1 y1 color mode))) fb)
  /\ (forall x y width color mode fb,
        lineH x y width color mode fb
        = exec (List.filter visible (requests (lineH x y width color mode))) fb)
  /\ (forall x y height color mode fb,
        lineV x y height color mode fb
        = exec (List.filter visible (requests (lineV x y height color mode))) fb)
  /\ (forall x y width height color mode fb,
        rect x y width height color mode fb
        = exec (List.filter visible (requests (rect x y width height color mode))) fb)
  /\ (forall x y width height color mode fb,
        rectFill x y width height color mode fb
        = exec (List.filter visible (requests (rectFill x y width height color mode))) fb)
  /\ (forall x0 y0 radius color mode fb,
        circle x0 y0 radius color mode fb
        = exec (List.filter visible (requests (circle x0 y0 radius color mode))) fb)
  /\ (forall fuel x0 y0 radius color mode fb,
        circleFill fuel x0 y0 radius color mode fb
        = (fun rs => exec (List.filter visible rs) fb)
            <$> requests_within (circleFill fuel x0 y0 radius color mode))
  /\ (forall fuel o x y c color mode fb,
        drawChar fuel o x y c color mode fb
        = (fun rs => exec (List.filter visible rs) fb)
            <$> requests_within (drawChar fuel o x y c color mode)).
Proof.
  repeat split.
  - intros. by apply pixel_off_screen.
  - intros. by apply exec_hidden.
  - intros. apply (served (fun T C => line (canvas:=C) x0 y0 x1 y1 color mode)).
    intros. apply line_sim; [apply serves_plot | done].
  - intros. apply (served (fun T C => lineH (canvas:=C) x y width color mode)).
    intros. apply lineH_sim; [apply serves_plot | done].
  - intros. apply (served (fun T C => lineV (canvas:=C) x y height color mode)).
    intros. apply lineV_sim; [apply serves_plot | done].
  - intros. apply (served (fun T C => rect (canvas:=C) x y width height color mode)).
    intros. apply rect_sim; [apply serves_plot | done].
  - intros. apply (served (fun T C => rectFill (canvas:=C) x y width height color mode)).
    intros. apply rectFill_sim; [apply serves_plot | done].
  - intros. apply (served (fun T C => circle (canvas:=C) x0 y0 radius color mode)).
    intros. apply circle_sim; [apply serves_plot | done].
  - intros.
    apply (served_within (fun T C => circleFill (canvas:=C) fuel x0 y0 radius color mode)).
    intros. apply circleFill_sim; [apply serves_plot | done].
  - intros.
    apply (served_within (fun T C => drawChar (canvas:=C) fuel o x y c color mode)).
    intros. apply drawChar_sim; [apply serves_plot | done].
Qed.

End Clipping.

Section ClippingSample.
#[local] Existing Instance breakout.

Lemma pixel_off_screen_witness :
  pixel 64 7 1 0 blank = blank
  /\ pixel 3 48 1 1 blank = blank.
Proof.
  split; apply (proj1 (off_screen_plots_discarded (H:=breakout))); cbn; lia.
Defined.

End ClippingSample.

(** ** The exclusive-or mode *)

Section XorMode.
Context `{Header}.

Lemma xor_twice b k :
  0 <= k < 8 ->
  Z.testbit (u8 (Z.lxor (u8 (Z.lxor b (_BV k))) (_BV k))) k = Z.testbit b k.
Proof.
  intros Hk.
  rewrite testbit_u8, Z.lxor_spec, testbit_u8, Z.lxor_spec by done.
  rewrite testbit_BV, Z.eqb_refl by lia. by destruct (Z.testbit b k).
Qed.

Lemma xor_twice_byte b k :
  is_u8 b -> 0 <= k < 8 -> u8 (Z.lxor (u8 (Z.lxor b (_BV k))) (_BV k)) = b.
Proof.
  intros Hb Hk. apply u8_eq_bits; [apply u8_range | done |].
  intros j Hj.
  rewrite testbit_u8, Z.lxor_spec, testbit_u8, Z.lxor_spec by done.
  rewrite testbit_BV by lia. by destruct (Z.testbit b j), (k =? j).
Qed.

(** On a buffer of bytes, two XOR plots of WHITE at one place restore the
    whole buffer, not only the addressed bit. *)
Lemma pixel_xor_twice x y fb :
  0 <= x < LCDWIDTH -> 0 <= y < LCDHEIGHT -> Forall is_u8 fb ->
  pixel x y WHITE XOR (pixel x y WHITE XOR fb) = fb.
Proof.
  intros Hx Hy Hfb. unfold pixel.
  destruct (LCDWIDTH <=? x) eqn:Ex; [lia|].
  destruct (LCDHEIGHT <=? y) eqn:Ey; [lia|]. cbn [orb].
  rewrite !Z.eqb_refl. unfold modify. rewrite list_alter_alter_eq.
  rewrite <- (list_alter_id id fb (Z.to_nat (x + y / 8 * LCDWIDTH))) at 2 by done.
  apply list_alter_ext; [|done]. intros b Hb. cbn.
  apply xor_twice_byte.
  - rewrite Forall_lookup in Hfb. by eapply Hfb.
  - apply Z.mod_pos_bound. lia.
Qed.

(** C2. At a coordinate inside the panel, plotting WHITE in XOR mode twice
    brings the addressed bit back to its original value, and plotting BLACK
    in XOR mode once leaves the whole page buffer as it was. *)
Theorem xor_white_involution_black_noop x y fb :
  0 <= x < LCDWIDTH -> 0 <= y < LCDHEIGHT -> BLACK <> WHITE ->
  bit_at (pixel x y WHITE XOR (pixel x y WHITE XOR fb)) x y = bit_at fb x y
  /\ pixel x y BLACK XOR fb = fb.
Proof.
  intros Hx Hy Hcol. unfold pixel.
  destruct (LCDWIDTH <=? x) eqn:Ex; [lia|].
  destruct (LCDHEIGHT <=? y) eqn:Ey; [lia|]. cbn [orb].
  rewrite !Z.eqb_refl. split.
  - unfold bit_at, modify. rewrite list_alter_alter_eq.
    rewrite list_lookup_total_alter. case_decide as Hi; [|done].
    cbn. apply xor_twice. apply Z.mod_pos_bound. lia.
  - destruct (BLACK =? WHITE) eqn:E; [|done]. apply Z.eqb_eq in E. done.
Qed.

End XorMode.

Section XorModeSample.
#[local] Existing Instance breakout.

Lemma xor_white_involution_black_noop_witness :
  bit_at
    (pixel 3 10 1 1 (pixel 3 10 1 1 blank)) 3 10
  = bit_at blank 3 10
  /\ pixel 3 10 0 1 blank = blank.
Proof.
  apply (xor_white_involution_black_noop (H:=breakout) 3 10 blank); cbn; lia.
Defined.

End XorModeSample.

(** ** Clearing the page buffer *)

Section Clear.
Context `{Header}.

Lemma memset_all fb c n :
  Z.of_nat (length fb) = n -> memset fb c n = replicate (Z.to_nat n) (u8 c).
Proof.
  intros Hlen. unfold memset. rewrite drop_ge by lia. apply app_nil_r.
Qed.

Lemma byte_index_in_range x y :
  LCDHEIGHT mod 8 = 0 -> 0 <= x < LCDWIDTH -> 0 <= y < LCDHEIGHT ->
  0 <= x + y / 8 * LCDWIDTH < screen_bytes.
Proof.
  intros Hpages Hx Hy. unfold screen_bytes.
  apply Z.mod_divide in Hpages as [q Hq]; [|lia]. rewrite Hq.
  rewrite Z.mul_assoc, Z.div_mul by lia.
  assert (0 <= y / 8 < q).
  { split; [apply Z.div_pos; lia | apply Z.div_lt_upper_bound; lia]. }
  nia.
Qed.

Lemma bit_at_replicate c x y :
  LCDHEIGHT mod 8 = 0 -> 0 <= x < LCDWIDTH -> 0 <= y < LCDHEIGHT ->
  bit_at (replicate (Z.to_nat screen_bytes) c) x y = Z.testbit c (y mod 8).
Proof.
  intros Hpages Hx Hy. unfold bit_at.
  pose proof (byte_index_in_range x y Hpages Hx Hy).
  rewrite lookup_total_replicate_2; [done | lia].
Qed.

(** C3. With a clear target other than [ALL] (the target [PAGE]),
    [clear(mode, c)] leaves every one of the [LCDWIDTH*LCDHEIGHT/8] bytes of
    the page buffer equal to [c], and [clear(mode)] leaves them equal to 0.
    On a panel whose height is a multiple of eight, every pixel inside the
    panel then reads as clear after a fill with 0 and as set after a fill
    with 0xFF. *)
Theorem clear_page_fills_buffer o fb c :
  PAGE <> ALL -> is_u8 c -> Z.of_nat (length fb) = screen_bytes ->
  (clear_with PAGE c (o, fb)).2 = replicate (Z.to_nat screen_bytes) c
  /\ (clear PAGE (o, fb)).2 = replicate (Z.to_nat screen_bytes) 0
  /\ (LCDHEIGHT mod 8 = 0 ->
      forall x y, 0 <= x < LCDWIDTH -> 0 <= y < LCDHEIGHT ->
        bit_at (clear PAGE (o, fb)).2 x y = false
        /\ bit_at (clear_with PAGE 0 (o, fb)).2 x y = false
        /\ bit_at (clear_with PAGE 255 (o, fb)).2 x y = true).
Proof.
  intros Htarget Hc Hlen.
  assert ((PAGE =? ALL) = false) as E by (by apply Z.eqb_neq).
  assert (forall c', (clear_with PAGE c' (o, fb)).2
                     = replicate (Z.to_nat screen_bytes) (u8 c')) as Hfill.
  { intros c'. unfold clear_with, display. rewrite E. cbn. by apply memset_all. }
  assert ((clear PAGE (o, fb)).2 = replicate (Z.to_nat screen_bytes) 0) as Hzero.
  { unfold clear. rewrite E. cbn. by apply memset_all. }
  split; [|split].
  - by rewrite Hfill, u8_small.
  - done.
  - intros Hpages x y Hx Hy.
    assert (0 <= y mod 8 < 8) by (apply Z.mod_pos_bound; lia).
    rewrite Hzero, !Hfill, !bit_at_replicate by done.
    change (u8 0) with 0. change (u8 255) with (Z.ones 8).
    rewrite Z.bits_0, Z.ones_spec_low by lia. done.
Qed.

End Clear.

Section ClearSample.
#[local] Existing Instance breakout.

Lemma clear_page_fills_buffer_witness :
  (clear_with 0 165 (constructed, blank)).2 = replicate 384 165
  /\ (clear 0 (constructed, blank)).2 = replicate 384 0
  /\ bit_at (clear_with 0 255 (constructed, blank)).2 63 47 = true.
Proof.
  destruct (clear_page_fills_buffer (H:=breakout) constructed blank 165)
    as (Hfill & Hzero & Hbits); [done | done | done |].
  split; [exact Hfill | split; [exact Hzero |]].
  apply (Hbits eq_refl 63 47); cbn; lia.
Defined.

End ClearSample.

(** ** Filled circles in XOR mode *)

Section CircleFill.
Context `{Header}.

(** C6. In XOR mode [circleFill] returns at its mode test, before any loop
    and before any call of [pixel]: whatever the centre, radius and colour,
    and however small the fuel, it ends with the page buffer unchanged. *)
Theorem circleFill_xor_returns_unchanged fuel x0 y0 radius color (fb : framebuffer) :
  circleFill fuel x0 y0 radius color XOR fb = Some fb.
Proof. unfold circleFill. by rewrite Z.eqb_refl. Qed.

(** In XOR mode it issues no request at all. *)
Lemma circleFill_xor_requests fuel x0 y0 radius color :
  requests_within (circleFill fuel x0 y0 radius color XOR) = Some [].
Proof. unfold requests_within, circleFill. by rewrite Z.eqb_refl. Qed.

End CircleFill.

(** ** Font selection *)

Section Fonts.
Context `{Header}.

(** C7. [setFontType] with an index of [TOTALFONTS] or more returns [false]
    (0) and hands back the object untouched, so all six active-font fields
    keep their values; with a smaller index it returns [true] (1) and sets
    [fontType] to the index and the other five fields from the six header
    bytes of that font, the map width being [byte 4 * 100 + byte 5] held in
    sixteen bits. *)
Theorem setFontType_checks_index type o :
  (TOTALFONTS <= type -> setFontType type o = (0, o))
  /\ (type < TOTALFONTS ->
      let o' := (setFontType type o).2 in
      (setFontType type o).1 = 1
      /\ fontType o' = type
      /\ fontWidth o' = font_byte type 0
      /\ fontHeight o' = font_byte type 1
      /\ fontStartChar o' = font_byte type 2
      /\ fontTotalChar o' = font_byte type 3
      /\ fontMapWidth o' = u16 (font_byte type 4 * 100 + font_byte type 5)).
Proof.
  unfold setFontType. split; intros Ht.
  - destruct (type >=? TOTALFONTS) eqn:E; [done | lia].
  - destruct (type >=? TOTALFONTS) eqn:E; [lia | done].
Qed.

(** What [setFontType] never touches. *)
Lemma setFontType_frame type o :
  let o' := (setFontType type o).2 in
  foreColor o' = foreColor o /\ drawMode o' = drawMode o
  /\ cursorX o' = cursorX o /\ cursorY o' = cursorY o /\ bus o' = bus o.
Proof. unfold setFontType. by destruct (type >=? TOTALFONTS). Qed.

End Fonts.

Section FontsSample.
#[local] Existing Instance breakout.

Lemma setFontType_checks_index_witness :
  setFontType 4 constructed = (0, constructed)
  /\ (setFontType 1 constructed).1 = 1
  /\ fontWidth (setFontType 1 constructed).2 = 8
  /\ fontMapWidth (setFontType 1 constructed).2 = 16.
Proof.
  split.
  - apply (proj1 (setFontType_checks_index (H:=breakout) 4 constructed)). done.
  - destruct (proj2 (setFontType_checks_index (H:=breakout) 1 constructed))
      as (Hret & _ & Hw & _ & _ & _ & Hmap); [done|].
    split; [exact Hret | split; [exact Hw | exact Hmap]].
Defined.

End FontsSample.

(** ** Characters outside the font *)

Section OutOfFont.
Context `{Header}.

(** C10. For a character code below [fontStartChar] or above
    [fontStartChar + fontTotalChar - 1], [drawChar] returns at its range
    test: it ends, for any fuel, with the page buffer unchanged, and it
    issues no request. *)
Theorem drawChar_outside_font_unchanged fuel o x y c color mode (fb : framebuffer) :
  c < fontStartChar o \/ c > fontStartChar o + fontTotalChar o - 1 ->
  drawChar fuel o x y c color mode fb = Some fb
  /\ requests_within (drawChar fuel o x y c color mode) = Some [].
Proof.
  intros Hc. unfold requests_within, drawChar.
  destruct (c <? fontStartChar o) eqn:E1; [done|].
  destruct (c >? fontStartChar o + fontTotalChar o - 1) eqn:E2; [done|]. lia.
Qed.

End OutOfFont.

Section OutOfFontSample.
#[local] Existing Instance breakout.

Lemma drawChar_outside_font_unchanged_witness :
  drawChar 0 (setFontType 0 constructed).2 0 0 50 1 0 blank
  = Some blank
  /\ requests_within
       (drawChar 0 (setFontType 0 constructed).2 0 0 47 1 0)
     = Some [].
Proof.
  split.
  - apply (drawChar_outside_font_unchanged (H:=breakout)).
    right. vm_compute. reflexivity.
  - apply (drawChar_outside_font_unchanged (H:=breakout) 0 _ 0 0 47 1 0 blank).
    left. vm_compute. reflexivity.
Defined.

End OutOfFontSample.

(** ** Filled rectangles *)

Section RectFill.
Context `{Header}.

Lemma rectFill_loop_columns {T} `{Canvas T} n i x y width height color mode (s : T) :
  Z.of_nat n = x + width - i ->
  rectFill_loop n i x y width height color mode s
  = fold_left (fun s k => lineV (u8 k) y height color mode s) (seqZ i (Z.of_nat n)) s.
Proof.
  revert i s. induction n as [|n IH]; intros i s Hn; [done|].
  cbn [rectFill_loop]. destruct (i <? x + width) eqn:E; [|lia].
  rewrite seqZ_cons by lia. cbn [fold_left].
  replace (Z.pred (Z.of_nat (S n))) with (Z.of_nat n) by lia.
  apply IH. lia.
Qed.

(** Fuel beyond [width] is never used: the counter has reached [x+width]. *)
Lemma rectFill_loop_done {T} `{Canvas T} n i x y width height color mode (s : T) :
  x + width <= i -> rectFill_loop n i x y width height color mode s = s.
Proof. intros Hi. destruct n; [done|]. cbn. destruct (i <? x + width) eqn:E; [lia|done]. Qed.

Lemma rectFill_columns {T} `{Canvas T} x y width height color mode (s : T) :
  rectFill x y width height color mode s
  = fold_left (fun s k => lineV (u8 k) y height color mode s) (seqZ x width) s.
Proof.
  unfold rectFill. destruct (Z.le_gt_cases 0 width).
  - rewrite rectFill_loop_columns by lia. by rewrite Z2Nat.id.
  - rewrite seqZ_nil by lia. by replace (Z.to_nat width) with 0%nat by lia.
Qed.

(** *** Reading a pixel after a plot *)

Lemma byte_index_inj x y x' y' :
  0 <= x < LCDWIDTH -> 0 <= x' < LCDWIDTH -> 0 <= y -> 0 <= y' ->
  x + y / 8 * LCDWIDTH = x' + y' / 8 * LCDWIDTH ->
  x = x' /\ y / 8 = y' / 8.
Proof.
  intros Hx Hx' Hy Hy' Heq.
  assert (y / 8 = y' / 8) by nia. split; [nia | done].
Qed.

Lemma same_pixel x y x' y' :
  0 <= x < LCDWIDTH -> 0 <= x' < LCDWIDTH -> 0 <= y -> 0 <= y' ->
  (x + y / 8 * LCDWIDTH = x' + y' / 8 * LCDWIDTH /\ y mod 8 = y' mod 8)
  <-> (x = x' /\ y = y').
Proof.
  intros Hx Hx' Hy Hy'. split.
  - intros [Hi Hb]. apply byte_index_inj in Hi as [-> Hq]; try done.
    split; [done|]. rewrite (Z.div_mod y 8), (Z.div_mod y' 8) by lia. congruence.
  - by intros [-> ->].
Qed.

Lemma bit_at_pixel_white x y x' y' fb :
  NORM <> XOR -> LCDHEIGHT mod 8 = 0 -> Z.of_nat (length fb) = screen_bytes ->
  0 <= x -> 0 <= y -> 0 <= x' < LCDWIDTH -> 0 <= y' < LCDHEIGHT ->
  bit_at (pixel x y WHITE NORM fb) x' y'
  = ((x =? x') && (y =? y')) || bit_at fb x' y'.
Proof.
  intros Hmode Hpages Hlen Hx Hy Hx' Hy'. unfold pixel.
  destruct (LCDWIDTH <=? x) eqn:Ex.
  { cbn. replace (x =? x') with false by lia. done. }
  destruct (LCDHEIGHT <=? y) eqn:Ey.
  { cbn. replace (y =? y') with false by lia. by rewrite andb_false_r. }
  cbn [orb]. replace (NORM =? XOR) with false by lia. rewrite Z.eqb_refl.
  unfold bit_at, modify.
  pose proof (byte_index_in_range x y Hpages ltac:(lia) ltac:(lia)) as Hi.
  pose proof (byte_index_in_range x' y' Hpages Hx' Hy') as Hi'.
  pose proof (same_pixel x y x' y' ltac:(lia) Hx' Hy ltac:(lia)) as Hsame.
  assert (0 <= y mod 8 < 8) by (apply Z.mod_pos_bound; lia).
  assert (0 <= y' mod 8 < 8) by (apply Z.mod_pos_bound; lia).
  rewrite list_lookup_total_alter. case_decide as Hd.
  - destruct Hd as [Hidx _]. apply Z2Nat.inj in Hidx; [|lia|lia].
    rewrite <- Hidx.
    rewrite testbit_u8, Z.lor_spec, testbit_BV by lia.
    destruct (y mod 8 =? y' mod 8) eqn:Eb.
    + replace (x =? x') with true by lia. replace (y =? y') with true by lia.
      by rewrite orb_true_r.
    + replace ((x =? x') && (y =? y')) with false; [by rewrite orb_false_r|].
      symmetry. apply andb_false_iff.
      destruct (Z.eqb_spec x x'), (Z.eqb_spec y y'); auto. lia.
  - replace ((x =? x') && (y =? y')) with false; [done|].
    symmetry. apply andb_false_iff.
    destruct (Z.eqb_spec x x'), (Z.eqb_spec y y'); auto.
    exfalso. apply Hd. split; [|lia]. f_equal. lia.
Qed.

(** In overwrite mode, a run of WHITE requests sets exactly the requested
    pixels on top of what was there. *)
Lemma bit_at_exec_white rs fb x' y' :
  NORM <> XOR -> LCDHEIGHT mod 8 = 0 -> Z.of_nat (length fb) = screen_bytes ->
  Forall (fun r => 0 <= req_x r /\ 0 <= req_y r
                   /\ req_color r = WHITE /\ req_mode r = NORM) rs ->
  0 <= x' < LCDWIDTH -> 0 <= y' < LCDHEIGHT ->
  bit_at (exec rs fb) x' y'
  = existsb (fun r => (req_x r =? x') && (req_y r =? y')) rs || bit_at fb x' y'.
Proof.
  intros Hmode Hpages Hlen Hrs Hx' Hy'. revert fb Hlen.
  induction Hrs as [|r rs (Hx & Hy & Hc & Hm) _ IH]; intros fb Hlen; [done|].
  change (exec (r :: rs) fb) with (exec rs (serve fb r)). cbn [existsb].
  rewrite IH by (unfold serve; by rewrite pixel_length).
  unfold serve. rewrite Hc, Hm, bit_at_pixel_white by done.
  by destruct (existsb _ rs), (_ && _).
Qed.

End RectFill.

Section RectFillColumns.
Context `{Header}.

(** C8. The page buffer after [rectFill(x, y, width, height, color, mode)]
    is the page buffer after the calls [lineV(i, y, height, color, mode)]
    for [i = x, x+1, ..., x+width-1] in this order ([i] narrowed to eight bits
    where it is passed).  In particular [rectFill(2, 2, 4, 4, ...)] asks for
    the sixteen pixels of the columns 2, 3, 4, 5 at the rows 2 to 5, column
    by column, and drawn in WHITE in overwrite mode it sets exactly these
    pixels on top of the previous content. *)
Theorem rectFill_is_width_vertical_lines :
  (forall x y width height color mode (fb : framebuffer),
     rectFill x y width height color mode fb
     = fold_left (fun fb i => lineV (u8 i) y height color mode fb) (seqZ x width) fb)
  /\ (forall color mode,
        requests (rectFill 2 2 4 4 color mode)
        = flat_map (fun i => (fun j => Request i j color mode) <$> [2; 3; 4; 5])
            [2; 3; 4; 5])
  /\ (forall (fb : framebuffer) x y,
        NORM <> XOR -> LCDHEIGHT mod 8 = 0 -> Z.of_nat (length fb) = screen_bytes ->
        0 <= x < LCDWIDTH -> 0 <= y < LCDHEIGHT ->
        bit_at (rectFill 2 2 4 4 WHITE NORM fb) x y
        = ((2 <=? x) && (x <=? 5) && (2 <=? y) && (y <=? 5)) || bit_at fb x y).
Proof.
  split; [|split].
  - intros. apply rectFill_columns.
  - intros. reflexivity.
  - intros fb x y Hmode Hpages Hlen Hx Hy.
    rewrite (served_all (fun T C => rectFill (canvas:=C) 2 2 4 4 WHITE NORM))
      by (intros; apply rectFill_sim; [apply serves_plot | done]).
    change (requests _)
      with (flat_map (fun i => (fun j => Request i j WHITE NORM) <$> [2; 3; 4; 5])
              [2; 3; 4; 5]).
    rewrite bit_at_exec_white; try done.
    + f_equal. cbn [existsb flat_map fmap list_fmap app req_x req_y].
      destruct (Z.eqb_spec 2 x), (Z.eqb_spec 3 x), (Z.eqb_spec 4 x), (Z.eqb_spec 5 x);
        try lia;
        destruct (Z.eqb_spec 2 y), (Z.eqb_spec 3 y), (Z.eqb_spec 4 y), (Z.eqb_spec 5 y);
        try lia;
        destruct (Z.leb_spec 2 x), (Z.leb_spec x 5), (Z.leb_spec 2 y), (Z.leb_spec y 5);
        cbn; (done || lia).
    + cbn. repeat (constructor; [cbn; repeat split; lia|]). constructor.
Qed.

End RectFillColumns.

Section RectFillSample.
#[local] Existing Instance breakout.

Lemma rectFill_is_width_vertical_lines_witness :
  bit_at (rectFill 2 2 4 4 WHITE NORM blank) 5 5 = true
  /\ bit_at (rectFill 2 2 4 4 WHITE NORM blank) 6 5 = false
  /\ bit_at (rectFill 2 2 4 4 WHITE NORM blank) 2 1 = false.
Proof.
  pose proof (proj2 (proj2 (rectFill_is_width_vertical_lines (H:=breakout)))) as Hset.
  split; [|split].
  - apply (Hset blank 5 5); by_evaluation.
  - apply (Hset blank 6 5); by_evaluation.
  - apply (Hset blank 2 1); by_evaluation.
Defined.

End RectFillSample.

(** ** Counting loops on an eight-bit counter *)

Section Counting.
Context {T : Type}.

(** A loop [for (uint8_t i = start; i < bound; i++)] whose bound is at most
    255 makes [bound - start] passes and ends, given fuel for them and for the
    final test. *)
Lemma for_u8_count (f : Z -> T -> T) (cond : Z -> bool) bound n fuel i s :
  (forall k, 0 <= k < 256 -> cond k = (k <? bound)) ->
  0 <= i -> i + Z.of_nat n = bound -> bound <= 255 -> (n < fuel)%nat ->
  for_u8 fuel cond (fun k s => Some (f k s)) i s
  = Some (fold_left (fun s k => f k s) (seqZ i (Z.of_nat n)) s).
Proof.
  intros Hcond. revert fuel i s.
  induction n as [|n IH]; intros fuel i s Hi Hn Hb Hfuel.
  - destruct fuel as [|fuel]; [lia|]. cbn.
    rewrite Hcond by lia. by replace (i <? bound) with false by lia.
  - destruct fuel as [|fuel]; [lia|]. cbn [for_u8].
    rewrite Hcond by lia. replace (i <? bound) with true by lia.
    rewrite seqZ_cons by lia. cbn [fold_left].
    replace (Z.pred (Z.of_nat (S n))) with (Z.of_nat n) by lia.
    rewrite u8_small by (unfold is_u8; lia).
    apply IH; lia.
Qed.

(** With a bound above every eight-bit value the counter wraps and the loop
    never ends. *)
Lemma for_u8_forever (body : Z -> T -> option T) (cond : Z -> bool) fuel i s :
  (forall k, is_u8 k -> cond k = true) -> is_u8 i ->
  for_u8 fuel cond body i s = None.
Proof.
  intros Hcond. revert i s. induction fuel as [|fuel IH]; intros i s Hi; [done|].
  cbn. rewrite Hcond by done. destruct (body i s); [|done].
  apply IH, u8_range.
Qed.

End Counting.

Lemma record_fold (f : Z -> list request -> list request) (g : Z -> list request) ks rs :
  (forall k rs, f k rs = rs ++ g k) ->
  fold_left (fun rs k => f k rs) ks rs = rs ++ flat_map g ks.
Proof.
  intros Hf. revert rs. induction ks as [|k ks IH]; intros rs; cbn.
  - by rewrite app_nil_r.
  - by rewrite IH, Hf, app_assoc.
Qed.

Lemma flat_map_agree {A B} (f g : A -> list B) l :
  Forall (fun a => f a = g a) l -> flat_map f l = flat_map g l.
Proof. induction 1 as [|a l Ha _ IH]; [done|]. cbn. by rewrite Ha, IH. Qed.

(** ** Glyph decoding *)

Lemma land_1_testbit t : negb (Z.land t 1 =? 0) = Z.testbit t 0.
Proof.
  change 1 with (Z.ones 1) at 1. rewrite Z.land_ones by lia.
  change (2 ^ 1) with 2. rewrite <- Z.bit0_mod.
  by destruct (Z.testbit t 0).
Qed.

Lemma testbit_shifted t k :
  0 <= k < 7 -> Z.testbit (u8 (Z.shiftr t 1)) k = Z.testbit t (Z.succ k).
Proof.
  intros Hk. rewrite testbit_u8, Z.shiftr_spec by lia. f_equal; lia.
Qed.

(** The bit sweep asks, for the rows [j .. j+n-1], the colour that the bits
    of [temp] select, least significant first. *)
Lemma column_loop_decode n j temp x i y row color mode (rs : list request) :
  0 <= j -> j + Z.of_nat n <= 8 ->
  column_loop n j temp x i y row color mode rs
  = rs ++ ((fun k => Request (u8 (x + i)) (u8 (y + (j + k) + row * 8))
                       (if Z.testbit temp k then color else lognot color) mode)
           <$> seqZ 0 (Z.of_nat n)).
Proof.
  revert j temp rs. induction n as [|n IH]; intros j temp rs Hj Hn.
  - cbn. by rewrite app_nil_r.
  - cbn [column_loop]. replace (j <? 8) with true by lia.
    rewrite land_1_testbit, (u8_small (j + 1)) by (unfold is_u8; lia).
    rewrite IH by lia.
    rewrite (seqZ_cons 0 (Z.of_nat (S n))) by lia.
    replace (Z.pred (Z.of_nat (S n))) with (Z.of_nat n) by lia.
    change (Z.succ 0) with (1 + 0). rewrite <- (fmap_add_seqZ 1 0).
    rewrite fmap_cons, <- list_fmap_compose, Z.add_0_r.
    assert (forall c', (if Z.testbit temp 0
                        then plot (u8 (x + i)) (u8 (y + j + row * 8)) color mode rs
                        else plot (u8 (x + i)) (u8 (y + j + row * 8)) c' mode rs)
                       = rs ++ [Request (u8 (x + i)) (u8 (y + j + row * 8))
                                  (if Z.testbit temp 0 then color else c') mode])
      as -> by (intros; by destruct (Z.testbit temp 0)).
    rewrite <- app_assoc. cbn [app]. do 2 f_equal.
    apply list_fmap_ext. intros idx k Hk. apply lookup_seqZ in Hk as [-> Hk].
    cbn. rewrite testbit_shifted by lia.
    replace (Z.succ (0 + Z.of_nat idx)) with (1 + (0 + Z.of_nat idx)) by lia.
    do 2 f_equal. lia.
Qed.

Lemma column_loop_glyph_column temp x i y color mode (rs : list request) :
  column_loop 8 0 temp x i y 0 color mode rs = rs ++ glyph_column x y i temp color mode.
Proof.
  rewrite column_loop_decode by lia. f_equal. unfold glyph_column.
  apply list_fmap_ext. intros idx k _. do 2 f_equal. lia.
Qed.

(** The column decoded from a zero byte is all background. *)
Lemma glyph_column_blank x y i color mode :
  glyph_column x y i 0 color mode
  = (fun j => Request (u8 (x + i)) (u8 (y + j)) (lognot color) mode) <$> seqZ 0 8.
Proof.
  unfold glyph_column. apply list_fmap_ext. intros idx k _. by rewrite Z.bits_0.
Qed.

Section DrawChar.
Context `{Header}.

(** What [drawChar] does to the page buffer follows from what it asks for. *)
Lemma drawChar_served fuel o x y c color mode rs (fb : framebuffer) :
  requests_within (drawChar fuel o x y c color mode) = Some rs ->
  drawChar fuel o x y c color mode fb = Some (exec rs fb).
Proof.
  unfold requests_within. intros Hrs.
  pose proof (drawChar_sim (serves fb) (serves_plot fb) fuel o x y c color mode
                fb [] (serves_nil fb)) as Hsim.
  rewrite Hrs in Hsim. inversion Hsim as [fb' rs' Hserved|]; subst.
  unfold serves in Hserved. by subst.
Qed.

Lemma single_band o :
  0 <= fontHeight o < 16 ->
  ((if u8 (fontHeight o / 8) <=? 1 then 1 else u8 (fontHeight o / 8)) =? 1) = true.
Proof.
  intros Hh.
  assert (0 <= fontHeight o / 8 < 2)
    by (split; [apply Z.div_pos | apply Z.div_lt_upper_bound]; lia).
  rewrite u8_small by (unfold is_u8; lia).
  by replace (fontHeight o / 8 <=? 1) with true by lia.
Qed.

Lemma drawChar_single_band_requests fuel o x y c color mode :
  0 <= fontHeight o < 16 -> 0 <= fontWidth o < 255 ->
  0 <= fontStartChar o ->
  fontStartChar o <= c <= fontStartChar o + fontTotalChar o - 1 -> c < 256 ->
  (Z.to_nat (fontWidth o) + 1 < fuel)%nat ->
  requests_within (drawChar fuel o x y c color mode)
  = Some (glyph_requests o x y c color mode).
Proof.
  intros Hh Hw Hs Hc Hc8 Hfuel. unfold requests_within, drawChar.
  replace (c <? fontStartChar o) with false by lia.
  replace (c >? fontStartChar o + fontTotalChar o - 1) with false by lia.
  cbn [orb]. rewrite single_band by done.
  rewrite u8_small by (unfold is_u8; lia).
  rewrite (for_u8_count
             (fun i s => column_loop 8 0
                (if i =? fontWidth o then 0
                 else font_byte (fontType o)
                        (FONTHEADERSIZE + (c - fontStartChar o) * fontWidth o + i))
                x i y 0 color mode s)
             _ (fontWidth o + 1) (Z.to_nat (fontWidth o + 1))) by (done || lia).
  f_equal.
  rewrite (record_fold _ (fun k => glyph_column x y k
             (if k =? fontWidth o then 0
              else font_byte (fontType o)
                     (FONTHEADERSIZE + (c - fontStartChar o) * fontWidth o + k))
             color mode))
    by (intros; apply column_loop_glyph_column).
  cbn [app]. unfold glyph_requests.
  rewrite Z2Nat.id, seqZ_app, flat_map_app by lia. f_equal.
  - apply flat_map_agree, Forall_seqZ. intros k Hk.
    by replace (k =? fontWidth o) with false by lia.
  - rewrite (seqZ_cons _ 1), seqZ_nil by lia. cbn. rewrite app_nil_r.
    by rewrite Z.eqb_refl.
Qed.


(** X24. For a character of the active font, a font of height at most 8 and
    of width at most 254, [drawChar] returns once it has fuel for its
    [fontWidth+1] columns, and what it asks for is exactly
    [glyph_requests]: each glyph byte decoded least significant bit first
    into the rows [y .. y+7] of one column, the requested colour for a 1 bit
    and its negation for a 0 bit, and after the glyph one more column, at
    index [fontWidth], all in the negated colour.  The page buffer afterwards
    is the one obtained by serving these requests. *)
Theorem drawChar_decodes_single_band_glyph fuel o x y c color mode :
  0 <= fontHeight o <= 8 -> 0 <= fontWidth o < 255 ->
  0 <= fontStartChar o ->
  fontStartChar o <= c <= fontStartChar o + fontTotalChar o - 1 -> c < 256 ->
  (Z.to_nat (fontWidth o) + 1 < fuel)%nat ->
  requests_within (drawChar fuel o x y c color mode)
  = Some (glyph_requests o x y c color mode)
  /\ (forall fb : framebuffer,
        drawChar fuel o x y c color mode fb
        = Some (exec (glyph_requests o x y c color mode) fb))
  /\ glyph_column x y (fontWidth o) 0 color mode
     = (fun j => Request (u8 (x + fontWidth o)) (u8 (y + j)) (lognot color) mode)
       <$> seqZ 0 8.
Proof.
  intros Hh Hw Hs Hc Hc8 Hfuel.
  assert (requests_within (drawChar fuel o x y c color mode)
          = Some (glyph_requests o x y c color mode)) as Hrs
    by (apply drawChar_single_band_requests; (done || lia)).
  split; [done|]. split; [|apply glyph_column_blank].
  intros fb. by apply drawChar_served.
Qed.

End DrawChar.

Section DrawCharSample.
#[local] Existing Instance breakout.

Lemma drawChar_decodes_single_band_glyph_witness :
  requests_within (drawChar 7 (setFontType 0 constructed).2 10 20 49 WHITE NORM)
  = Some (glyph_requests (setFontType 0 constructed).2 10 20 49 WHITE NORM).
Proof.
  apply (drawChar_decodes_single_band_glyph (H:=breakout) 7
           (setFontType 0 constructed).2 10 20 49 WHITE NORM); by_evaluation.
Defined.

End DrawCharSample.


(** ** The fuel of the terminating loops is enough

    [line], [rectFill] and [circle] are total: their loops receive the
    number of passes after which the loop test fails, and passes beyond
    those would change nothing. *)

Section Fuel.
Context {T : Type} `{Canvas T}.

Lemma i8_range z : -128 <= i8 z < 128.
Proof. unfold i8. pose proof (Z.mod_pos_bound (z + 128) 256). lia. Qed.

Lemma line_loop_done fuel steep x0 y0 x1 dx dy err ystep color mode (s : T) :
  x1 <= x0 -> line_loop fuel steep x0 y0 x1 dx dy err ystep color mode s = s.
Proof. intros. destruct fuel; [done|]. cbn. by replace (x0 <? x1) with false by lia. Qed.

Lemma line_loop_fuel n extra steep x0 y0 x1 dx dy err ystep color mode (s : T) :
  0 <= x0 -> x0 + Z.of_nat n = x1 -> x1 < 256 ->
  line_loop (n + extra) steep x0 y0 x1 dx dy err ystep color mode s
  = line_loop n steep x0 y0 x1 dx dy err ystep color mode s.
Proof.
  intros Hx Hn Hx1. revert x0 y0 err s Hx Hn.
  induction n as [|n IH]; intros x0 y0 err s Hx Hn.
  - apply line_loop_done. lia.
  - cbn [Nat.add line_loop]. destruct (x0 <? x1); [|done].
    rewrite (u8_small (x0 + 1)) by (unfold is_u8; lia).
    destruct (i8 (err - dy) <? 0); apply IH; lia.
Qed.

Lemma circle_loop_fuel fuel extra x0 y0 f ddF_x ddF_y x y color mode (s : T) :
  0 <= x <= 127 -> y <= 127 -> (Z.to_nat (128 - x) <= fuel)%nat ->
  circle_loop (fuel + extra) x0 y0 (f, ddF_x, ddF_y, x, y) color mode s
  = circle_loop fuel x0 y0 (f, ddF_x, ddF_y, x, y) color mode s.
Proof.
  revert f ddF_x ddF_y x y s.
  induction fuel as [|fuel IH]; intros f ddF_x ddF_y x y s Hx Hy Hfuel; [lia|].
  cbn [Nat.add circle_loop]. destruct (x <? y) eqn:Elt; [|done].
  unfold midpoint_step.
  rewrite (i8_small (x + 1)) by lia.
  destruct (f >=? 0).
  - pose proof (i8_range (y - 1)). rewrite (i8_small (y - 1)) in * by lia.
    destruct (Z.eq_dec (x + 1) 128) as [E|E]; [lia|].
    apply IH; lia.
  - apply IH; lia.
Qed.

End Fuel.

(** ** Lines *)

(** Whatever the accumulator does, the loop visits the running coordinates
    [x .. x1-1] once each, in order, and stops before [x1]. *)
Lemma line_loop_running steep n x y x1 dx dy err ystep color mode (rs : list request) :
  0 <= x -> x + Z.of_nat n = x1 -> x1 < 256 ->
  running steep <$> line_loop n steep x y x1 dx dy err ystep color mode rs
  = (running steep <$> rs) ++ seqZ x (Z.of_nat n).
Proof.
  intros Hx Hn Hx1. revert x y err rs Hx Hn.
  induction n as [|n IH]; intros x y err rs Hx Hn.
  - cbn. by rewrite app_nil_r.
  - cbn [line_loop]. replace (x <? x1) with true by lia.
    rewrite (u8_small (x + 1)) by (unfold is_u8; lia).
    rewrite seqZ_cons by lia.
    replace (Z.pred (Z.of_nat (S n))) with (Z.of_nat n) by lia.
    assert (forall a b, running steep <$> (if steep then plot a x color mode rs
                                           else plot x b color mode rs)
                        = (running steep <$> rs) ++ [x]) as Hplot.
    { intros. unfold running, plot, recorder. destruct steep; by rewrite fmap_app. }
    destruct (i8 (err - dy) <? 0); rewrite IH by lia;
      rewrite Hplot, <- app_assoc; done.
Qed.

Section LineWalk.
Variables (steep : bool) (x0 y0 x1 y1 color mode : Z).
Hypothesis x0_u8 : is_u8 x0.
Hypothesis y0_u8 : is_u8 y0.
Hypothesis x1_u8 : is_u8 x1.
Hypothesis y1_u8 : is_u8 y1.
Hypothesis ordered : x0 <= x1.

Let dx := x1 - x0.
Let dy := Z.abs (y1 - y0).
Let ystep := if y0 <? y1 then 1 else -1.

Hypothesis shallow : dy <= dx.
Hypothesis short : dx <= 128.

(** While the span is at most 128, neither the accumulator nor the
    coordinates ever leave their eight bits, and the loop is the reference
    walk.  [k] counts the passes made and [s] the steps of the other
    coordinate. *)
Lemma line_loop_walk n k s x y err (rs : list request) :
  x = x0 + k -> y = y0 + s * ystep ->
  err = dx / 2 - k * dy + s * dx -> 0 <= err < dx ->
  0 <= k -> Z.of_nat n = dx - k ->
  line_loop n steep x y x1 dx dy err ystep color mode rs
  = rs ++ bresenham_walk n steep x y err dx dy ystep color mode.
Proof.
  unfold is_u8 in *.
  assert (0 <= dx / 2 <= dx) as Hhalf.
  { subst dx. split; [apply Z.div_pos; lia | apply Z.div_le_upper_bound; lia]. }
  assert (0 <= dy) as Hdy by (subst dy; lia).
  assert ((ystep = 1 /\ y1 = y0 + dy) \/ (ystep = -1 /\ y1 = y0 - dy)) as Hdir.
  { subst ystep dy. destruct (y0 <? y1) eqn:E; [left | right]; lia. }
  revert k s x y err rs.
  induction n as [|n IH]; intros k s x y err rs Hx Hy Herr Hrange Hk Hn.
  - cbn. by rewrite app_nil_r.
  - cbn [line_loop bresenham_walk].
    replace (x <? x1) with true by (subst dx; lia).
    rewrite (u8_small (x + 1)) by (unfold is_u8; subst dx; lia).
    rewrite (i8_small (err - dy)) by lia.
    assert (forall a b, (if steep then plot a x color mode rs
                         else plot x b color mode rs)
                        = rs ++ [if steep then Request a x color mode
                                 else Request x b color mode]) as Hplot
      by (intros; by destruct steep).
    rewrite Hplot.
    destruct (err - dy <? 0) eqn:Eneg.
    + assert (0 <= s + 1 <= dy) as Hs by nia.
      rewrite (i8_small (err - dy + dx)) by lia.
      rewrite (u8_small (y + ystep)) by (unfold is_u8; nia).
      rewrite (IH (k + 1) (s + 1)) by (try lia; nia).
      by rewrite <- app_assoc.
    + rewrite (IH (k + 1) s) by (try lia; nia).
      by rewrite <- app_assoc.
Qed.

End LineWalk.

Section Line.

(** X1. For endpoints at most 128 apart along either axis (every pair of points
    of a 64x48 panel is), [line] asks for exactly the pixels of the reference
    Bresenham walk. *)
Lemma line_is_bresenham x0 y0 x1 y1 color mode :
  is_u8 x0 -> is_u8 y0 -> is_u8 x1 -> is_u8 y1 ->
  Z.abs (x1 - x0) <= 128 -> Z.abs (y1 - y0) <= 128 ->
  requests (line x0 y0 x1 y1 color mode) = bresenham x0 y0 x1 y1 color mode.
Proof.
  unfold is_u8. intros Hx0 Hy0 Hx1 Hy1 Hdx Hdy. unfold requests, line, bresenham.
  destruct (Z.abs (y1 - y0) >? Z.abs (x1 - x0)) eqn:Esteep; cbn [swap fst snd];
    match goal with |- context [if ?a >? ?b then _ else _] =>
      destruct (a >? b) eqn:Eswap end;
    cbn [swap fst snd];
    match goal with |- line_loop _ _ ?a ?b ?c _ _ _ _ _ _ _ = _ =>
      rewrite (u8_small (c - a)) by (unfold is_u8; lia);
      rewrite (u8_small (Z.abs _)) by (unfold is_u8; lia);
      rewrite (i8_small ((c - a) / 2))
        by (split; [transitivity 0; [lia | apply Z.div_pos; lia]
                   | apply Z.div_lt_upper_bound; lia]);
      destruct (Z.eq_dec a c) as [->|Hne];
        [ by rewrite Z.sub_diag
        | rewrite (line_loop_walk _ a b c _ color mode) with (k := 0) (s := 0);
            [ done | unfold is_u8; try lia .. ] ]
    end.
  all: split; [apply Z.div_pos; lia | apply Z.div_lt_upper_bound; lia].
Qed.

(** X2. For all endpoints, [line] visits the running coordinates from the lower
    end up to, and not including, the upper end: as many requests as the
    longer of the two spans, none at the upper end itself. *)
Lemma line_running x0 y0 x1 y1 color mode :
  is_u8 x0 -> is_u8 y0 -> is_u8 x1 -> is_u8 y1 ->
  let steep := Z.abs (y1 - y0) >? Z.abs (x1 - x0) in
  let lo := if steep then Z.min y0 y1 else Z.min x0 x1 in
  let hi := if steep then Z.max y0 y1 else Z.max x0 x1 in
  running steep <$> requests (line x0 y0 x1 y1 color mode) = seqZ lo (hi - lo).
Proof.
  unfold is_u8. intros Hx0 Hy0 Hx1 Hy1. cbn zeta. unfold requests, line.
  destruct (Z.abs (y1 - y0) >? Z.abs (x1 - x0)) eqn:Esteep; cbn [swap fst snd];
    match goal with |- context [if ?a >? ?b then _ else _] =>
      destruct (a >? b) eqn:Eswap end;
    cbn [swap fst snd];
    rewrite line_loop_running by (unfold is_u8; lia);
    cbn [fmap list_fmap app]; rewrite Z2Nat.id by lia; f_equal; lia.
Qed.



End Line.

Section LineSample.
#[local] Existing Instance breakout.

(** C4, where the code leaves it.  The accumulator of [line] is an
    [int8_t], and for spans above 128 it wraps: from (0,0) to (255,200) the
    fifth request of the code is (4,2) where integer Bresenham (accumulator
    127, -73 -> 182, -18 -> 237, 37, -163 -> 92) has stepped to (4,3); on the
    blank 64x48 buffer the code leaves pixel (4,3) clear and sets (4,2),
    while the reference walk sets (4,3) and leaves (4,2) clear. *)
Theorem line_accumulator_wraps_on_long_span :
  requests (line 0 0 255 200 WHITE NORM) !! 4%nat = Some (Request 4 2 WHITE NORM)
  /\ bresenham 0 0 255 200 WHITE NORM !! 4%nat = Some (Request 4 3 WHITE NORM)
  /\ bit_at (line 0 0 255 200 WHITE NORM blank) 4 3 = false
  /\ bit_at (line 0 0 255 200 WHITE NORM blank) 4 2 = true
  /\ bit_at (exec (bresenham 0 0 255 200 WHITE NORM) blank) 4 3 = true
  /\ bit_at (exec (bresenham 0 0 255 200 WHITE NORM) blank) 4 2 = false.
Proof. repeat split; vm_compute; reflexivity. Qed.

(** On the panel itself the two agree: an instance of [line_is_bresenham]. *)
Lemma line_is_bresenham_on_panel :
  requests (line 63 47 0 0 WHITE NORM) = bresenham 63 47 0 0 WHITE NORM.
Proof. apply line_is_bresenham; by_evaluation. Defined.

End LineSample.

(** ** Rectangles *)

Section Rect.
Context `{Header}.


End Rect.

Section RectSample.
#[local] Existing Instance breakout.

(** C5, where the code leaves it.  [tempHeight = height - 2] is a
    [uint8_t]: for height 1 it is 255, the test [tempHeight<1] does not fire,
    and the two [lineV] calls run.  [rect(0, 0, 3, 1)] asks for the row
    (0,0),(1,0),(2,0) twice and then for (0,0) and (2,0) again; in XOR mode
    on the blank buffer the two horizontal edges alone cancel, as the
    outline of the specification does, but the code leaves (0,0) and (2,0)
    set. *)
Theorem rect_height_1_draws_vertical_edges :
  requests (rect 0 0 3 1 WHITE XOR)
  = [Request 0 0 WHITE XOR; Request 1 0 WHITE XOR; Request 2 0 WHITE XOR;
     Request 0 0 WHITE XOR; Request 1 0 WHITE XOR; Request 2 0 WHITE XOR;
     Request 0 0 WHITE XOR; Request 2 0 WHITE XOR]
  /\ rect_outline 0 0 3 1 WHITE XOR blank = blank
  /\ bit_at (rect 0 0 3 1 WHITE XOR blank) 0 0 = true
  /\ bit_at (rect 0 0 3 1 WHITE XOR blank) 1 0 = false
  /\ bit_at (rect 0 0 3 1 WHITE XOR blank) 2 0 = true.
Proof. repeat split; vm_compute; reflexivity. Qed.


End RectSample.

(** * Further properties of the code *)

(** ** The page buffer as a bitmap *)

Section BitmapView.
Context `{Header}.

Lemma testbit_mask_ops b k k' :
  0 <= k < 8 -> 0 <= k' < 8 ->
  Z.testbit (u8 (Z.lxor b (_BV k))) k' = xorb (Z.testbit b k') (k =? k')
  /\ Z.testbit (u8 (Z.lor b (_BV k))) k' = Z.testbit b k' || (k =? k')
  /\ Z.testbit (u8 (Z.land b (Z.lnot (_BV k)))) k' = Z.testbit b k' && negb (k =? k').
Proof.
  intros Hk Hk'. rewrite !testbit_u8 by done.
  rewrite Z.lxor_spec, Z.lor_spec, Z.land_spec, Z.lnot_spec by lia.
  by rewrite !testbit_BV by lia.
Qed.

Lemma bit_at_pixel x y color mode fb x' y' :
  LCDHEIGHT mod 8 = 0 -> Z.of_nat (length fb) = screen_bytes ->
  0 <= x -> 0 <= y -> 0 <= x' < LCDWIDTH -> 0 <= y' < LCDHEIGHT ->
  bit_at (pixel x y color mode fb) x' y'
  = effect (Request x y color mode) x' y' (bit_at fb x' y').
Proof.
  intros Hpages Hlen Hx Hy Hx' Hy'. unfold effect, hits, pixel. cbn [req_x req_y req_color req_mode].
  destruct (LCDWIDTH <=? x) eqn:Ex.
  { cbn. by replace (x =? x') with false by lia. }
  destruct (LCDHEIGHT <=? y) eqn:Ey.
  { cbn. replace (y =? y') with false by lia. by rewrite andb_false_r. }
  cbn [orb].
  pose proof (byte_index_in_range x y Hpages ltac:(lia) ltac:(lia)) as Hi.
  pose proof (byte_index_in_range x' y' Hpages Hx' Hy') as Hi'.
  pose proof (same_pixel (H:=H) x y x' y' ltac:(lia) Hx' Hy ltac:(lia)) as Hsame.
  assert (0 <= y mod 8 < 8) as Hk by (apply Z.mod_pos_bound; lia).
  assert (0 <= y' mod 8 < 8) as Hk' by (apply Z.mod_pos_bound; lia).
  assert (forall f, bit_at (modify f (x + y / 8 * LCDWIDTH) fb) x' y'
            = if decide (x + y / 8 * LCDWIDTH = x' + y' / 8 * LCDWIDTH)
              then Z.testbit (f (fb !!! Z.to_nat (x' + y' / 8 * LCDWIDTH))) (y' mod 8)
              else bit_at fb x' y') as Hmod.
  { intros f. unfold bit_at, modify. rewrite list_lookup_total_alter.
    repeat case_decide; try done.
    - destruct_and!. by replace (x + y / 8 * LCDWIDTH) with (x' + y' / 8 * LCDWIDTH) by lia.
    - destruct_and!. lia.
    - exfalso. match goal with Hn : ~ _ |- _ => apply Hn end. split; [f_equal; lia | lia]. }
  assert (((x =? x') && (y =? y')) = true
          <-> (x + y / 8 * LCDWIDTH = x' + y' / 8 * LCDWIDTH /\ y mod 8 = y' mod 8))
    as Hhit.
  { rewrite Hsame, andb_true_iff, !Z.eqb_eq. done. }
  pose proof (testbit_mask_ops (fb !!! Z.to_nat (x' + y' / 8 * LCDWIDTH))
                (y mod 8) (y' mod 8) Hk Hk') as (Hxor & Hor & Hand).
  fold (bit_at fb x' y') in Hxor, Hor, Hand.
  destruct ((x =? x') && (y =? y')) eqn:E;
    destruct (mode =? XOR), (color =? WHITE); rewrite ?Hmod; cbn beta;
    try case_decide; rewrite ?Hxor, ?Hor, ?Hand;
    destruct (y mod 8 =? y' mod 8) eqn:Eb;
    destruct (bit_at fb x' y'); try done;
    first [ destruct (proj1 Hhit eq_refl); lia
          | assert (false = true) by (apply Hhit; lia); done ].
Qed.

(** A run of requests acts on each pixel of the panel by the effects of the
    requests, one after the other. *)
Lemma exec_reads_back rs fb x y :
  LCDHEIGHT mod 8 = 0 -> Z.of_nat (length fb) = screen_bytes ->
  Forall (fun r => 0 <= req_x r /\ 0 <= req_y r) rs ->
  0 <= x < LCDWIDTH -> 0 <= y < LCDHEIGHT ->
  bit_at (exec rs fb) x y = fold_left (fun b r => effect r x y b) rs (bit_at fb x y).
Proof.
  intros Hpages Hlen Hrs Hx Hy. revert fb Hlen.
  induction Hrs as [|r rs [Hrx Hry] _ IH]; intros fb Hlen; [done|].
  change (exec (r :: rs) fb) with (exec rs (serve fb r)). cbn [fold_left].
  rewrite IH by (unfold serve; by rewrite pixel_length).
  unfold serve. rewrite bit_at_pixel by done. by destruct r.
Qed.

End BitmapView.

(** ** Primitives pass their mode on unchanged

    Every primitive hands the mode it was given to each call of [pixel]: a
    relation that [plot] preserves at that one mode is preserved by the
    primitive called with it. *)

Section SimulationAt.
Context `{Header}.
Context {A B : Type} `{Canvas A} `{Canvas B} (R : A -> B -> Prop) (mode : Z).
Hypothesis plot_sim_at :
  forall x y color a b, R a b -> R (plot x y color mode a) (plot x y color mode b).

Lemma line_loop_sim_at fuel steep x0 y0 x1 dx dy err ystep color a b :
  R a b ->
  R (line_loop fuel steep x0 y0 x1 dx dy err ystep color mode a)
    (line_loop fuel steep x0 y0 x1 dx dy err ystep color mode b).
Proof.
  revert x0 y0 err a b.
  induction fuel as [|fuel IH]; intros x0 y0 err a b Hab; cbn; [done|].
  destruct (x0 <? x1); [|done].
  destruct (i8 (err - dy) <? 0); apply IH; destruct steep; by apply plot_sim_at.
Qed.

Lemma line_sim_at x0 y0 x1 y1 color a b :
  R a b -> R (line x0 y0 x1 y1 color mode a) (line x0 y0 x1 y1 color mode b).
Proof.
  intros Hab. unfold line.
  destruct (Z.abs (y1 - y0) >? Z.abs (x1 - x0)); cbn;
    match goal with |- context [if ?a >? ?b then _ else _] => destruct (a >? b) end;
    by apply line_loop_sim_at.
Qed.

Lemma rect_sim_at x y width height color a b :
  R a b -> R (rect x y width height color mode a) (rect x y width height color mode b).
Proof.
  intros Hab. unfold rect, lineH, lineV.
  destruct (u8 (height - 2) <? 1); auto using line_sim_at.
Qed.

Lemma rectFill_loop_sim_at fuel i x y width height color a b :
  R a b ->
  R (rectFill_loop fuel i x y width height color mode a)
    (rectFill_loop fuel i x y width height color mode b).
Proof.
  revert i a b.
  induction fuel as [|fuel IH]; intros i a b Hab; cbn; [done|].
  destruct (i <? x + width); [|done]. apply IH. by apply line_sim_at.
Qed.

Lemma rectFill_sim_at x y width height color a b :
  R a b ->
  R (rectFill x y width height color mode a) (rectFill x y width height color mode b).
Proof. apply rectFill_loop_sim_at. Qed.

Lemma circle_loop_sim_at fuel x0 y0 v color a b :
  R a b -> R (circle_loop fuel x0 y0 v color mode a) (circle_loop fuel x0 y0 v color mode b).
Proof.
  revert v a b. induction fuel as [|fuel IH]; intros v a b Hab; cbn; [done|].
  destruct v as [[[[f ddx] ddy] x] y].
  destruct (x <? y); [|done].
  destruct (midpoint_step (f, ddx, ddy, x, y)) as [[[[f' ddx'] ddy'] x'] y'].
  apply IH. auto 10.
Qed.

Lemma circle_sim_at x0 y0 radius color a b :
  R a b -> R (circle x0 y0 radius color mode a) (circle x0 y0 radius color mode b).
Proof. intros Hab. unfold circle. apply circle_loop_sim_at. auto 10. Qed.

Lemma column_loop_sim_at fuel j temp x i y row color a b :
  R a b ->
  R (column_loop fuel j temp x i y row color mode a)
    (column_loop fuel j temp x i y row color mode b).
Proof.
  revert j temp a b. induction fuel as [|fuel IH]; intros j temp a b Hab; cbn; [done|].
  destruct (j <? 8); [|done].
  apply IH. destruct (negb (Z.land temp 1 =? 0)); auto.
Qed.

Lemma drawChar_sim_at fuel o x y c color a b :
  R a b ->
  option_Forall2 R (drawChar fuel o x y c color mode a) (drawChar fuel o x y c color mode b).
Proof.
  intros Hab. unfold drawChar.
  destruct (_ || _); [by constructor|].
  destruct (_ =? 1).
  - apply (for_u8_sim R); [|done]. intros. constructor. by apply column_loop_sim_at.
  - apply (for_u8_sim R); [|done]. intros. apply (for_u8_sim R); [|done].
    intros. constructor. by apply column_loop_sim_at.
Qed.

End SimulationAt.

(** ** Drawing twice in XOR mode *)

Section XorRedraw.
Context `{Header}.

Lemma pixel_bytes x y color mode fb :
  Forall is_u8 fb -> Forall is_u8 (pixel x y color mode fb).
Proof.
  intros Hfb. unfold pixel, modify.
  repeat match goal with |- context [if ?b then _ else _] => destruct b end;
    try done; apply Forall_alter; try done; intros; apply u8_range.
Qed.

Lemma exec_bytes rs fb : Forall is_u8 fb -> Forall is_u8 (exec rs fb).
Proof.
  revert fb. induction rs as [|r rs IH]; intros fb Hfb; [done|].
  apply IH. by apply pixel_bytes.
Qed.

(** In XOR mode a request either leaves the buffer alone or toggles one bit
    of one byte. *)
Lemma serve_xor_form r :
  req_mode r = XOR ->
  (forall fb, serve fb r = fb)
  \/ (exists i k, 0 <= k < 8
        /\ forall fb, serve fb r = alter (fun b => u8 (Z.lxor b (_BV k))) i fb).
Proof.
  intros Hm. unfold serve, pixel. rewrite Hm, Z.eqb_refl.
  destruct (_ || _) eqn:Eout; [by left|].
  destruct (req_color r =? WHITE); [|by left].
  right. exists (Z.to_nat (req_x r + req_y r / 8 * LCDWIDTH)), (req_y r mod 8).
  split; [apply Z.mod_pos_bound; lia | done].
Qed.

Lemma xor_masks_commute b k1 k2 :
  0 <= k1 < 8 -> 0 <= k2 < 8 ->
  u8 (Z.lxor (u8 (Z.lxor b (_BV k1))) (_BV k2))
  = u8 (Z.lxor (u8 (Z.lxor b (_BV k2))) (_BV k1)).
Proof.
  intros H1 H2. apply u8_eq_bits; try apply u8_range. intros k Hk.
  rewrite !testbit_u8, !Z.lxor_spec, !testbit_u8, !Z.lxor_spec by done.
  by destruct (Z.testbit b k), (Z.testbit (_BV k1) k), (Z.testbit (_BV k2) k).
Qed.

Lemma serve_xor_comm r1 r2 fb :
  req_mode r1 = XOR -> req_mode r2 = XOR ->
  serve (serve fb r1) r2 = serve (serve fb r2) r1.
Proof.
  intros H1 H2.
  destruct (serve_xor_form r1 H1) as [E1|(i1 & k1 & Hk1 & E1)];
    destruct (serve_xor_form r2 H2) as [E2|(i2 & k2 & Hk2 & E2)];
    rewrite ?E1, ?E2; try done.
  destruct (decide (i2 = i1)) as [->|Hne].
  - rewrite !list_alter_alter_eq. apply list_alter_ext; [|done].
    intros b _. cbn. by apply xor_masks_commute.
  - by apply list_alter_alter_ne.
Qed.

Lemma serve_xor_twice r fb :
  req_mode r = XOR -> Forall is_u8 fb -> serve (serve fb r) r = fb.
Proof.
  intros Hm Hfb. destruct (serve_xor_form r Hm) as [E|(i & k & Hk & E)].
  - by rewrite !E.
  - rewrite !E, list_alter_alter_eq.
    rewrite <- (list_alter_id id fb i) at 2 by done.
    apply list_alter_ext; [|done]. intros b Hb. cbn.
    apply xor_twice_byte; [|done]. rewrite Forall_lookup in Hfb. by eapply Hfb.
Qed.

Lemma exec_xor_comm rs r fb :
  Forall (fun q => req_mode q = XOR) rs -> req_mode r = XOR ->
  exec rs (serve fb r) = serve (exec rs fb) r.
Proof.
  intros Hrs Hr. revert fb. induction Hrs as [|q rs Hq _ IH]; intros fb; [done|].
  change (exec (q :: rs) ?f) with (exec rs (serve f q)).
  by rewrite <- IH, serve_xor_comm.
Qed.

(** Serving a run of XOR requests twice gives back the buffer, however
    often a place occurs in the run. *)
Lemma exec_xor_twice rs fb :
  Forall (fun q => req_mode q = XOR) rs -> Forall is_u8 fb ->
  exec rs (exec rs fb) = fb.
Proof.
  intros Hrs. revert fb. induction Hrs as [|q rs Hq Hrs IH]; intros fb Hfb; [done|].
  change (exec (q :: rs) ?f) with (exec rs (serve f q)).
  change (exec (q :: rs) fb) with (exec rs (serve fb q)).
  rewrite (exec_xor_comm rs q fb) by done.
  rewrite serve_xor_twice by (done || by apply exec_bytes). by apply IH.
Qed.

Lemma served_at_plot mode fb0 x y color fb rs :
  served_at mode fb0 fb rs ->
  served_at mode fb0 (plot x y color mode fb) (plot x y color mode rs).
Proof.
  intros [-> Hrs]. split.
  - unfold plot at 2, recorder. by rewrite exec_app.
  - unfold plot, recorder. apply Forall_app. split; [done|]. by constructor.
Qed.

Lemma redraw_total (p : forall T, Canvas T -> T -> T) fb :
  (forall fb0 a b, served_at XOR fb0 a b ->
                   served_at XOR fb0 (p _ screen a) (p _ recorder b)) ->
  Forall is_u8 fb -> p _ screen (p _ screen fb) = fb.
Proof.
  intros Hsim Hfb.
  assert (forall fb0, served_at XOR fb0 (p _ screen fb0) (p _ recorder [])) as Hp
    by (intros; by apply Hsim).
  destruct (Hp fb) as [E1 Hrs]. destruct (Hp (p _ screen fb)) as [E2 _].
  rewrite E2, E1. by apply exec_xor_twice.
Qed.

End XorRedraw.

Section XorRedrawShapes.
Context `{Header}.

(** X4. Drawing a shape a second time in XOR mode, with the same arguments,
    brings back the page buffer as it was before the first: this holds for
    [line], [rect], [rectFill] and [circle], whatever the colour and even
    where the shape asks for a pixel more than once. *)
Theorem xor_redraw_restores_shape (fb : framebuffer) :
  Forall is_u8 fb ->
  (forall x0 y0 x1 y1 color,
     line x0 y0 x1 y1 color XOR (line x0 y0 x1 y1 color XOR fb) = fb)
  /\ (forall x y width height color,
        rect x y width height color XOR (rect x y width height color XOR fb) = fb)
  /\ (forall x y width height color,
        rectFill x y width height color XOR (rectFill x y width height color XOR fb) = fb)
  /\ (forall x0 y0 radius color,
        circle x0 y0 radius color XOR (circle x0 y0 radius color XOR fb) = fb).
Proof.
  intros Hfb. repeat split; intros.
  - apply (redraw_total (fun T C => line (canvas:=C) x0 y0 x1 y1 color XOR)); [|done].
    intros. apply line_sim_at; [intros; by apply served_at_plot | done].
  - apply (redraw_total (fun T C => rect (canvas:=C) x y width height color XOR)); [|done].
    intros. apply rect_sim_at; [intros; by apply served_at_plot | done].
  - apply (redraw_total (fun T C => rectFill (canvas:=C) x y width height color XOR));
      [|done].
    intros. apply rectFill_sim_at; [intros; by apply served_at_plot | done].
  - apply (redraw_total (fun T C => circle (canvas:=C) x0 y0 radius color XOR)); [|done].
    intros. apply circle_sim_at; [intros; by apply served_at_plot | done].
Qed.

(** X5. The same for a character: if [drawChar] in XOR mode returns, then
    drawing the same character again at the same place returns the page
    buffer as it was. *)
Theorem xor_redraw_restores_glyph fuel o x y c color (fb fb1 : framebuffer) :
  Forall is_u8 fb ->
  drawChar fuel o x y c color XOR fb = Some fb1 ->
  drawChar fuel o x y c color XOR fb1 = Some fb.
Proof.
  intros Hfb Hfirst.
  assert (forall fb0 : framebuffer,
            option_Forall2 (served_at XOR fb0)
              (drawChar fuel o x y c color XOR fb0)
              (drawChar fuel o x y c color XOR [])) as Hsim.
  { intros fb0. apply drawChar_sim_at; [intros; by apply served_at_plot|].
    split; [done | constructor]. }
  pose proof (Hsim fb) as Hfb_sim. rewrite Hfirst in Hfb_sim.
  inversion Hfb_sim as [? rs [E1 Hrs] E2 Hrec|]; subst.
  pose proof (Hsim (exec rs fb)) as Hsecond. rewrite <- Hrec in Hsecond.
  inversion Hsecond as [fb2 ? [E3 _] E4|]; subst.
  by rewrite exec_xor_twice.
Qed.

End XorRedrawShapes.

Lemma blank_bytes : Forall is_u8 blank.
Proof. apply Forall_replicate. unfold is_u8. lia. Qed.

Section XorRedrawSample.
#[local] Existing Instance breakout.

Lemma xor_redraw_restores_shape_witness :
  rect 5 5 10 1 WHITE XOR (rect 5 5 10 1 WHITE XOR blank) = blank
  /\ circle 20 20 7 WHITE XOR (circle 20 20 7 WHITE XOR blank) = blank.
Proof.
  destruct (xor_redraw_restores_shape (H:=breakout) blank) as (_ & Hrect & _ & Hcircle).
  - apply blank_bytes.
  - split; [apply Hrect | apply Hcircle].
Defined.

Lemma xor_redraw_restores_glyph_witness :
  drawChar 7 (setFontType 0 constructed).2 3 4 48 WHITE XOR
    (exec (glyph_requests (setFontType 0 constructed).2 3 4 48 WHITE XOR) blank)
  = Some blank.
Proof.
  apply (xor_redraw_restores_glyph (H:=breakout) 7 _ 3 4 48 WHITE blank);
    [apply blank_bytes | by_evaluation].
Defined.

End XorRedrawSample.

(** ** Lines, whichever way they are given *)

Section LineFacts.
Context {T : Type} `{Canvas T}.

(** X6. [line] draws the same pixels in the same order for a segment and for
    the segment with its endpoints exchanged: the endpoint it leaves out is
    the one with the larger running coordinate, not the second argument. *)
Theorem line_endpoints_exchanged x0 y0 x1 y1 color mode (s : T) :
  line x0 y0 x1 y1 color mode s = line x1 y1 x0 y0 color mode s.
Proof.
  unfold line.
  replace (Z.abs (y0 - y1)) with (Z.abs (y1 - y0)) by lia.
  replace (Z.abs (x0 - x1)) with (Z.abs (x1 - x0)) by lia.
  destruct (Z.abs (y1 - y0) >? Z.abs (x1 - x0)) eqn:Esteep; cbn [swap fst snd].
  - destruct (y0 >? y1) eqn:E1, (y1 >? y0) eqn:E2; cbn [swap fst snd];
      try done; lia.
  - destruct (x0 >? x1) eqn:E1, (x1 >? x0) eqn:E2; cbn [swap fst snd];
      try done; try lia.
    assert (x0 = x1) as -> by lia. assert (y0 = y1) as -> by lia. done.
Qed.

End LineFacts.

(** On the recorder a primitive appends to what is already recorded. *)
Lemma line_records_after x0 y0 x1 y1 color mode (rs : list request) :
  line x0 y0 x1 y1 color mode rs = rs ++ requests (line x0 y0 x1 y1 color mode).
Proof.
  unfold requests.
  apply (line_sim (fun a b => a = rs ++ b)); [|by rewrite app_nil_r].
  intros x y c m a b ->. unfold plot, recorder. by rewrite app_assoc.
Qed.

(** A line along one axis: the accumulator never goes negative, whatever the
    length. *)
Lemma line_loop_flat n steep x y x1 dx err ystep color mode (rs : list request) :
  0 <= err < 128 -> 0 <= x -> x + Z.of_nat n = x1 -> x1 < 256 ->
  line_loop n steep x y x1 dx 0 err ystep color mode rs
  = rs ++ ((fun i => if steep then Request y i color mode else Request i y color mode)
           <$> seqZ x (Z.of_nat n)).
Proof.
  intros Herr. revert x rs. induction n as [|n IH]; intros x rs Hx Hn Hx1.
  - cbn. by rewrite app_nil_r.
  - cbn [line_loop]. replace (x <? x1) with true by lia.
    rewrite Z.sub_0_r, (i8_small err) by lia.
    replace (err <? 0) with false by lia.
    rewrite (u8_small (x + 1)) by (unfold is_u8; lia).
    rewrite IH by lia. rewrite (seqZ_cons x (Z.of_nat (S n))) by lia.
    replace (Z.pred (Z.of_nat (S n))) with (Z.of_nat n) by lia.
    rewrite fmap_cons. change (Z.succ x) with (x + 1).
    unfold plot, recorder. destruct steep; by rewrite <- app_assoc.
Qed.

Lemma lineH_requests x y width color mode :
  is_u8 x -> is_u8 y -> is_u8 width ->
  requests (lineH x y width color mode)
  = (fun i => Request i y color mode)
    <$> (if x + width <? 256 then seqZ x width
         else seqZ (x + width - 256) (256 - width)).
Proof.
  unfold is_u8. intros Hx Hy Hw. unfold requests, lineH, line.
  rewrite Z.sub_diag. change (Z.abs 0) with 0.
  assert ((0 >? Z.abs (u8 (x + width) - x)) = false) as -> by lia.
  cbn [swap fst snd]. change (u8 0) with 0.
  destruct (x + width <? 256) eqn:Ewrap.
  - rewrite (u8_small (x + width)) by (unfold is_u8; lia).
    replace (x >? x + width) with false by lia. cbn [swap fst snd].
    replace (x + width - x) with width by lia.
    rewrite ?Z.sub_diag. change (u8 (Z.abs 0)) with 0.
    rewrite line_loop_flat, Z2Nat.id; try lia; [done|].
    rewrite (u8_small width) by done.
    rewrite i8_small; (split; [transitivity 0; [lia | apply Z.div_pos; lia]
                              | apply Z.div_lt_upper_bound; lia]).
  - assert (u8 (x + width) = x + width - 256) as ->.
    { unfold u8. symmetry. apply (Z.mod_unique_pos _ _ 1); lia. }
    replace (x >? x + width - 256) with true by lia. cbn [swap fst snd].
    replace (x - (x + width - 256)) with (256 - width) by lia.
    rewrite ?Z.sub_diag. change (u8 (Z.abs 0)) with 0.
    rewrite line_loop_flat, Z2Nat.id; try lia; [done|].
    rewrite (u8_small (256 - width)) by (unfold is_u8; lia).
    rewrite i8_small; (split; [transitivity 0; [lia | apply Z.div_pos; lia]
                              | apply Z.div_lt_upper_bound; lia]).
Qed.

Lemma lineV_requests x y height color mode :
  is_u8 x -> is_u8 y -> is_u8 height ->
  requests (lineV x y height color mode)
  = (fun j => Request x j color mode)
    <$> (if y + height <? 256 then seqZ y height
         else seqZ (y + height - 256) (256 - height)).
Proof.
  unfold is_u8. intros Hx Hy Hh. unfold requests, lineV, line.
  rewrite Z.sub_diag. change (Z.abs 0) with 0.
  destruct (Z.eq_dec height 0) as [->|Hne].
  { rewrite Z.add_0_r, (u8_small y), Z.sub_diag by done. change (Z.abs 0) with 0.
    change (0 >? 0) with false. cbn [swap fst snd].
    replace (x >? x) with false by lia. cbn [swap fst snd].
    rewrite !Z.sub_diag. by replace (y <? 256) with true by lia. }
  destruct (y + height <? 256) eqn:Ewrap.
  - rewrite (u8_small (y + height)) by (unfold is_u8; lia).
    replace (Z.abs (y + height - y) >? 0) with true by lia. cbn [swap fst snd].
    replace (y >? y + height) with false by lia. cbn [swap fst snd].
    rewrite Z.sub_diag. change (u8 (Z.abs 0)) with 0.
    replace (y + height - y) with height by lia.
    rewrite ?Z.sub_diag. change (u8 (Z.abs 0)) with 0.
    rewrite line_loop_flat, Z2Nat.id; try lia; [done|].
    rewrite (u8_small height) by done.
    rewrite i8_small; (split; [transitivity 0; [lia | apply Z.div_pos; lia]
                              | apply Z.div_lt_upper_bound; lia]).
  - assert (u8 (y + height) = y + height - 256) as ->.
    { unfold u8. symmetry. apply (Z.mod_unique_pos _ _ 1); lia. }
    replace (Z.abs (y + height - 256 - y) >? 0) with true by lia. cbn [swap fst snd].
    replace (y >? y + height - 256) with true by lia. cbn [swap fst snd].
    rewrite Z.sub_diag. change (u8 (Z.abs 0)) with 0.
    replace (y - (y + height - 256)) with (256 - height) by lia.
    rewrite ?Z.sub_diag. change (u8 (Z.abs 0)) with 0.
    rewrite line_loop_flat, Z2Nat.id; try lia; [done|].
    rewrite (u8_small (256 - height)) by (unfold is_u8; lia).
    rewrite i8_small; (split; [transitivity 0; [lia | apply Z.div_pos; lia]
                              | apply Z.div_lt_upper_bound; lia]).
Qed.

(** X7. [lineH(x, y, width)] asks for the [width] pixels [x .. x+width-1] of row
    [y], left to right, while [x+width] fits eight bits.  When it does not,
    the end point wraps to [x+width-256] and the line is the [256-width]
    pixels from there up to [x-1].  [lineV(x, y, height)] does the same
    along column [x], top to bottom. *)
Theorem lineH_lineV_spans x y length color mode :
  is_u8 x -> is_u8 y -> is_u8 length ->
  requests (lineH x y length color mode)
  = (fun i => Request i y color mode)
    <$> (if x + length <? 256 then seqZ x length
         else seqZ (x + length - 256) (256 - length))
  /\ requests (lineV x y length color mode)
     = (fun j => Request x j color mode)
       <$> (if y + length <? 256 then seqZ y length
            else seqZ (y + length - 256) (256 - length)).
Proof. intros. split; [by apply lineH_requests | by apply lineV_requests]. Qed.

Lemma lineH_lineV_spans_witness :
  requests (lineH 0 0 10 1 0) = (fun i => Request i 0 1 0) <$> seqZ 0 10
  /\ requests (lineV 250 250 10 1 0) = (fun j => Request 250 j 1 0) <$> seqZ 4 246.
Proof.
  split.
  - apply (proj1 (lineH_lineV_spans 0 0 10 1 0 ltac:(by_evaluation)
                    ltac:(by_evaluation) ltac:(by_evaluation))).
  - apply (proj2 (lineH_lineV_spans 250 250 10 1 0 ltac:(by_evaluation)
                    ltac:(by_evaluation) ltac:(by_evaluation))).
Defined.

(** ** Each pixel once *)

Section PaintOnce.
Context `{Header}.

Lemma hits_true r x y : hits r x y = true <-> (req_x r, req_y r) = (x, y).
Proof.
  unfold hits. rewrite andb_true_iff, !Z.eqb_eq. split; [by intros [-> ->]|].
  by intros [= -> ->].
Qed.

Lemma existsb_hits rs x y :
  existsb (fun r => hits r x y) rs = true
  <-> (x, y) ∈ (fun r => (req_x r, req_y r)) <$> rs.
Proof.
  rewrite existsb_exists, list_elem_of_fmap. split.
  - intros (r & Hr & Hhit). exists r. apply hits_true in Hhit.
    split; [done | by apply list_elem_of_In].
  - intros (r & Hcoord & Hr). exists r.
    split; [by apply list_elem_of_In | by apply hits_true].
Qed.

Lemma fold_effect_miss rs x y b :
  existsb (fun r => hits r x y) rs = false ->
  fold_left (fun b r => effect r x y b) rs b = b.
Proof.
  revert b. induction rs as [|r rs IH]; intros b Hmiss; [done|].
  cbn in *. apply orb_false_iff in Hmiss as [Hr Hrs].
  unfold effect at 2. rewrite Hr. by apply IH.
Qed.

Lemma fold_effect_once rs x y b color mode :
  Forall (fun r => req_color r = color /\ req_mode r = mode) rs ->
  NoDup ((fun r => (req_x r, req_y r)) <$> rs) ->
  fold_left (fun b r => effect r x y b) rs b
  = if existsb (fun r => hits r x y) rs
    then effect (Request x y color mode) x y b else b.
Proof.
  intros Hrs. revert b. induction Hrs as [|r rs [Hc Hm] _ IH]; intros b Hnd; [done|].
  rewrite fmap_cons in Hnd. apply NoDup_cons in Hnd as [Hfresh Hnd].
  cbn [fold_left existsb]. destruct (hits r x y) eqn:Ehit; cbn [orb].
  - apply hits_true in Ehit as Ecoord.
    assert (existsb (fun r => hits r x y) rs = false) as Hmiss.
    { apply not_true_is_false. intros Hex. apply existsb_hits in Hex.
      by rewrite <- Ecoord in Hex. }
    rewrite fold_effect_miss by done.
    unfold effect, hits. cbn [req_x req_y req_color req_mode].
    injection Ecoord as Ex Ey. by rewrite Ex, Ey, Hc, Hm.
  - rewrite IH by done.
    assert (effect r x y b = b) as -> by (unfold effect; by rewrite Ehit). done.
Qed.

(** A run of requests of one colour and mode that names no place twice
    changes exactly the named pixels of the panel, each as one call of
    [pixel] would. *)
Lemma exec_paints_once rs fb x y color mode :
  LCDHEIGHT mod 8 = 0 -> Z.of_nat (length fb) = screen_bytes ->
  Forall (fun r => 0 <= req_x r /\ 0 <= req_y r) rs ->
  Forall (fun r => req_color r = color /\ req_mode r = mode) rs ->
  NoDup ((fun r => (req_x r, req_y r)) <$> rs) ->
  0 <= x < LCDWIDTH -> 0 <= y < LCDHEIGHT ->
  bit_at (exec rs fb) x y
  = if existsb (fun r => hits r x y) rs
    then effect (Request x y color mode) x y (bit_at fb x y) else bit_at fb x y.
Proof.
  intros. rewrite exec_reads_back by done. by apply fold_effect_once.
Qed.

End PaintOnce.

Lemma NoDup_flat_map {A B} (f : A -> list B) l :
  NoDup l -> (forall a, a ∈ l -> NoDup (f a)) ->
  (forall a a' b, a ∈ l -> a' ∈ l -> b ∈ f a -> b ∈ f a' -> a = a') ->
  NoDup (flat_map f l).
Proof.
  induction 1 as [|a l Ha Hl IH]; intros Hf Hdisj; cbn; [constructor|].
  apply NoDup_app. split; [|split].
  - apply Hf. by left.
  - intros b Hb Hb'. apply list_elem_of_In, in_flat_map in Hb' as (a' & Ha' & Hb').
    apply list_elem_of_In in Ha', Hb'.
    assert (a = a') as -> by (eapply Hdisj; [by left | by right | done | done]).
    done.
  - apply IH.
    + intros. apply Hf. by right.
    + intros a1 a2 b ????. eapply Hdisj; try done; by right.
Qed.

(** ** Filled rectangles, pixel by pixel *)

Lemma fmap_flat_map {A B C} (g : B -> C) (f : A -> list B) l :
  g <$> flat_map f l = flat_map (fun a => g <$> f a) l.
Proof. induction l as [|a l IH]; [done|]. cbn. by rewrite fmap_app, IH. Qed.

Lemma grid_coords xs ys color mode :
  (fun r => (req_x r, req_y r))
  <$> flat_map (fun i => (fun j => Request i j color mode) <$> ys) xs
  = flat_map (fun i => (fun j => (i, j)) <$> ys) xs.
Proof.
  rewrite fmap_flat_map. apply flat_map_ext. intros i.
  by rewrite <- list_fmap_compose.
Qed.

Lemma elem_of_grid (xs ys : list Z) x y :
  (x, y) ∈ flat_map (fun i => (fun j => (i, j)) <$> ys) xs <-> x ∈ xs /\ y ∈ ys.
Proof.
  rewrite list_elem_of_In, in_flat_map. setoid_rewrite <- list_elem_of_In.
  setoid_rewrite list_elem_of_fmap. split.
  - intros (i & Hi & j & [= -> ->] & Hj). done.
  - intros [Hx Hy]. exists x. split; [done|]. by exists y.
Qed.

Lemma NoDup_grid (xs ys : list Z) :
  NoDup xs -> NoDup ys -> NoDup (flat_map (fun i => (fun j => (i, j)) <$> ys) xs).
Proof.
  intros Hxs Hys. apply NoDup_flat_map; [done| |].
  - intros i _. apply NoDup_fmap_2; [|done]. by intros j j' [= ->].
  - intros i i' [a b] _ _ Hb Hb'.
    apply list_elem_of_fmap in Hb as (j & [= -> ->] & _).
    by apply list_elem_of_fmap in Hb' as (j' & [= -> ->] & _).
Qed.

Lemma rectFill_requests x y width height color mode :
  is_u8 x -> is_u8 y -> is_u8 height ->
  x + width <= 256 -> y + height < 256 ->
  requests (rectFill x y width height color mode)
  = flat_map (fun i => (fun j => Request i j color mode) <$> seqZ y height)
      (seqZ x width).
Proof.
  unfold is_u8. intros Hx Hy Hh Hw Hfit. unfold requests.
  rewrite rectFill_columns.
  rewrite (record_fold _ (fun k => requests (lineV (u8 k) y height color mode)))
    by (intros; apply line_records_after).
  cbn [app]. apply flat_map_agree, Forall_seqZ. intros k Hk.
  rewrite lineV_requests by (try apply u8_range; done).
  rewrite (u8_small k) by (unfold is_u8; lia).
  by replace (y + height <? 256) with true by lia.
Qed.

Section RectFillPixels.
Context `{Header}.

(** X8. [rectFill(x, y, width, height, color, mode)] on a rectangle that does not
    wrap changes exactly the pixels of the rectangle [x .. x+width-1] by
    [y .. y+height-1] that lie on the panel, each of them once, as one call
    of [pixel] with this colour and mode would: set or cleared in overwrite
    mode, toggled once by WHITE in XOR mode. *)
Theorem rectFill_paints_rectangle_once x y width height color mode fb x' y' :
  LCDHEIGHT mod 8 = 0 -> Z.of_nat (length fb) = screen_bytes ->
  is_u8 x -> is_u8 y -> is_u8 height -> x + width <= 256 -> y + height < 256 ->
  0 <= x' < LCDWIDTH -> 0 <= y' < LCDHEIGHT ->
  bit_at (rectFill x y width height color mode fb) x' y'
  = if (x <=? x') && (x' <? x + width) && (y <=? y') && (y' <? y + height)
    then effect (Request x' y' color mode) x' y' (bit_at fb x' y')
    else bit_at fb x' y'.
Proof.
  intros Hpages Hlen Hx Hy Hh Hw Hfit Hx' Hy'.
  rewrite (served_all (fun T C => rectFill (canvas:=C) x y width height color mode))
    by (intros; apply rectFill_sim; [apply serves_plot | done]).
  rewrite rectFill_requests by done. unfold is_u8 in *.
  rewrite (exec_paints_once _ _ _ _ color mode); try done.
  - match goal with |- (if ?a then _ else _) = (if ?b then _ else _) =>
      assert (a = b) as ->; [|done] end.
    apply eq_true_iff_eq. rewrite existsb_hits, grid_coords, elem_of_grid,
      !elem_of_seqZ, !andb_true_iff. lia.
  - apply Forall_flat_map, Forall_seqZ. intros i Hi.
    apply Forall_fmap, Forall_seqZ. intros j Hj. cbn. lia.
  - apply Forall_flat_map, Forall_seqZ. intros i Hi.
    apply Forall_fmap, Forall_seqZ. intros j Hj. done.
  - rewrite grid_coords. apply NoDup_grid; apply NoDup_seqZ.
Qed.

End RectFillPixels.

Section RectFillPixelsSample.
#[local] Existing Instance breakout.

Lemma rectFill_paints_rectangle_once_witness :
  bit_at (rectFill 60 40 10 20 WHITE XOR blank) 61 41 = true.
Proof.
  rewrite (rectFill_paints_rectangle_once (H:=breakout) 60 40 10 20 WHITE XOR
             blank 61 41); by_evaluation.
Defined.

End RectFillPixelsSample.

(** ** Rectangle outlines, pixel by pixel *)

Lemma lineH_records_after x y width color mode (rs : list request) :
  lineH x y width color mode rs = rs ++ requests (lineH x y width color mode).
Proof. apply line_records_after. Qed.

Lemma lineV_records_after x y height color mode (rs : list request) :
  lineV x y height color mode rs = rs ++ requests (lineV x y height color mode).
Proof. apply line_records_after. Qed.

Lemma elem_of_row (xs : list Z) (y a b : Z) :
  (a, b) ∈ (fun i => (i, y)) <$> xs <-> a ∈ xs /\ b = y.
Proof.
  rewrite list_elem_of_fmap. split.
  - by intros (i & [= -> ->] & Hi).
  - intros [Ha ->]. by exists a.
Qed.

Lemma elem_of_column (x : Z) (ys : list Z) (a b : Z) :
  (a, b) ∈ (fun j => (x, j)) <$> ys <-> a = x /\ b ∈ ys.
Proof.
  rewrite list_elem_of_fmap. split.
  - by intros (j & [= -> ->] & Hj).
  - intros [-> Hb]. by exists b.
Qed.

Lemma NoDup_row (xs : list Z) (y : Z) : NoDup xs -> NoDup ((fun i => (i, y)) <$> xs).
Proof. intros. apply NoDup_fmap_2; [|done]. by intros i i' [= ->]. Qed.

Lemma NoDup_column (x : Z) (ys : list Z) : NoDup ys -> NoDup ((fun j => (x, j)) <$> ys).
Proof. intros. apply NoDup_fmap_2; [|done]. by intros j j' [= ->]. Qed.

Lemma row_coords (xs : list Z) y color mode :
  (fun r => (req_x r, req_y r)) <$> ((fun i => Request i y color mode) <$> xs)
  = (fun i => (i, y)) <$> xs.
Proof. by rewrite <- list_fmap_compose. Qed.

Lemma column_coords x (ys : list Z) color mode :
  (fun r => (req_x r, req_y r)) <$> ((fun j => Request x j color mode) <$> ys)
  = (fun j => (x, j)) <$> ys.
Proof. by rewrite <- list_fmap_compose. Qed.

(** The four edges of a proper rectangle, in the order [rect] draws them. *)
Lemma rect_requests x y width height color mode :
  is_u8 x -> is_u8 y -> 1 <= width -> 2 <= height ->
  x + width < 256 -> y + height <= 256 ->
  requests (rect x y width height color mode)
  = ((fun i => Request i y color mode) <$> seqZ x width)
    ++ ((fun i => Request i (y + height - 1) color mode) <$> seqZ x width)
    ++ ((fun j => Request x j color mode) <$> seqZ (y + 1) (height - 2))
    ++ ((fun j => Request (x + width - 1) j color mode) <$> seqZ (y + 1) (height - 2)).
Proof.
  unfold is_u8. intros Hx Hy Hw Hh Hfx Hfy. unfold requests, rect.
  rewrite (u8_small (height - 2)), (u8_small (y + height - 1)), (u8_small (y + 1)),
    (u8_small (x + width - 1)) by (unfold is_u8; lia).
  rewrite (lineH_records_after x (y + height - 1)), !lineV_records_after.
  change (lineH x y width color mode []) with (requests (lineH x y width color mode)).
  rewrite !lineH_requests, !lineV_requests by (unfold is_u8; lia).
  replace (x + width <? 256) with true by lia.
  replace (y + 1 + (height - 2) <? 256) with true by lia.
  destruct (height - 2 <? 1) eqn:E.
  - replace (height - 2) with 0 by lia. rewrite (seqZ_nil (y + 1) 0) by lia.
    rewrite !fmap_nil. by rewrite !app_nil_r.
  - by rewrite <- !app_assoc.
Qed.

Section RectPixels.
Context `{Header}.

(** X9. [rect(x, y, width, height, color, mode)] for a rectangle at least two
    pixels wide and two high that does not wrap changes exactly the pixels of
    its outline that lie on the panel, and each of them once: no corner is
    asked for twice, so in XOR mode the whole outline is toggled. *)
Theorem rect_paints_outline_once x y width height color mode fb x' y' :
  LCDHEIGHT mod 8 = 0 -> Z.of_nat (length fb) = screen_bytes ->
  is_u8 x -> is_u8 y -> 2 <= width -> 2 <= height ->
  x + width < 256 -> y + height <= 256 ->
  0 <= x' < LCDWIDTH -> 0 <= y' < LCDHEIGHT ->
  bit_at (rect x y width height color mode fb) x' y'
  = if ((x <=? x') && (x' <? x + width) && ((y' =? y) || (y' =? y + height - 1)))
       || (((x' =? x) || (x' =? x + width - 1))
           && (y <? y') && (y' <? y + height - 1))
    then effect (Request x' y' color mode) x' y' (bit_at fb x' y')
    else bit_at fb x' y'.
Proof.
  intros Hpages Hlen Hx Hy Hw Hh Hfx Hfy Hx' Hy'.
  rewrite (served_all (fun T C => rect (canvas:=C) x y width height color mode))
    by (intros; apply rect_sim; [apply serves_plot | done]).
  rewrite rect_requests by (done || lia). unfold is_u8 in *.
  rewrite (exec_paints_once _ _ _ _ color mode); try done.
  - match goal with |- (if ?a then _ else _) = (if ?b then _ else _) =>
      assert (a = b) as ->; [|done] end.
    apply eq_true_iff_eq.
    rewrite existsb_hits, !fmap_app, !row_coords, !column_coords.
    rewrite !elem_of_app, !elem_of_row, !elem_of_column, !elem_of_seqZ.
    rewrite !orb_true_iff, !andb_true_iff, !orb_true_iff. lia.
  - rewrite !Forall_app, !Forall_fmap, !Forall_seqZ. cbn. repeat split; intros; lia.
  - rewrite !Forall_app, !Forall_fmap, !Forall_seqZ. cbn. repeat split; intros; done.
  - rewrite !fmap_app, !row_coords, !column_coords.
    repeat (apply NoDup_app; split; [|split]);
      try (apply NoDup_row, NoDup_seqZ); try (apply NoDup_column, NoDup_seqZ).
    all: intros [a b]; rewrite ?elem_of_app, ?elem_of_row, ?elem_of_column, ?elem_of_seqZ;
      lia.
Qed.

End RectPixels.

Section RectPixelsSample.
#[local] Existing Instance breakout.

Lemma rect_paints_outline_once_witness :
  bit_at (rect 10 10 5 4 WHITE XOR blank) 10 10 = true
  /\ bit_at (rect 10 10 5 4 WHITE XOR blank) 11 11 = false.
Proof.
  split.
  - rewrite (rect_paints_outline_once (H:=breakout) 10 10 5 4 WHITE XOR blank 10 10);
      by_evaluation.
  - rewrite (rect_paints_outline_once (H:=breakout) 10 10 5 4 WHITE XOR blank 11 11);
      by_evaluation.
Defined.

End RectPixelsSample.

(** ** When the loops of [circleFill] end *)

Section CircleFillReturns.
Context `{Header}.
Context {T : Type} `{Canvas T}.

(** A loop [for (uint8_t i = start; i <= last; i++)] ends when [last] is
    at most 254: at the latest the counter reaches 255. *)
Lemma for_u8_upto_returns (f : Z -> T -> T) last fuel i (s : T) :
  is_u8 i -> last <= 254 -> (256 <= fuel)%nat ->
  is_Some (for_u8 fuel (fun k => k <=? last) (fun k s => Some (f k s)) i s).
Proof.
  unfold is_u8. intros Hi Hlast Hfuel.
  destruct (Z.le_gt_cases i last).
  - by rewrite (for_u8_count f _ (last + 1) (Z.to_nat (last + 1 - i)))
      by (intros; lia).
  - destruct fuel as [|fuel]; [lia|]. cbn.
    by replace (i <=? last) with false by lia.
Qed.

Lemma circleFill_loop_returns passes fuel x0 y0 f ddF_x ddF_y x y top color mode (s : T) :
  0 <= x <= 127 -> y <= top -> top <= 127 -> y0 + top <= 254 ->
  (Z.to_nat (128 - x) <= passes)%nat -> (256 <= fuel)%nat ->
  is_Some (circleFill_loop passes fuel x0 y0 (f, ddF_x, ddF_y, x, y) color mode s).
Proof.
  intros Hx Hy Htop Hfit Hpasses Hfuel.
  revert f ddF_x ddF_y x y s Hx Hy Hpasses.
  induction passes as [|passes IH]; intros f ddF_x ddF_y x y s Hx Hy Hpasses; [lia|].
  cbn [circleFill_loop]. destruct (x <? y) eqn:Elt; [|done].
  unfold midpoint_step. rewrite (i8_small (x + 1)) by lia.
  assert (forall f' ddy' y',
            y' <= y -> x + 1 <= y' + 1 ->
            is_Some
              (let '(_, _, _, x1, y1) :=
                 (i8 (f' + i8 (ddF_x + 2)), i8 (ddF_x + 2), ddy', x + 1, y') in
               match for_u8 fuel (fun i => i <=? y0 + y1)
                       (fun i s => Some (plot (u8 (x0 - x1)) i color mode
                                           (plot (u8 (x0 + x1)) i color mode s)))
                       (u8 (y0 - y1)) s with
               | Some s1 =>
                   match for_u8 fuel (fun i => i <=? y0 + x1)
                           (fun i s => Some (plot (u8 (x0 - y1)) i color mode
                                               (plot (u8 (x0 + y1)) i color mode s)))
                           (u8 (y0 - x1)) s1 with
                   | Some s2 =>
                       circleFill_loop passes fuel x0 y0
                         (i8 (f' + i8 (ddF_x + 2)), i8 (ddF_x + 2), ddy', x + 1, y')
                         color mode s2
                   | None => None
                   end
               | None => None
               end)) as Hpass.
  { intros f' ddy' y' Hy' Hxy'. cbn zeta.
    destruct (for_u8_upto_returns
                (fun i s => plot (u8 (x0 - (x + 1))) i color mode
                              (plot (u8 (x0 + (x + 1))) i color mode s))
                (y0 + y') fuel (u8 (y0 - y')) s) as [s1 ->];
      [apply u8_range | lia | done |].
    destruct (for_u8_upto_returns
                (fun i s => plot (u8 (x0 - y')) i color mode
                              (plot (u8 (x0 + y')) i color mode s))
                (y0 + (x + 1)) fuel (u8 (y0 - (x + 1))) s1) as [s2 ->];
      [apply u8_range | lia | done |].
    destruct (Z.eq_dec (x + 1) 128) as [E|E]; [lia|].
    apply IH; lia. }
  destruct (f >=? 0).
  - rewrite (i8_small (y - 1)) by lia. apply Hpass; lia.
  - apply Hpass; lia.
Qed.

(** X10. Outside XOR mode [circleFill] returns exactly when [y0 + radius] is at
    most 254.  Its spans count a [uint8_t] row up to the [int] bound
    [y0 + radius]: from 255 on, the bound is never passed and the first
    span loops for ever. *)
Theorem circleFill_returns_iff_rows_fit fuel x0 y0 radius color mode (s : T) :
  mode <> XOR -> is_u8 y0 -> is_u8 radius ->
  (y0 + radius <= 254 -> (256 <= fuel)%nat ->
   is_Some (circleFill fuel x0 y0 radius color mode s))
  /\ (255 <= y0 + radius -> circleFill fuel x0 y0 radius color mode s = None).
Proof.
  unfold is_u8. intros Hmode Hy0 Hr. unfold circleFill.
  replace (mode =? XOR) with false by lia. split.
  - intros Hfit Hfuel.
    destruct (for_u8_upto_returns (fun i s => plot x0 i color mode s)
                (y0 + radius) fuel (u8 (y0 - radius)) s) as [s1 ->];
      [apply u8_range | lia | done |].
    pose proof (i8_range radius) as Hi8.
    assert (i8 radius <= radius) as Hle.
    { unfold i8. destruct (Z.lt_ge_cases radius 128).
      - rewrite Z.mod_small; lia.
      - pose proof (Z.mod_pos_bound (radius + 128) 256). 
        assert ((radius + 128) mod 256 = radius - 128) as ->; [|lia].
        symmetry. apply (Z.mod_unique_pos _ _ 1); lia. }
    destruct (Z.le_gt_cases 0 (i8 radius)).
    + apply (circleFill_loop_returns _ _ _ _ _ _ _ _ _ (i8 radius)); lia.
    + destruct fuel as [|fuel]; [lia|]. cbn.
      by replace (0 <? i8 radius) with false by lia.
  - intros Hwrap. rewrite for_u8_forever; [done| |apply u8_range].
    intros k Hk. unfold is_u8 in Hk. lia.
Qed.

End CircleFillReturns.

Section CircleFillReturnsSample.
#[local] Existing Instance breakout.

Lemma circleFill_returns_iff_rows_fit_witness :
  is_Some (circleFill 256 32 24 10 WHITE NORM blank)
  /\ circleFill 1000 32 200 55 WHITE NORM blank = None.
Proof.
  split.
  - destruct (circleFill_returns_iff_rows_fit (H:=breakout) 256 32 24 10 WHITE NORM blank)
      as [Hreturns _]; [by_evaluation .. |].
    apply Hreturns; by_evaluation.
  - destruct (circleFill_returns_iff_rows_fit (H:=breakout) 1000 32 200 55 WHITE NORM blank)
      as [_ Hloops]; [by_evaluation .. |].
    apply Hloops; by_evaluation.
Defined.

End CircleFillReturnsSample.

(** ** Loops and recordings *)

Lemma Forall_plot (P : request -> Prop) x y color mode (rs : list request) :
  Forall P rs -> P (Request x y color mode) -> Forall P (plot x y color mode rs).
Proof.
  intros Hrs Hq. unfold plot, recorder. apply Forall_app. split; [done|].
  by constructor.
Qed.

Section Loops.
Context {T : Type}.

Lemma for_u8_keeps (P : T -> Prop) fuel cond (body : Z -> T -> option T) i s s' :
  is_u8 i ->
  (forall k s s1, is_u8 k -> cond k = true -> P s -> body k s = Some s1 -> P s1) ->
  P s -> for_u8 fuel cond body i s = Some s' -> P s'.
Proof.
  intros Hi Hbody. revert i s Hi.
  induction fuel as [|fuel IH]; intros i s Hi Hs Hrun; [done|].
  cbn in Hrun. destruct (cond i) eqn:Econd; [|by injection Hrun as <-].
  destruct (body i s) as [s1|] eqn:Ebody; [|done].
  apply (IH (u8 (i + 1)) s1); [apply u8_range | by eapply Hbody | done].
Qed.

Lemma for_u8_skipped fuel cond (body : Z -> T -> option T) i s s' :
  cond i = false -> for_u8 fuel cond body i s = Some s' -> s' = s.
Proof.
  intros Econd Hrun. destruct fuel as [|fuel]; [done|].
  cbn in Hrun. rewrite Econd in Hrun. by injection Hrun as <-.
Qed.

Lemma for_u8_keeps_some (P : T -> Prop) fuel cond (f : Z -> T -> T) i s s' :
  is_u8 i ->
  (forall k s, is_u8 k -> P s -> P (f k s)) ->
  P s -> for_u8 fuel cond (fun k s => Some (f k s)) i s = Some s' -> P s'.
Proof.
  intros Hi Hf. apply for_u8_keeps; [done|].
  intros k s0 s1 Hk _ Hs0 Heq. injection Heq as <-. by apply Hf.
Qed.

End Loops.

(** ** Every coordinate handed to [pixel] is an eight-bit value *)

Ltac byte_plot :=
  repeat (apply Forall_plot; [|split; cbn; first [done | apply u8_range]]); try done.

Lemma line_loop_bytes fuel steep x0 y0 x1 dx dy err ystep color mode (rs : list request) :
  is_u8 x0 -> is_u8 y0 -> Forall byte_coordinates rs ->
  Forall byte_coordinates (line_loop fuel steep x0 y0 x1 dx dy err ystep color mode rs).
Proof.
  revert x0 y0 err rs.
  induction fuel as [|fuel IH]; intros x0 y0 err rs Hx Hy Hrs; cbn; [done|].
  destruct (x0 <? x1); [|done].
  destruct (i8 (err - dy) <? 0); apply IH; try apply u8_range; try done;
    destruct steep; byte_plot.
Qed.

Lemma line_bytes x0 y0 x1 y1 color mode (rs : list request) :
  is_u8 x0 -> is_u8 y0 -> is_u8 x1 -> is_u8 y1 -> Forall byte_coordinates rs ->
  Forall byte_coordinates (line x0 y0 x1 y1 color mode rs).
Proof.
  intros. unfold line.
  destruct (Z.abs (y1 - y0) >? Z.abs (x1 - x0)); cbn [swap fst snd];
    match goal with |- context [if ?a >? ?b then _ else _] => destruct (a >? b) end;
    cbn [swap fst snd]; by apply line_loop_bytes.
Qed.

Lemma lineH_bytes x y width color mode (rs : list request) :
  is_u8 x -> is_u8 y -> Forall byte_coordinates rs ->
  Forall byte_coordinates (lineH x y width color mode rs).
Proof. intros. apply line_bytes; try done; apply u8_range. Qed.

Lemma lineV_bytes x y height color mode (rs : list request) :
  is_u8 x -> is_u8 y -> Forall byte_coordinates rs ->
  Forall byte_coordinates (lineV x y height color mode rs).
Proof. intros. apply line_bytes; try done; apply u8_range. Qed.

Lemma rect_bytes x y width height color mode (rs : list request) :
  is_u8 x -> is_u8 y -> Forall byte_coordinates rs ->
  Forall byte_coordinates (rect x y width height color mode rs).
Proof.
  intros. unfold rect.
  destruct (u8 (height - 2) <? 1);
    repeat first [ apply lineH_bytes | apply lineV_bytes | apply u8_range | done ].
Qed.

Lemma rectFill_bytes x y width height color mode (rs : list request) :
  is_u8 y -> Forall byte_coordinates rs ->
  Forall byte_coordinates (rectFill x y width height color mode rs).
Proof.
  intros Hy. unfold rectFill. generalize (Z.to_nat width) at 1. generalize x at 1.
  intros i fuel. revert i rs.
  induction fuel as [|fuel IH]; intros i rs Hrs; cbn; [done|].
  destruct (i <? x + width); [|done].
  apply IH, lineV_bytes; try done; apply u8_range.
Qed.

Lemma circle_loop_bytes fuel x0 y0 v color mode (rs : list request) :
  Forall byte_coordinates rs ->
  Forall byte_coordinates (circle_loop fuel x0 y0 v color mode rs).
Proof.
  revert v rs. induction fuel as [|fuel IH]; intros v rs Hrs; cbn; [done|].
  destruct v as [[[[f ddx] ddy] x] y].
  destruct (x <? y); [|done].
  destruct (midpoint_step (f, ddx, ddy, x, y)) as [[[[f' ddx'] ddy'] x'] y'].
  apply IH. byte_plot.
Qed.

Lemma circle_bytes x0 y0 radius color mode (rs : list request) :
  is_u8 x0 -> is_u8 y0 -> Forall byte_coordinates rs ->
  Forall byte_coordinates (circle x0 y0 radius color mode rs).
Proof. intros. unfold circle. apply circle_loop_bytes. byte_plot. Qed.

Lemma circleFill_loop_bytes passes fuel x0 y0 v color mode (rs rs' : list request) :
  Forall byte_coordinates rs ->
  circleFill_loop passes fuel x0 y0 v color mode rs = Some rs' ->
  Forall byte_coordinates rs'.
Proof.
  revert v rs. induction passes as [|passes IH]; intros v rs Hrs Hrun; [done|].
  cbn [circleFill_loop] in Hrun. destruct v as [[[[f ddx] ddy] x] y].
  destruct (x <? y); [|by injection Hrun as <-].
  destruct (midpoint_step (f, ddx, ddy, x, y)) as [[[[f' ddx'] ddy'] x'] y'].
  destruct (for_u8 fuel _ _ (u8 (y0 - y')) rs) as [rs1|] eqn:Hspan1; [|done].
  destruct (for_u8 fuel _ _ (u8 (y0 - x')) rs1) as [rs2|] eqn:Hspan2; [|done].
  eapply (IH _ rs2); [|exact Hrun].
  refine (for_u8_keeps_some _ _ _ _ _ _ _ (u8_range _) _ _ Hspan2).
  { intros k s Hk Hs. byte_plot. }
  refine (for_u8_keeps_some _ _ _ _ _ _ _ (u8_range _) _ Hrs Hspan1).
  intros k s Hk Hs. byte_plot.
Qed.

Lemma column_loop_bytes fuel j temp x i y row color mode (rs : list request) :
  Forall byte_coordinates rs ->
  Forall byte_coordinates (column_loop fuel j temp x i y row color mode rs).
Proof.
  revert j temp rs. induction fuel as [|fuel IH]; intros j temp rs Hrs; cbn; [done|].
  destruct (j <? 8); [|done].
  apply IH. destruct (negb (Z.land temp 1 =? 0)); byte_plot.
Qed.

Section Bytes.
Context `{Header}.

Lemma circleFill_bytes fuel x0 y0 radius color mode (rs rs' : list request) :
  is_u8 x0 -> Forall byte_coordinates rs ->
  circleFill fuel x0 y0 radius color mode rs = Some rs' ->
  Forall byte_coordinates rs'.
Proof.
  intros Hx0 Hrs Hrun. unfold circleFill in Hrun.
  destruct (mode =? XOR); [by injection Hrun as <-|].
  destruct (for_u8 fuel _ _ (u8 (y0 - radius)) rs) as [rs0|] eqn:Hspan; [|done].
  eapply circleFill_loop_bytes; [|exact Hrun].
  refine (for_u8_keeps_some _ _ _ _ _ _ _ (u8_range _) _ Hrs Hspan).
  intros k s Hk Hs. byte_plot.
Qed.

Lemma drawChar_bytes fuel o x y c color mode (rs rs' : list request) :
  Forall byte_coordinates rs ->
  drawChar fuel o x y c color mode rs = Some rs' ->
  Forall byte_coordinates rs'.
Proof.
  intros Hrs Hrun. unfold drawChar in Hrun.
  destruct (_ || _); [by injection Hrun as <-|].
  destruct (_ =? 1).
  - refine (for_u8_keeps_some _ _ _ _ _ _ _ _ _ Hrs Hrun); [unfold is_u8; lia|].
    intros k s Hk Hs. by apply column_loop_bytes.
  - refine (for_u8_keeps _ _ _ _ _ _ _ _ _ Hrs Hrun); [unfold is_u8; lia|].
    intros row s s1 Hrow _ Hs Hband.
    refine (for_u8_keeps_some _ _ _ _ _ _ _ _ _ Hs Hband); [unfold is_u8; lia|].
    intros k s2 Hk Hs2. by apply column_loop_bytes.
Qed.

Lemma puts_bytes fuel cstring o o' (rs rs' : list request) :
  Forall byte_coordinates rs ->
  puts fuel cstring (o, rs) = Some (o', rs') ->
  Forall byte_coordinates rs'.
Proof.
  revert o rs. induction cstring as [|c cstring IH]; intros o rs Hrs Hputs.
  - by injection Hputs as _ <-.
  - cbn [puts] in Hputs. destruct (c =? 0); [by injection Hputs as _ <-|].
    destruct (putc fuel c (o, rs)) as [[o1 rs1]|] eqn:Hputc; [|done].
    apply (IH o1 rs1); [|done].
    unfold putc in Hputc.
    destruct (c =? 10); [by injection Hputc as _ <-|].
    destruct (c =? 13); [by injection Hputc as _ <-|].
    destruct (drawChar fuel o (cursorX o) (cursorY o) (u8 c) (foreColor o) (drawMode o) rs)
      as [rs2|] eqn:Hchar; [|done].
    pose proof (drawChar_bytes _ _ _ _ _ _ _ _ _ Hrs Hchar).
    destruct (_ >? _); by injection Hputc as _ <-.
Qed.

End Bytes.

(** ** Text output draws through [plot] alone *)

Section TextSimulation.
Context `{Header}.
Context {A B : Type} `{Canvas A} `{Canvas B} (R : A -> B -> Prop).
Hypothesis plot_sim :
  forall x y color mode a b, R a b -> R (plot x y color mode a) (plot x y color mode b).

Lemma putc_sim fuel c o a b :
  R a b ->
  option_Forall2 (fun sa sb => sa.1 = sb.1 /\ R sa.2 sb.2)
    (putc fuel c (o, a)) (putc fuel c (o, b)).
Proof.
  intros Hab. unfold putc.
  destruct (c =? 10); [by constructor|].
  destruct (c =? 13); [by constructor|].
  destruct (drawChar_sim R plot_sim fuel o (cursorX o) (cursorY o) (u8 c)
              (foreColor o) (drawMode o) a b Hab) as [a1 b1 Hab1|]; [|constructor].
  destruct (_ >? _); by constructor.
Qed.

Lemma puts_sim fuel cstring o a b :
  R a b ->
  option_Forall2 (fun sa sb => sa.1 = sb.1 /\ R sa.2 sb.2)
    (puts fuel cstring (o, a)) (puts fuel cstring (o, b)).
Proof.
  revert o a b. induction cstring as [|c cstring IH]; intros o a b Hab; cbn [puts].
  - by constructor.
  - destruct (c =? 0); [by constructor|].
    destruct (putc_sim fuel c o a b Hab) as [[o1 a1] [o2 b1] [Ho Hab1]|]; [|constructor].
    cbn in Ho, Hab1. subst o2. by apply IH.
Qed.

End TextSimulation.

(** ** One pixel at a time *)

Section ReadBack.
Context `{Header}.

(** The guard of [pixel] keeps every access inside the array: on a buffer
    of the declared size the checked [pixel] never leaves the array and does
    what [pixel] does. *)
Lemma pixel_checked_in_bounds x y color mode fb :
  LCDHEIGHT mod 8 = 0 -> Z.of_nat (length fb) = screen_bytes ->
  0 <= x -> 0 <= y ->
  pixel_checked x y color mode fb = Some (pixel x y color mode fb).
Proof.
  intros Hpages Hlen Hx Hy. unfold pixel_checked, pixel.
  destruct (LCDWIDTH <=? x) eqn:Ex; [done|].
  destruct (LCDHEIGHT <=? y) eqn:Ey; [done|]. cbn [orb].
  pose proof (byte_index_in_range x y Hpages ltac:(lia) ltac:(lia)) as Hi.
  assert (forall f, poke f (x + y / 8 * LCDWIDTH) fb
                    = Some (modify f (x + y / 8 * LCDWIDTH) fb)) as Hpoke.
  { intros f. unfold poke.
    by replace ((0 <=? x + y / 8 * LCDWIDTH)
                && (x + y / 8 * LCDWIDTH <? Z.of_nat (length fb))) with true by lia. }
  destruct (mode =? XOR), (color =? WHITE); by rewrite ?Hpoke.
Qed.

(** X11. [pixel(x, y, color, mode)] on a page buffer of the declared size writes
    inside the buffer and changes the pixel [(x, y)] alone.  With every
    access to the array checked, [pixel] does not leave the array: whatever
    the coordinates, the index [x + (y/8)*LCDWIDTH] it writes passes the
    bounds check, which a body without either guard would fail.  Read back
    through the same addressing, [(x, y)] is toggled by WHITE in XOR mode,
    left alone by any other colour in XOR mode, and in every other mode set
    by WHITE and cleared by any other colour; every other pixel of the panel
    reads as before, and the buffer keeps its size and its eight-bit
    bytes. *)
Theorem pixel_reads_back x y color mode fb x' y' :
  LCDHEIGHT mod 8 = 0 -> wf_screen fb ->
  0 <= x -> 0 <= y -> 0 <= x' < LCDWIDTH -> 0 <= y' < LCDHEIGHT ->
  pixel_checked x y color mode fb = Some (pixel x y color mode fb)
  /\ wf_screen (pixel x y color mode fb)
  /\ bit_at (pixel x y color mode fb) x' y'
     = if (x =? x') && (y =? y')
       then if mode =? XOR
            then (if color =? WHITE then negb (bit_at fb x' y') else bit_at fb x' y')
            else (color =? WHITE)
       else bit_at fb x' y'.
Proof.
  intros Hpages Hfb Hx Hy Hx' Hy'.
  split; [apply pixel_checked_in_bounds; (done || apply Hfb)|].
  split; [by apply pixel_wf|].
  destruct Hfb as [Hlen _]. by rewrite bit_at_pixel.
Qed.

End ReadBack.

Lemma blank_wf : wf_screen (H:=breakout) blank.
Proof. split; [done | apply blank_bytes]. Qed.

Section ReadBackSample.
#[local] Existing Instance breakout.

Lemma pixel_reads_back_witness :
  pixel_checked 63 47 WHITE NORM blank = Some (pixel 63 47 WHITE NORM blank)
  /\ pixel_checked 63 255 WHITE NORM blank = Some blank
  /\ bit_at (pixel 63 47 WHITE NORM blank) 63 47 = true
  /\ bit_at (pixel 63 47 WHITE NORM blank) 63 46 = false.
Proof.
  destruct (pixel_reads_back (H:=breakout) 63 47 WHITE NORM blank 63 47)
    as (Hin & _ & Hset); [by_evaluation | apply blank_wf | by_evaluation .. |].
  destruct (pixel_reads_back (H:=breakout) 63 255 WHITE NORM blank 63 46)
    as (Hout & _ & _); [by_evaluation | apply blank_wf | by_evaluation .. |].
  destruct (pixel_reads_back (H:=breakout) 63 47 WHITE NORM blank 63 46)
    as (_ & _ & Hkept); [by_evaluation | apply blank_wf | by_evaluation .. |].
  split; [exact Hin|]. split; [exact Hout|].
  split; [rewrite Hset | rewrite Hkept]; by_evaluation.
Defined.

End ReadBackSample.

(** ** The page buffer stays a page buffer *)

Section WellFormed.
Context `{Header}.

Lemma puts_wf fuel cstring o o' (fb fb' : framebuffer) :
  wf_screen fb -> puts fuel cstring (o, fb) = Some (o', fb') -> wf_screen fb'.
Proof.
  revert o fb. induction cstring as [|c cstring IH]; intros o fb Hfb Hputs.
  - by injection Hputs as _ <-.
  - cbn [puts] in Hputs. destruct (c =? 0); [by injection Hputs as _ <-|].
    destruct (putc fuel c (o, fb)) as [[o1 fb1]|] eqn:Hputc; [|done].
    apply (IH o1 fb1); [|done].
    unfold putc in Hputc.
    destruct (c =? 10); [by injection Hputc as _ <-|].
    destruct (c =? 13); [by injection Hputc as _ <-|].
    destruct (drawChar fuel o (cursorX o) (cursorY o) (u8 c) (foreColor o) (drawMode o) fb)
      as [fb2|] eqn:Hchar; [|done].
    assert (wf_screen fb2) as Hfb2.
    { rewrite (served_within
                 (fun T C => drawChar (canvas:=C) fuel o (cursorX o) (cursorY o) (u8 c)
                               (foreColor o) (drawMode o))) in Hchar
        by (intros; apply drawChar_sim; [apply serves_plot | done]).
      destruct (requests_within _); [|done].
      injection Hchar as <-. by apply exec_wf. }
    destruct (_ >? _); by injection Hputc as _ <-.
Qed.

Section CheckedRuns.
Hypothesis pages : LCDHEIGHT mod 8 = 0.
Variable fb : framebuffer.
Hypothesis fb_wf : wf_screen fb.

Lemma checked_serves_plot x y color mode a rs :
  checked_serves fb a rs ->
  checked_serves fb (plot x y color mode a) (plot x y color mode rs).
Proof.
  unfold checked_serves. intros Hserved Hbytes.
  change (plot x y color mode rs) with (rs ++ [Request x y color mode]) in *.
  apply Forall_app in Hbytes as [Hrs Hq]. rewrite (Hserved Hrs), exec_app.
  apply Forall_singleton in Hq as [[Hx _] [Hy _]]. cbn in Hx, Hy.
  change (pixel_checked x y color mode (exec rs fb)
          = Some (pixel x y color mode (exec rs fb))).
  apply pixel_checked_in_bounds; try done. by apply exec_wf.
Qed.

Lemma checked_serves_nil : checked_serves fb (Some fb) [].
Proof. by intros _. Qed.

(** A primitive whose recorded coordinates are eight-bit values runs on the
    checked array without leaving it, and to the same buffer. *)
Lemma checked_all (p : forall T, Canvas T -> T -> T) :
  (forall a b, checked_serves fb a b -> checked_serves fb (p _ checked a) (p _ recorder b)) ->
  (forall fb0 a b, serves fb0 a b -> serves fb0 (p _ screen a) (p _ recorder b)) ->
  Forall byte_coordinates (requests (p _ recorder)) ->
  p _ checked (Some fb) = Some (p _ screen fb).
Proof.
  intros Hchecked Hscreen Hbytes.
  rewrite (served_all p fb Hscreen).
  by apply (Hchecked (Some fb) [] checked_serves_nil).
Qed.

Lemma checked_within (p : forall T, Canvas T -> T -> option T) :
  (forall a b, checked_serves fb a b ->
     option_Forall2 (checked_serves fb) (p _ checked a) (p _ recorder b)) ->
  (forall fb0 a b, serves fb0 a b ->
     option_Forall2 (serves fb0) (p _ screen a) (p _ recorder b)) ->
  (forall rs, p _ recorder [] = Some rs -> Forall byte_coordinates rs) ->
  p _ checked (Some fb) = Some <$> p _ screen fb.
Proof.
  intros Hchecked Hscreen Hbytes.
  pose proof (Hchecked (Some fb) [] checked_serves_nil) as Hc.
  pose proof (Hscreen fb fb [] (serves_nil fb)) as Hs.
  destruct (p _ recorder []) as [rs|].
  - inversion Hc as [a ? Ha|]; subst. inversion Hs as [fb' ? Hfb'|]; subst.
    cbn. rewrite (Ha (Hbytes rs eq_refl)). unfold serves in Hfb'. by subst.
  - inversion Hc. by inversion Hs.
Qed.

End CheckedRuns.

(** X12. No drawing call writes outside the page buffer or widens a byte.  Run
    with every access to [screenmemory] checked, [line], [rect], [rectFill]
    and [circle] never leave the array and give the buffer they give
    unchecked, for all eight-bit arguments on or off the panel; [circleFill],
    [drawChar] and [puts] return checked exactly when they return unchecked,
    and then with the same buffer, no access outside the array before.  The
    buffer afterwards still has its [LCDWIDTH*LCDHEIGHT/8] bytes, each an
    eight-bit value. *)
Theorem drawing_keeps_buffer_well_formed (fb : framebuffer) :
  LCDHEIGHT mod 8 = 0 -> wf_screen fb ->
  (forall x0 y0 x1 y1 color mode,
     is_u8 x0 -> is_u8 y0 -> is_u8 x1 -> is_u8 y1 ->
     line x0 y0 x1 y1 color mode (Some fb) = Some (line x0 y0 x1 y1 color mode fb)
     /\ wf_screen (line x0 y0 x1 y1 color mode fb))
  /\ (forall x y width height color mode,
        is_u8 x -> is_u8 y ->
        rect x y width height color mode (Some fb)
        = Some (rect x y width height color mode fb)
        /\ wf_screen (rect x y width height color mode fb))
  /\ (forall x y width height color mode,
        is_u8 y ->
        rectFill x y width height color mode (Some fb)
        = Some (rectFill x y width height color mode fb)
        /\ wf_screen (rectFill x y width height color mode fb))
  /\ (forall x0 y0 radius color mode,
        is_u8 x0 -> is_u8 y0 ->
        circle x0 y0 radius color mode (Some fb)
        = Some (circle x0 y0 radius color mode fb)
        /\ wf_screen (circle x0 y0 radius color mode fb))
  /\ (forall fuel x0 y0 radius color mode,
        is_u8 x0 ->
        circleFill fuel x0 y0 radius color mode (Some fb)
        = Some <$> circleFill fuel x0 y0 radius color mode fb
        /\ forall fb', circleFill fuel x0 y0 radius color mode fb = Some fb' ->
                       wf_screen fb')
  /\ (forall fuel o x y c color mode,
        drawChar fuel o x y c color mode (Some fb)
        = Some <$> drawChar fuel o x y c color mode fb
        /\ forall fb', drawChar fuel o x y c color mode fb = Some fb' -> wf_screen fb')
  /\ (forall fuel cstring o,
        puts fuel cstring (o, Some fb)
        = (fun st => (st.1, Some st.2)) <$> puts fuel cstring (o, fb)
        /\ forall o' fb', puts fuel cstring (o, fb) = Some (o', fb') -> wf_screen fb').
Proof.
  intros Hpages Hfb.
  split; [|split; [|split; [|split; [|split; [|split]]]]]; intros.
  - split.
    + apply (checked_all fb
               (fun T C => line (canvas:=C) x0 y0 x1 y1 color mode)).
      * intros. apply line_sim; [intros; by apply checked_serves_plot | done].
      * intros. apply line_sim; [apply serves_plot | done].
      * by apply line_bytes.
    + rewrite (served_all (fun T C => line (canvas:=C) x0 y0 x1 y1 color mode))
        by (intros; apply line_sim; [apply serves_plot | done]).
      by apply exec_wf.
  - split.
    + apply (checked_all fb
               (fun T C => rect (canvas:=C) x y width height color mode)).
      * intros. apply rect_sim; [intros; by apply checked_serves_plot | done].
      * intros. apply rect_sim; [apply serves_plot | done].
      * by apply rect_bytes.
    + rewrite (served_all (fun T C => rect (canvas:=C) x y width height color mode))
        by (intros; apply rect_sim; [apply serves_plot | done]).
      by apply exec_wf.
  - split.
    + apply (checked_all fb
               (fun T C => rectFill (canvas:=C) x y width height color mode)).
      * intros. apply rectFill_sim; [intros; by apply checked_serves_plot | done].
      * intros. apply rectFill_sim; [apply serves_plot | done].
      * by apply rectFill_bytes.
    + rewrite (served_all (fun T C => rectFill (canvas:=C) x y width height color mode))
        by (intros; apply rectFill_sim; [apply serves_plot | done]).
      by apply exec_wf.
  - split.
    + apply (checked_all fb
               (fun T C => circle (canvas:=C) x0 y0 radius color mode)).
      * intros. apply circle_sim; [intros; by apply checked_serves_plot | done].
      * intros. apply circle_sim; [apply serves_plot | done].
      * by apply circle_bytes.
    + rewrite (served_all (fun T C => circle (canvas:=C) x0 y0 radius color mode))
        by (intros; apply circle_sim; [apply serves_plot | done]).
      by apply exec_wf.
  - split.
    + apply (checked_within fb
               (fun T C => circleFill (canvas:=C) fuel x0 y0 radius color mode)).
      * intros. apply circleFill_sim; [intros; by apply checked_serves_plot | done].
      * intros. apply circleFill_sim; [apply serves_plot | done].
      * intros rs Hrs. by eapply circleFill_bytes.
    + intros fb' Hret.
      rewrite (served_within
                 (fun T C => circleFill (canvas:=C) fuel x0 y0 radius color mode)) in Hret
        by (intros; apply circleFill_sim; [apply serves_plot | done]).
      destruct (requests_within _); [|done]. injection Hret as <-. by apply exec_wf.
  - split.
    + apply (checked_within fb
               (fun T C => drawChar (canvas:=C) fuel o x y c color mode)).
      * intros. apply drawChar_sim; [intros; by apply checked_serves_plot | done].
      * intros. apply drawChar_sim; [apply serves_plot | done].
      * intros rs Hrs. by eapply drawChar_bytes.
    + intros fb' Hret.
      rewrite (served_within
                 (fun T C => drawChar (canvas:=C) fuel o x y c color mode)) in Hret
        by (intros; apply drawChar_sim; [apply serves_plot | done]).
      destruct (requests_within _); [|done]. injection Hret as <-. by apply exec_wf.
  - split; [|intros; by eapply puts_wf].
    pose proof (puts_sim (checked_serves fb)
                  (fun x y color mode a b => checked_serves_plot Hpages fb Hfb x y color mode a b)
                  fuel cstring o (Some fb) [] (checked_serves_nil fb)) as Hc.
    pose proof (puts_sim (serves fb) (serves_plot fb) fuel cstring o fb []
                  (serves_nil fb)) as Hs.
    pose proof (puts_bytes fuel cstring o) as Hbytes.
    destruct (puts fuel cstring (o, [])) as [[o' rs]|] eqn:Hrec.
    + pose proof (Hbytes o' [] rs (Forall_nil_2 _) Hrec) as Hrs.
      inversion Hc as [[o1 a] ? [Ho1 Ha]|]; subst.
      inversion Hs as [[o2 fb'] ? [Ho2 Hfb']|]; subst.
      cbn in *. subst. rewrite (Ha Hrs).
      unfold serves in Hfb'. by subst.
    + inversion Hc. by inversion Hs.
Qed.

End WellFormed.

Section WellFormedSample.
#[local] Existing Instance breakout.

Lemma drawing_keeps_buffer_well_formed_witness :
  line 0 0 255 255 WHITE NORM (Some blank) = Some (line 0 0 255 255 WHITE NORM blank)
  /\ wf_screen (circle 60 40 30 WHITE XOR blank).
Proof.
  destruct (drawing_keeps_buffer_well_formed (H:=breakout) blank)
    as (Hline & _ & _ & Hcircle & _); [by_evaluation | apply blank_wf |].
  split.
  - apply Hline; by_evaluation.
  - apply Hcircle; by_evaluation.
Defined.

End WellFormedSample.

(** ** The span of a line *)

Lemma line_running_witness :
  running true <$> requests (line 3 40 5 2 1 0) = seqZ 2 38.
Proof. apply (line_running 3 40 5 2 1 0); by_evaluation. Defined.

(** ** The pixels of a circle *)


(** The midpoint iteration, while nothing wraps: at the head of the loop
    [f = (x+1)^2 + (y - 1/2)^2 - radius^2 - 1/4], [ddF_x = 2x+1],
    [ddF_y = -2y], and the point [(x, y)] just plotted misses the circle by
    no more than [y] inwards and less than [radius] outwards. *)
Lemma circle_loop_on_ring fuel x0 y0 radius f ddF_x ddF_y x y color mode
    (rs : list request) :
  radius <= 63 -> 0 <= x -> 0 <= y <= radius ->
  f = x * x + 2 * x + 1 + y * y - y - radius * radius ->
  ddF_x = 2 * x + 1 -> ddF_y = - 2 * y ->
  - y <= x * x + y * y - radius * radius <= Z.max 1 radius - 1 ->
  Forall (on_ring x0 y0 radius color mode) rs ->
  Forall (on_ring x0 y0 radius color mode)
    (circle_loop fuel x0 y0 (f, ddF_x, ddF_y, x, y) color mode rs).
Proof.
  intros Hr. revert f ddF_x ddF_y x y rs.
  induction fuel as [|fuel IH]; intros f ddF_x ddF_y x y rs Hx Hy Hf Hddx Hddy HD Hrs;
    [done|].
  cbn [circle_loop]. destruct (x <? y) eqn:Elt; [|done].
  assert (forall x' y' f' ddx' ddy',
            x' = x + 1 -> 0 <= y' <= radius -> x' <= y' + 1 ->
            f' = x' * x' + 2 * x' + 1 + y' * y' - y' - radius * radius ->
            ddx' = 2 * x' + 1 -> ddy' = - 2 * y' ->
            - y' <= x' * x' + y' * y' - radius * radius <= Z.max 1 radius - 1 ->
            Z.abs (x' * x' + y' * y' - radius * radius) < Z.max 1 radius ->
            Forall (on_ring x0 y0 radius color mode)
              (let '(_, _, _, x1, y1) := (f', ddx', ddy', x', y') in
               circle_loop fuel x0 y0 (f', ddx', ddy', x', y') color mode
                 (plot (u8 (x0 - y1)) (u8 (y0 - x1)) color mode
                    (plot (u8 (x0 + y1)) (u8 (y0 - x1)) color mode
                       (plot (u8 (x0 - y1)) (u8 (y0 + x1)) color mode
                          (plot (u8 (x0 + y1)) (u8 (y0 + x1)) color mode
                             (plot (u8 (x0 - x1)) (u8 (y0 - y1)) color mode
                                (plot (u8 (x0 + x1)) (u8 (y0 - y1)) color mode
                                   (plot (u8 (x0 - x1)) (u8 (y0 + y1)) color mode
                                      (plot (u8 (x0 + x1)) (u8 (y0 + y1)) color mode
                                         rs)))))))))) as Hpass.
  { intros x' y' f' ddx' ddy' Hx' Hy' Hxy' Hf' Hddx' Hddy' HD' Hnear. cbn zeta.
    apply IH; try done; [lia|].
    repeat apply Forall_plot; try done.
    - exists x', y'. ring_point.
    - exists (- x'), y'. ring_point.
    - exists x', (- y'). ring_point.
    - exists (- x'), (- y'). ring_point.
    - exists y', x'. ring_point.
    - exists (- y'), x'. ring_point.
    - exists y', (- x'). ring_point.
    - exists (- y'), (- x'). ring_point. }
  unfold midpoint_step. subst f ddF_x ddF_y.
  rewrite (i8_small (x + 1)), (i8_small (2 * x + 1 + 2)) by lia.
  destruct (_ >=? 0) eqn:Esign.
  - rewrite (i8_small (y - 1)), (i8_small (- 2 * y + 2)) by lia.
    rewrite (i8_small (_ + (- 2 * y + 2))) by lia.
    rewrite (i8_small (_ + (2 * x + 1 + 2))) by lia.
    apply Hpass; lia.
  - rewrite (i8_small (_ + (2 * x + 1 + 2))) by lia.
    apply Hpass; lia.
Qed.

(** X13. Every pixel that [circle] asks for, up to radius 63 (more than the
    64x48 panel holds), lies within half a pixel of the ideal circle: at an
    offset [(dx, dy)] from the centre with
    [|dx^2 + dy^2 - radius^2| < radius], in the colour and mode given.  None
    of the [int8_t] variables of the midpoint iteration wraps in that
    range. *)
Theorem circle_pixels_on_ring x0 y0 radius color mode :
  is_u8 x0 -> is_u8 y0 -> 0 <= radius <= 63 ->
  Forall (on_ring x0 y0 radius color mode) (requests (circle x0 y0 radius color mode)).
Proof.
  unfold is_u8. intros Hx0 Hy0 Hr. unfold requests, circle.
  rewrite (i8_small (1 - radius)), (i8_small (- 2 * radius)), (i8_small radius) by lia.
  apply circle_loop_on_ring; try lia.
  repeat apply Forall_plot; [constructor|..].
  - exists 0, radius. rewrite Z.add_0_r, (u8_small x0) by done.
    ring_point.
  - exists 0, (- radius). rewrite Z.add_0_r, (u8_small x0) by done.
    ring_point.
  - exists radius, 0. rewrite Z.add_0_r, (u8_small y0) by done.
    ring_point.
  - exists (- radius), 0. rewrite Z.add_0_r, (u8_small y0) by done.
    ring_point.
Qed.

Lemma circle_pixels_on_ring_witness :
  Forall (on_ring 32 24 20 1 0) (requests (circle 32 24 20 1 0)).
Proof. apply (circle_pixels_on_ring 32 24 20 1 0); by_evaluation. Defined.

(** ** A filled circle cut by the upper edge *)


Lemma u8_below_zero z : -256 <= z < 0 -> u8 z = z + 256.
Proof.
  intros Hz. unfold u8. symmetry. apply (Z.mod_unique_pos _ _ (-1)); lia.
Qed.

Lemma u8_shift_differs x0 d :
  is_u8 x0 -> 1 <= d <= 255 -> u8 (x0 + d) <> x0 /\ u8 (x0 - d) <> x0.
Proof.
  unfold is_u8, u8. intros Hx0 Hd.
  pose proof (Z.div_mod (x0 + d) 256 ltac:(lia)).
  pose proof (Z.div_mod (x0 - d) 256 ltac:(lia)).
  split; lia.
Qed.

(** The spans of [circleFill] on the recorder, for a centre less than
    [radius] rows below the upper edge: no request is for column [x0]. *)
Lemma circleFill_loop_off_centre passes fuel x0 y0 radius f ddF_x ddF_y x y color mode
    (rs rs' : list request) :
  is_u8 x0 -> is_u8 y0 -> y0 < radius -> radius <= 127 ->
  0 <= x -> 0 <= y <= 127 -> (x = 0 -> y = radius) ->
  Forall (fun q => req_x q <> x0 /\ 0 <= req_x q /\ 0 <= req_y q) rs ->
  circleFill_loop passes fuel x0 y0 (f, ddF_x, ddF_y, x, y) color mode rs = Some rs' ->
  Forall (fun q => req_x q <> x0 /\ 0 <= req_x q /\ 0 <= req_y q) rs'.
Proof.
  intros Hx0 Hy0 Hclip Hr.
  revert f ddF_x ddF_y x y rs.
  induction passes as [|passes IH]; intros f ddF_x ddF_y x y rs Hx Hy Hfirst Hrs Hrun;
    [done|].
  cbn [circleFill_loop] in Hrun. destruct (x <? y) eqn:Elt; [|by injection Hrun as <-].
  assert (exists f' ddx' ddy' y',
            midpoint_step (f, ddF_x, ddF_y, x, y) = (f', ddx', ddy', x + 1, y')
            /\ (y' = y \/ y' = y - 1)) as (f' & ddx' & ddy' & y' & Estep & Hy').
  { unfold midpoint_step. rewrite (i8_small (x + 1)) by lia.
    destruct (f >=? 0); [rewrite (i8_small (y - 1)) by lia|]; eauto 10. }
  rewrite Estep in Hrun. cbn zeta in Hrun.
  destruct (for_u8 fuel _ _ (u8 (y0 - y')) rs) as [rs1|] eqn:Hspan1; [|done].
  destruct (for_u8 fuel _ _ (u8 (y0 - (x + 1))) rs1) as [rs2|] eqn:Hspan2; [|done].
  assert (Forall (fun q => req_x q <> x0 /\ 0 <= req_x q /\ 0 <= req_y q) rs1) as Hrs1.
  { refine (for_u8_keeps _ _ _ _ _ _ _ (u8_range _) _ Hrs Hspan1).
    intros k s s1 Hk _ Hs [= <-].
    destruct (u8_shift_differs x0 (x + 1) Hx0 ltac:(lia)).
    pose proof (u8_range (x0 + (x + 1))). pose proof (u8_range (x0 - (x + 1))).
    unfold is_u8 in *.
    repeat apply Forall_plot; cbn; try done; repeat split; try done; lia. }
  assert (Forall (fun q => req_x q <> x0 /\ 0 <= req_x q /\ 0 <= req_y q) rs2) as Hrs2.
  { destruct (Z.eq_dec y' 0) as [Ezero|Epos].
    - assert (x = 0 /\ y = 1) as [-> ->] by lia.
      assert (radius = 1) as -> by (symmetry; by apply Hfirst).
      assert (y0 = 0) as -> by (unfold is_u8 in Hy0; lia).
      apply for_u8_skipped in Hspan2; [by subst rs2 | done].
    - refine (for_u8_keeps _ _ _ _ _ _ _ (u8_range _) _ Hrs1 Hspan2).
      intros k s s1 Hk _ Hs [= <-].
      destruct (u8_shift_differs x0 y' Hx0 ltac:(lia)).
      pose proof (u8_range (x0 + y')). pose proof (u8_range (x0 - y')).
      unfold is_u8 in *.
      repeat apply Forall_plot; cbn; try done; repeat split; try done; lia. }
  eapply (IH _ _ _ (x + 1) y' rs2); [lia | lia | lia | done | done].
Qed.

Section CircleFillClipped.
Context `{Header}.

(** X14. A filled circle whose disc reaches above row 0 ([y0 < radius], radius
    up to 127) has no centre column: the first span starts at the row
    [y0 - radius] narrowed to eight bits, which is past its last row
    [y0 + radius], so it is skipped, and no later span is in column [x0].
    Whenever [circleFill] returns, every pixel of column [x0] is as it
    was. *)
Theorem circleFill_cut_above_skips_centre_column
    fuel x0 y0 radius color mode (fb fb' : framebuffer) y' :
  LCDHEIGHT mod 8 = 0 -> Z.of_nat (length fb) = screen_bytes ->
  is_u8 x0 -> is_u8 y0 -> 0 < radius <= 127 -> y0 < radius ->
  x0 < LCDWIDTH -> 0 <= y' < LCDHEIGHT ->
  circleFill fuel x0 y0 radius color mode fb = Some fb' ->
  bit_at fb' x0 y' = bit_at fb x0 y'.
Proof.
  intros Hpages Hlen Hx0 Hy0 Hr Hclip Hcol Hy' Hrun.
  rewrite (served_within (fun T C => circleFill (canvas:=C) fuel x0 y0 radius color mode))
    in Hrun by (intros; apply circleFill_sim; [apply serves_plot | done]).
  destruct (requests_within _) as [rs|] eqn:Hrs; [|done]. injection Hrun as <-.
  assert (Forall (fun q => req_x q <> x0 /\ 0 <= req_x q /\ 0 <= req_y q) rs) as Hoff.
  { unfold requests_within, circleFill in Hrs.
    destruct (mode =? XOR); [injection Hrs as <-; constructor|].
    destruct (for_u8 fuel _ _ (u8 (y0 - radius)) []) as [rs0|] eqn:Hspan; [|done].
    apply for_u8_skipped in Hspan as ->.
    - rewrite (i8_small radius) in Hrs by lia.
      eapply (circleFill_loop_off_centre _ _ x0 y0 radius); [..|exact Hrs];
        first [done | lia | constructor].
    - unfold is_u8 in *. rewrite u8_below_zero by lia. lia. }
  unfold is_u8 in *.
  rewrite exec_reads_back; try done; try lia.
  - apply fold_effect_miss. apply not_true_is_false.
    rewrite existsb_exists. intros (q & Hq & Hhit).
    apply hits_true in Hhit. apply filter_In in Hq as [Hq _].
    apply list_elem_of_In in Hq.
    rewrite Forall_forall in Hoff. destruct (Hoff q Hq) as [Hne _].
    by injection Hhit as ? ?.
  - rewrite Forall_forall. intros q Hq.
    apply list_elem_of_In, filter_In in Hq as [Hq _]. apply list_elem_of_In in Hq.
    rewrite Forall_forall in Hoff. by destruct (Hoff q Hq) as (_ & ? & ?).
Qed.

End CircleFillClipped.

Section CircleFillClippedSample.
#[local] Existing Instance breakout.

Lemma circleFill_cut_above_skips_centre_column_witness :
  match circleFill 256 32 5 10 WHITE NORM blank with
  | Some fb' => bit_at fb' 32 5 = false /\ bit_at fb' 42 5 = true
  | None => False
  end.
Proof.
  assert (forall fb', circleFill 256 32 5 10 WHITE NORM blank = Some fb' ->
                      bit_at fb' 32 5 = bit_at blank 32 5) as Hcolumn.
  { intros fb'.
    refine (circleFill_cut_above_skips_centre_column (H:=breakout)
              256 32 5 10 WHITE NORM blank fb' 5 _ _ _ _ _ _ _ _); by_evaluation. }
  destruct (circleFill 256 32 5 10 WHITE NORM blank) as [fb'|] eqn:Hrun.
  - split; [exact (Hcolumn fb' eq_refl)|].
    vm_compute in Hrun. injection Hrun as <-. vm_compute. reflexivity.
  - vm_compute in Hrun. discriminate Hrun.
Defined.

End CircleFillClippedSample.

(** ** The pixels of a filled circle *)

(** One pass of the midpoint iteration from a state that satisfies the
    invariant of [circle_loop_on_ring]: nothing wraps and the invariant holds
    again. *)
Lemma midpoint_step_exact radius f ddF_x ddF_y x y :
  radius <= 63 -> 0 <= x -> x < y -> y <= radius ->
  f = x * x + 2 * x + 1 + y * y - y - radius * radius ->
  ddF_x = 2 * x + 1 -> ddF_y = - 2 * y ->
  - y <= x * x + y * y - radius * radius <= Z.max 1 radius - 1 ->
  exists f' ddx' ddy' y',
    midpoint_step (f, ddF_x, ddF_y, x, y) = (f', ddx', ddy', x + 1, y')
    /\ 0 <= y' <= radius /\ x + 1 <= y' + 1
    /\ f' = (x + 1) * (x + 1) + 2 * (x + 1) + 1 + y' * y' - y' - radius * radius
    /\ ddx' = 2 * (x + 1) + 1 /\ ddy' = - 2 * y'
    /\ - y' <= (x + 1) * (x + 1) + y' * y' - radius * radius <= Z.max 1 radius - 1.
Proof.
  intros Hr Hx Hlt Hy -> -> -> HD. unfold midpoint_step.
  rewrite (i8_small (x + 1)), (i8_small (2 * x + 1 + 2)) by lia.
  destruct (_ >=? 0) eqn:Esign.
  - rewrite (i8_small (y - 1)), (i8_small (- 2 * y + 2)) by lia.
    rewrite (i8_small (_ + (- 2 * y + 2))) by lia.
    rewrite (i8_small (_ + (2 * x + 1 + 2))) by lia.
    eexists _, _, _, _. split; [done|]. lia.
  - rewrite (i8_small (_ + (2 * x + 1 + 2))) by lia.
    eexists _, _, _, _. split; [done|]. lia.
Qed.

(** A loop [for (uint8_t i = start; i <= last; i++)] with [last] at most 254
    runs its body at counters between [start] and [last] only. *)
Lemma for_u8_upto_keeps {T} (P : T -> Prop) fuel last (body : Z -> T -> option T)
    start i s s' :
  0 <= start <= i -> i <= 255 -> last <= 254 ->
  (forall k s s1, start <= k <= last -> P s -> body k s = Some s1 -> P s1) ->
  P s -> for_u8 fuel (fun k => k <=? last) body i s = Some s' -> P s'.
Proof.
  intros Hstart Hi Hlast Hbody. revert i s Hstart Hi.
  induction fuel as [|fuel IH]; intros i s Hstart Hi Hs Hrun; [done|].
  cbn in Hrun. destruct (i <=? last) eqn:Econd; [|by injection Hrun as <-].
  destruct (body i s) as [s1|] eqn:Ebody; [|done].
  rewrite (u8_small (i + 1)) in Hrun by (unfold is_u8; lia).
  apply (IH (i + 1) s1); [lia | lia | | done].
  eapply Hbody; [|done..]. lia.
Qed.

Lemma sqr_le_sqr j y : - y <= j <= y -> j * j <= y * y.
Proof. intros. nia. Qed.

Lemma circleFill_loop_in_disc passes fuel x0 y0 radius f ddF_x ddF_y x y color mode
    (rs rs' : list request) :
  is_u8 y0 -> radius <= 63 -> y0 + radius <= 254 -> 0 <= x -> 0 <= y <= radius ->
  f = x * x + 2 * x + 1 + y * y - y - radius * radius ->
  ddF_x = 2 * x + 1 -> ddF_y = - 2 * y ->
  - y <= x * x + y * y - radius * radius <= Z.max 1 radius - 1 ->
  Forall (in_disc x0 y0 radius color mode) rs ->
  circleFill_loop passes fuel x0 y0 (f, ddF_x, ddF_y, x, y) color mode rs = Some rs' ->
  Forall (in_disc x0 y0 radius color mode) rs'.
Proof.
  intros Hy0 Hr Hfit. unfold is_u8 in Hy0. revert f ddF_x ddF_y x y rs.
  induction passes as [|passes IH];
    intros f ddF_x ddF_y x y rs Hx Hy Hf Hddx Hddy HD Hrs Hrun; [done|].
  cbn [circleFill_loop] in Hrun. destruct (x <? y) eqn:Elt; [|by injection Hrun as <-].
  destruct (midpoint_step_exact radius f ddF_x ddF_y x y)
    as (f' & ddx' & ddy' & y' & Estep & Hy' & Hxy' & Hf' & Hddx' & Hddy' & HD');
    [lia..|].
  rewrite Estep in Hrun. cbn zeta in Hrun.
  destruct (for_u8 fuel _ _ (u8 (y0 - y')) rs) as [rs1|] eqn:Hspan1; [|done].
  destruct (for_u8 fuel _ _ (u8 (y0 - (x + 1))) rs1) as [rs2|] eqn:Hspan2; [|done].
  assert (forall a b start rs rs1,
            0 <= a -> 0 <= b <= radius ->
            a * a + b * b < radius * radius + Z.max 1 radius ->
            start = u8 (y0 - b) ->
            Forall (in_disc x0 y0 radius color mode) rs ->
            for_u8 fuel (fun i => i <=? y0 + b)
              (fun i s => Some (plot (u8 (x0 - a)) i color mode
                                  (plot (u8 (x0 + a)) i color mode s)))
              start rs = Some rs1 ->
            Forall (in_disc x0 y0 radius color mode) rs1) as Hspan.
  { clear - Hy0 Hr Hfit. intros a b start rs rs1 Ha Hb Hab -> Hrs Hrun.
    pose proof (u8_range (y0 - b)) as Hstart. unfold is_u8 in Hstart.
    destruct (Z.lt_ge_cases (y0 - b) 0) as [Hneg|Hpos].
    - apply for_u8_skipped in Hrun; [by subst|].
      unfold is_u8 in *. rewrite u8_below_zero by lia. lia.
    - rewrite (u8_small (y0 - b)) in Hrun, Hstart by (unfold is_u8 in *; lia).
      refine (for_u8_upto_keeps _ _ _ _ (y0 - b) _ _ _ _ _ _ _ Hrs Hrun);
        [lia | unfold is_u8 in *; lia | lia |].
      intros k s s1 Hk Hs [= <-].
      pose proof (sqr_le_sqr (k - y0) b ltac:(lia)).
      repeat apply Forall_plot; try done.
      + exists a, (k - y0). unfold is_u8 in *.
        replace (y0 + (k - y0)) with k by lia.
        rewrite (u8_small k) by (unfold is_u8; lia). ring_point.
      + exists (- a), (k - y0). unfold is_u8 in *.
        replace (y0 + (k - y0)) with k by lia.
        rewrite (u8_small k) by (unfold is_u8; lia). ring_point. }
  eapply (IH f' ddx' ddy' (x + 1) y' rs2); [lia | lia | done.. | | done].
  eapply (Hspan y' (x + 1)); [lia | lia | lia | done | | exact Hspan2].
  eapply (Hspan (x + 1) y'); [lia | lia | lia | done | done | exact Hspan1].
Qed.

Section CircleFillDisc.
Context `{Header}.

(** X15. [circleFill] stays inside its disc: up to radius 63, whenever it
    returns, every pixel it asked for is at an offset [(dx, dy)] from the
    centre with [dx^2 + dy^2 < radius^2 + radius], in the colour and mode
    given. *)
Theorem circleFill_pixels_in_disc fuel x0 y0 radius color mode rs :
  is_u8 x0 -> is_u8 y0 -> 0 <= radius <= 63 ->
  requests_within (circleFill fuel x0 y0 radius color mode) = Some rs ->
  Forall (in_disc x0 y0 radius color mode) rs.
Proof.
  intros Hx0 Hy0 Hr Hrun. unfold requests_within in Hrun.
  destruct (Z.eq_dec mode XOR) as [->|Hmode].
  { unfold circleFill in Hrun. rewrite Z.eqb_refl in Hrun. by injection Hrun as <-. }
  destruct (Z.le_gt_cases 255 (y0 + radius)) as [Hwrap|Hfit].
  { unfold circleFill in Hrun. replace (mode =? XOR) with false in Hrun by lia.
    rewrite for_u8_forever in Hrun; [done| |apply u8_range].
    intros k Hk. unfold is_u8 in Hk. lia. }
  unfold circleFill in Hrun. replace (mode =? XOR) with false in Hrun by lia.
  destruct (for_u8 fuel _ _ (u8 (y0 - radius)) []) as [rs0|] eqn:Hspan; [|done].
  rewrite (i8_small (1 - radius)), (i8_small (- 2 * radius)), (i8_small radius)
    in Hrun by lia.
  unfold is_u8 in *.
  eapply (circleFill_loop_in_disc _ _ x0 y0 radius); [..|exact Hrun];
    try done; try lia.
  pose proof (u8_range (y0 - radius)) as Hstart. unfold is_u8 in Hstart.
  destruct (Z.lt_ge_cases (y0 - radius) 0) as [Hneg|Hpos].
  - apply for_u8_skipped in Hspan; [subst; constructor|].
    rewrite u8_below_zero by lia. lia.
  - rewrite (u8_small (y0 - radius)) in Hspan by (unfold is_u8; lia).
    refine (for_u8_upto_keeps _ _ _ _ (y0 - radius) _ _ _ _ _ _ _ _ Hspan);
      [lia | lia | lia | | constructor].
    intros k s s1 Hk Hs [= <-].
    pose proof (sqr_le_sqr (k - y0) radius ltac:(lia)).
    apply Forall_plot; [done|].
    exists 0, (k - y0). rewrite Z.add_0_r, (u8_small x0) by done.
    replace (y0 + (k - y0)) with k by lia.
    rewrite (u8_small k) by (unfold is_u8; lia). ring_point.
Qed.

End CircleFillDisc.

Section CircleFillDiscSample.
#[local] Existing Instance breakout.

Lemma circleFill_pixels_in_disc_witness :
  match requests_within (circleFill 256 32 24 10 WHITE NORM) with
  | Some rs => Forall (in_disc 32 24 10 WHITE NORM) rs
  | None => False
  end.
Proof.
  assert (forall rs, requests_within (circleFill 256 32 24 10 WHITE NORM) = Some rs ->
                     Forall (in_disc 32 24 10 WHITE NORM) rs) as Hdisc.
  { intros rs.
    refine (circleFill_pixels_in_disc (H:=breakout) 256 32 24 10 WHITE NORM rs _ _ _);
      by_evaluation. }
  destruct (requests_within (circleFill 256 32 24 10 WHITE NORM)) as [rs|] eqn:Hrun.
  - exact (Hdisc rs eq_refl).
  - vm_compute in Hrun. discriminate Hrun.
Defined.

End CircleFillDiscSample.

(** ** Text output *)

Section TextCursor.
Context `{Header}.
Context {T : Type} `{Canvas T}.

Lemma putc_cursor fuel c o (s : T) o' s' :
  0 <= fontWidth o <= LCDWIDTH ->
  0 <= cursorX o -> cursorX o + fontWidth o <= LCDWIDTH ->
  putc fuel c (o, s) = Some (o', s') ->
  0 <= cursorX o' /\ cursorX o' + fontWidth o <= LCDWIDTH
  /\ o' = setCursor (cursorX o') (cursorY o') o.
Proof.
  intros Hw Hx0 Hfit Hput. unfold putc in Hput.
  destruct (c =? 10); [injection Hput as <- <-; cbn; repeat split; lia|].
  destruct (c =? 13); [injection Hput as <- <-; by destruct o|].
  destruct (drawChar _ _ _ _ _ _ _ _) as [s1|]; [|done].
  pose proof (u8_range (cursorX o + (fontWidth o + 1))) as Hu8. unfold is_u8 in Hu8.
  destruct (_ >? _) eqn:Ewrap; injection Hput as <- <-; cbn; repeat split; lia.
Qed.

(** X16. Text never starts a glyph that the right edge would cut.  With a font
    no wider than the panel and the cursor at a column where a glyph fits,
    after [puts] of any string the cursor is again at such a column: [putc]
    wraps to column 0 of the next text line as soon as less than a glyph
    width is left.  Of the object, [puts] changes the cursor and nothing
    else. *)
Theorem puts_leaves_room_for_a_glyph fuel cstring o (s : T) o' s' :
  0 <= fontWidth o <= LCDWIDTH ->
  0 <= cursorX o -> cursorX o + fontWidth o <= LCDWIDTH ->
  puts fuel cstring (o, s) = Some (o', s') ->
  0 <= cursorX o' /\ cursorX o' + fontWidth o' <= LCDWIDTH
  /\ o' = setCursor (cursorX o') (cursorY o') o.
Proof.
  revert o s.
  induction cstring as [|c cstring IH]; intros o s Hw Hx0 Hfit Hputs.
  - injection Hputs as <- <-. by destruct o.
  - cbn [puts] in Hputs.
    destruct (c =? 0); [injection Hputs as <- <-; by destruct o|].
    destruct (putc fuel c (o, s)) as [[o1 s1]|] eqn:Hput; [|done].
    destruct (putc_cursor _ _ _ _ _ _ Hw Hx0 Hfit Hput) as (Hx1 & Hfit1 & Ho1).
    assert (fontWidth o1 = fontWidth o) as Hw1 by (by rewrite Ho1).
    destruct (IH o1 s1) as (Hx' & Hfit' & Ho'); [lia | lia | lia | done |].
    repeat split; [done | done |].
    rewrite Ho', Ho1. done.
Qed.

(** X17. [puts] prints up to the first 0 and ignores what follows it; printing
    a string in two pieces is printing it at once. *)
Theorem puts_ends_at_nul_and_composes fuel (front back : list Z) (st : MicroOLED * T) :
  Forall (fun c => c <> 0) front ->
  puts fuel (front ++ 0 :: back) st = puts fuel front st
  /\ puts fuel (front ++ back) st
     = match puts fuel front st with
       | Some st' => puts fuel back st'
       | None => None
       end.
Proof.
  intros Hfront. revert st.
  induction Hfront as [|c front Hc _ IH]; intros st.
  - split; [done|]. cbn. by destruct back.
  - cbn [app puts]. replace (c =? 0) with false by lia.
    destruct (putc fuel c st) as [st1|]; [apply IH | done].
Qed.

End TextCursor.

Section TextCursorSample.
#[local] Existing Instance breakout.

Lemma puts_leaves_room_for_a_glyph_witness :
  match puts 8 (replicate 11 48) ((setFontType 0 constructed).2, blank) with
  | Some (o', _) =>
      0 <= cursorX o' /\ cursorX o' + fontWidth o' <= LCDWIDTH
      /\ o' = setCursor (cursorX o') (cursorY o') (setFontType 0 constructed).2
  | None => False
  end.
Proof.
  assert (forall o' fb',
            puts 8 (replicate 11 48) ((setFontType 0 constructed).2, blank)
            = Some (o', fb') ->
            0 <= cursorX o' /\ cursorX o' + fontWidth o' <= LCDWIDTH
            /\ o' = setCursor (cursorX o') (cursorY o') (setFontType 0 constructed).2)
    as Hroom.
  { intros o' fb'.
    refine (puts_leaves_room_for_a_glyph (H:=breakout) 8 (replicate 11 48)
              (setFontType 0 constructed).2 blank o' fb' _ _ _); by_evaluation. }
  destruct (puts 8 (replicate 11 48) ((setFontType 0 constructed).2, blank))
    as [[o' fb']|] eqn:Hputs.
  - exact (Hroom o' fb' eq_refl).
  - vm_compute in Hputs. discriminate Hputs.
Defined.

Lemma puts_ends_at_nul_and_composes_witness :
  puts 8 ([72; 105] ++ 0 :: [33]) (constructed, blank) = puts 8 [72; 105] (constructed, blank).
Proof.
  apply (puts_ends_at_nul_and_composes (H:=breakout) 8 [72; 105] [33] (constructed, blank)).
  repeat constructor; by_evaluation.
Defined.

End TextCursorSample.

(** ** Glyphs of tall fonts *)

(** [for_u8_count] for a body that is given as it stands in the code. *)
Lemma for_u8_counts {T} (f : Z -> T -> T) (body : Z -> T -> option T)
    (cond : Z -> bool) bound n fuel i (s : T) :
  (forall k, 0 <= k < 256 -> cond k = (k <? bound)) ->
  (forall k s, body k s = Some (f k s)) ->
  0 <= i -> i + Z.of_nat n = bound -> bound <= 255 -> (n < fuel)%nat ->
  for_u8 fuel cond body i s = Some (fold_left (fun s k => f k s) (seqZ i (Z.of_nat n)) s).
Proof.
  intros Hcond Hbody. revert fuel i s.
  induction n as [|n IH]; intros fuel i s Hi Hn Hb Hfuel.
  - destruct fuel as [|fuel]; [lia|]. cbn.
    rewrite Hcond by lia. by replace (i <? bound) with false by lia.
  - destruct fuel as [|fuel]; [lia|]. cbn [for_u8].
    rewrite Hcond by lia. replace (i <? bound) with true by lia.
    rewrite Hbody, (seqZ_cons i (Z.of_nat (S n))) by lia. cbn [fold_left].
    replace (Z.pred (Z.of_nat (S n))) with (Z.of_nat n) by lia.
    rewrite (u8_small (i + 1)) by (unfold is_u8; lia).
    apply IH; lia.
Qed.

Lemma column_loop_band_column temp x i y row color mode (rs : list request) :
  column_loop 8 0 temp x i y row color mode rs
  = rs ++ band_column x y i row temp color mode.
Proof.
  rewrite column_loop_decode by lia. reflexivity.
Qed.

Section TallGlyphs.
Context `{Header}.

(** X18. For a font at least 16 rows tall, [drawChar] draws [fontHeight / 8]
    bands of [fontWidth] columns, read from the glyph's tile of the sheet:
    rows beyond the last whole band of eight are not drawn, and, unlike for
    an 8-row font, no blank column follows the glyph.  It returns once it has
    fuel for 256 passes of each loop. *)
Theorem drawChar_decodes_tall_glyph fuel o x y c color mode :
  16 <= fontHeight o <= 255 -> 1 <= fontWidth o <= 255 ->
  fontWidth o <= fontMapWidth o < 65536 ->
  0 <= fontStartChar o ->
  fontStartChar o <= c <= fontStartChar o + fontTotalChar o - 1 -> c < 256 ->
  (let index := c - fontStartChar o in
   let perRow := fontMapWidth o / fontWidth o in
   (index / perRow) * fontMapWidth o * (fontHeight o / 8)
   + (index mod perRow) * fontWidth o < 65536) ->
  (256 <= fuel)%nat ->
  requests_within (drawChar fuel o x y c color mode)
  = Some (tall_glyph_requests o x y c color mode)
  /\ (forall fb : framebuffer,
        drawChar fuel o x y c color mode fb
        = Some (exec (tall_glyph_requests o x y c color mode) fb)).
Proof.
  intros Hh Hw Hmap Hs Hc Hc8 Hstart Hfuel. cbn zeta in Hstart.
  assert (requests_within (drawChar fuel o x y c color mode)
          = Some (tall_glyph_requests o x y c color mode)) as Hrs;
    [|split; [done | intros fb; by apply drawChar_served]].
  unfold requests_within, drawChar, tall_glyph_requests.
  replace (c <? fontStartChar o) with false by lia.
  replace (c >? fontStartChar o + fontTotalChar o - 1) with false by lia.
  cbn [orb].
  assert (2 <= fontHeight o / 8 < 32) as Hbands
    by (split; [apply Z.div_le_lower_bound | apply Z.div_lt_upper_bound]; lia).
  rewrite (u8_small (fontHeight o / 8)) by (unfold is_u8; lia).
  replace (fontHeight o / 8 <=? 1) with false by lia.
  replace (fontHeight o / 8 =? 1) with false by lia.
  rewrite (u8_small (c - fontStartChar o)) by (unfold is_u8; lia).
  set (index := c - fontStartChar o) in *.
  assert (0 <= index < 256) as Hindex by (subst index; lia).
  assert (1 <= fontMapWidth o / fontWidth o < 65536) as Hper.
  { split; [apply Z.div_le_lower_bound; lia|].
    apply Z.div_lt_upper_bound; nia. }
  assert (forall z, 0 <= z < 65536 -> u16 z = z) as Hu16
    by (intros; unfold u16; by rewrite Z.mod_small).
  rewrite !(Hu16 (fontMapWidth o / fontWidth o)) by lia.
  set (perRow := fontMapWidth o / fontWidth o) in *.
  assert (0 <= index mod perRow < perRow) as Hcol by (apply Z.mod_pos_bound; lia).
  assert (0 <= index / perRow < 256) as Hrow.
  { split; [apply Z.div_pos; lia|]. apply Z.div_lt_upper_bound; nia. }
  rewrite (Hu16 (index mod perRow)), (Hu16 (index / perRow)) by lia.
  assert (0 <= index / perRow * fontMapWidth o * (fontHeight o / 8)
               + index mod perRow * fontWidth o) as Hnonneg
    by (apply Z.add_nonneg_nonneg; repeat apply Z.mul_nonneg_nonneg; lia).
  rewrite Hu16 by lia.
  set (start := index / perRow * fontMapWidth o * (fontHeight o / 8)
                + index mod perRow * fontWidth o) in *.
  rewrite (for_u8_counts
             (fun row s =>
                fold_left
                  (fun s i => column_loop 8 0
                     (font_byte (fontType o)
                        (FONTHEADERSIZE + (start + i + row * fontMapWidth o)))
                     x i y row color mode s)
                  (seqZ 0 (fontWidth o)) s)
             _ _ (fontHeight o / 8) (Z.to_nat (fontHeight o / 8)));
    [ | done | | lia .. ].
  - f_equal. rewrite Z2Nat.id by lia.
    rewrite (record_fold _
               (fun row =>
                  flat_map
                    (fun i => band_column x y i row
                       (font_byte (fontType o)
                          (FONTHEADERSIZE + (start + i + row * fontMapWidth o)))
                       color mode)
                    (seqZ 0 (fontWidth o)))); [done|].
    intros row rs.
    apply (record_fold
             (fun i s => column_loop 8 0
                (font_byte (fontType o)
                   (FONTHEADERSIZE + (start + i + row * fontMapWidth o)))
                x i y row color mode s)).
    intros i rs'. apply column_loop_band_column.
  - intros row s.
    rewrite (for_u8_count
               (fun i s => column_loop 8 0
                  (font_byte (fontType o)
                     (FONTHEADERSIZE + (start + i + row * fontMapWidth o)))
                  x i y row color mode s)
               _ (fontWidth o) (Z.to_nat (fontWidth o))) by (done || lia).
    by rewrite Z2Nat.id by lia.
Qed.

End TallGlyphs.

Section TallGlyphsSample.
#[local] Existing Instance breakout.

Lemma drawChar_decodes_tall_glyph_witness :
  requests_within (drawChar 256 (setFontType 1 constructed).2 10 20 49 WHITE NORM)
  = Some (tall_glyph_requests (setFontType 1 constructed).2 10 20 49 WHITE NORM).
Proof.
  apply (drawChar_decodes_tall_glyph (H:=breakout) 256
           (setFontType 1 constructed).2 10 20 49 WHITE NORM); by_evaluation.
Defined.

End TallGlyphsSample.

(** ** What reaches the controller *)

Lemma heard_writes dc bytes evs :
  heard dc 0 (map SpiWrite bytes ++ evs)
  = (((fun b => (negb (dc =? 0), b)) <$> bytes) ++ (heard dc 0 evs).1, (heard dc 0 evs).2).
Proof.
  induction bytes as [|b bytes IH]; cbn [map app heard fmap list_fmap].
  - by destruct (heard dc 0 evs).
  - cbn. rewrite IH. done.
Qed.

(** A transfer as [command] and the data bursts make it: the line levels
    set, select low, the bytes, select high.  The controller takes exactly
    these bytes, as commands or as data by the level chosen, whatever the
    levels were before. *)
Lemma heard_transfer dc cs level bytes evs :
  heard dc cs ([SetDC level; SetCS 0] ++ map SpiWrite bytes ++ [SetCS 1] ++ evs)
  = (((fun b => (negb (level =? 0), b)) <$> bytes) ++ (heard level 1 evs).1,
     (heard level 1 evs).2).
Proof. cbn [app heard]. by rewrite heard_writes. Qed.

Lemma emit_emit evs evs' o : emit evs' (emit evs o) = emit (evs ++ evs') o.
Proof. unfold emit. cbn. by rewrite app_assoc. Qed.

Section Transfer.
Context `{Header}.

Lemma whole_pages width height :
  height mod 8 = 0 -> width * height / 8 = width * (height / 8).
Proof.
  intros Hpages. rewrite (Z.div_mod height 8) at 1 by lia. rewrite Hpages, Z.add_0_r.
  replace (width * (8 * (height / 8))) with (width * (height / 8) * 8) by lia.
  by rewrite Z.div_mul.
Qed.

(** X19. [display] leaves the page buffer as it is and sends it whole and in
    order.  Whatever the line levels were, the controller hears: the eight
    command bytes that select horizontal addressing and the window of
    columns [LCDCOLUMNOFFSET .. LCDCOLUMNOFFSET+LCDWIDTH-1] and pages
    [0 .. LCDHEIGHT/8-1]; then every byte of the buffer, as data; then the
    two command bytes that restore page addressing.  The bytes sent are as
    many as the window holds, so the burst fills it exactly once. *)
Theorem display_fills_its_window o (fb : framebuffer) dc cs :
  LCDHEIGHT mod 8 = 0 -> Z.of_nat (length fb) = screen_bytes ->
  exists evs,
    display (o, fb) = (emit evs o, fb)
    /\ heard dc cs evs
       = (((fun b => (false, b))
             <$> [MEMORYMODE; 0; SETCOLUMNBOUNDS; LCDCOLUMNOFFSET;
                  LCDCOLUMNOFFSET + LCDWIDTH - 1; SETPAGEBOUNDS; 0; LCDHEIGHT / 8 - 1])
          ++ ((fun b => (true, b)) <$> fb)
          ++ [(false, MEMORYMODE); (false, 2)], (0, 1))
    /\ Z.of_nat (length fb)
       = (LCDCOLUMNOFFSET + LCDWIDTH - 1 - LCDCOLUMNOFFSET + 1) * (LCDHEIGHT / 8 - 1 - 0 + 1).
Proof.
  intros Hpages Hlen. eexists. split; [|split].
  - unfold display, command. rewrite !emit_emit. reflexivity.
  - rewrite take_ge by lia.
    rewrite <- !app_assoc.
    rewrite (heard_transfer dc cs 0
               [MEMORYMODE; 0; SETCOLUMNBOUNDS; LCDCOLUMNOFFSET;
                LCDCOLUMNOFFSET + LCDWIDTH - 1; SETPAGEBOUNDS; 0; LCDHEIGHT / 8 - 1]).
    rewrite (heard_transfer 0 1 1 fb).
    rewrite <- (app_nil_r [SetCS 1]) at 1.
    rewrite (heard_transfer 1 1 0 [MEMORYMODE; 2] []).
    reflexivity.
  - rewrite Hlen. unfold screen_bytes. rewrite whole_pages by done. lia.
Qed.

(** X20. [clear(mode, c)] makes the controller hear a window full of the byte
    [c], whichever memory is meant.  For [ALL] the window is the whole
    controller memory, [LCDTOTALWIDTH] columns by [LCDTOTALHEIGHT/8] pages,
    and the page buffer is left as it was (the next [display] brings the old
    picture back); [clear(ALL)] is [clear(ALL, 0)].  For any other mode the
    page buffer is filled with [c] and sent as [display] sends it. *)
Theorem clear_with_sends_a_full_window mode c o (fb : framebuffer) dc cs :
  LCDHEIGHT mod 8 = 0 -> LCDTOTALHEIGHT mod 8 = 0 ->
  Z.of_nat (length fb) = screen_bytes -> is_u8 c ->
  exists evs,
    clear_with mode c (o, fb)
    = (emit evs o, if mode =? ALL then fb else replicate (length fb) c)
    /\ (mode = ALL -> clear mode (o, fb) = clear_with mode 0 (o, fb))
    /\ heard dc cs evs
       = (if mode =? ALL
          then ((fun b => (false, b))
                  <$> [MEMORYMODE; 0; SETCOLUMNBOUNDS; 0; LCDTOTALWIDTH - 1;
                       SETPAGEBOUNDS; 0; LCDTOTALHEIGHT / 8 - 1])
               ++ replicate (Z.to_nat (LCDTOTALWIDTH * (LCDTOTALHEIGHT / 8))) (true, c)
               ++ [(false, MEMORYMODE); (false, 2)]
          else ((fun b => (false, b))
                  <$> [MEMORYMODE; 0; SETCOLUMNBOUNDS; LCDCOLUMNOFFSET;
                       LCDCOLUMNOFFSET + LCDWIDTH - 1; SETPAGEBOUNDS; 0;
                       LCDHEIGHT / 8 - 1])
               ++ replicate (Z.to_nat (LCDWIDTH * (LCDHEIGHT / 8))) (true, c)
               ++ [(false, MEMORYMODE); (false, 2)],
          (0, 1)).
Proof.
  intros Hpages Htotal Hlen Hc. unfold clear_with, clear.
  destruct (mode =? ALL) eqn:Emode.
  - eexists. split; [|split].
    + unfold clear_all, fill_burst, command. rewrite !emit_emit. reflexivity.
    + done.
    + rewrite <- !app_assoc.
      rewrite (heard_transfer dc cs 0
                 [MEMORYMODE; 0; SETCOLUMNBOUNDS; 0; LCDTOTALWIDTH - 1;
                  SETPAGEBOUNDS; 0; LCDTOTALHEIGHT / 8 - 1]).
      rewrite <- (fmap_replicate SpiWrite).
      rewrite (heard_transfer 0 1 1 (replicate _ c)).
      rewrite <- (app_nil_r [SetCS 1]) at 1.
      rewrite (heard_transfer 1 1 0 [MEMORYMODE; 2] []).
      rewrite fmap_replicate, whole_pages by done. reflexivity.
  - assert (memset fb c screen_bytes = replicate (length fb) c) as Hfill.
    { unfold memset. rewrite drop_ge, app_nil_r, u8_small by (done || lia).
      f_equal. lia. }
    rewrite Hfill.
    eexists. split; [|split].
    + unfold display, command. rewrite !emit_emit. reflexivity.
    + intros ->. by rewrite Z.eqb_refl in Emode.
    + rewrite take_ge by (rewrite length_replicate; lia).
      rewrite <- !app_assoc.
      rewrite (heard_transfer dc cs 0
                 [MEMORYMODE; 0; SETCOLUMNBOUNDS; LCDCOLUMNOFFSET;
                  LCDCOLUMNOFFSET + LCDWIDTH - 1; SETPAGEBOUNDS; 0; LCDHEIGHT / 8 - 1]).
      rewrite (heard_transfer 0 1 1 (replicate _ c)).
      rewrite <- (app_nil_r [SetCS 1]) at 1.
      rewrite (heard_transfer 1 1 0 [MEMORYMODE; 2] []).
      rewrite fmap_replicate.
      replace (length fb) with (Z.to_nat (LCDWIDTH * (LCDHEIGHT / 8)));
        [reflexivity|].
      rewrite <- whole_pages by done. fold screen_bytes. lia.
Qed.

(** X21. [drawBitmap] replaces the whole page buffer: the result is the first
    [LCDWIDTH*LCDHEIGHT/8] bytes of the array, whatever the buffer held, and
    the pixel [(x, y)] of the panel then reads bit [y mod 8] of the array's
    byte [x + (y/8)*LCDWIDTH], the byte and bit that [pixel] writes for
    [(x, y)]. *)
Theorem drawBitmap_replaces_buffer bitArray (fb : framebuffer) x y :
  LCDHEIGHT mod 8 = 0 -> Z.of_nat (length fb) = screen_bytes ->
  (Z.to_nat screen_bytes <= length bitArray)%nat ->
  0 <= x < LCDWIDTH -> 0 <= y < LCDHEIGHT ->
  drawBitmap bitArray fb = take (Z.to_nat screen_bytes) bitArray
  /\ bit_at (drawBitmap bitArray fb) x y
     = Z.testbit (bitArray !!! Z.to_nat (x + y / 8 * LCDWIDTH)) (y mod 8).
Proof.
  intros Hpages Hlen Hsize Hx Hy.
  assert (drawBitmap bitArray fb = take (Z.to_nat screen_bytes) bitArray) as Hcopy.
  { unfold drawBitmap. rewrite drop_ge, app_nil_r by lia.
    apply list_eq. intros i. rewrite list_lookup_fmap.
    destruct (decide (i < Z.to_nat screen_bytes)%nat) as [Hi|Hi].
    - rewrite lookup_seq_lt, lookup_take_lt by done. cbn.
      symmetry. apply list_lookup_lookup_total_lt. lia.
    - rewrite lookup_seq_ge, lookup_take_ge by lia. done. }
  split; [done|]. rewrite Hcopy. unfold bit_at.
  pose proof (byte_index_in_range x y Hpages Hx Hy) as Hin.
  rewrite lookup_total_take_lt by lia. done.
Qed.

End Transfer.

Section TransferSample.
#[local] Existing Instance breakout.

Lemma display_fills_its_window_witness :
  exists evs, display (constructed, blank) = (emit evs constructed, blank)
              /\ length (heard 0 1 evs).1 = 394%nat.
Proof.
  destruct (display_fills_its_window (H:=breakout) constructed blank 0 1)
    as (evs & Hdisplay & Hheard & _); [by_evaluation .. |].
  exists evs. split; [done|]. by rewrite Hheard.
Defined.

Lemma clear_with_sends_a_full_window_witness :
  exists evs, clear_with ALL 255 (constructed, blank) = (emit evs constructed, blank)
              /\ length (heard 0 1 evs).1 = 1034%nat.
Proof.
  destruct (clear_with_sends_a_full_window (H:=breakout) ALL 255 constructed blank 0 1)
    as (evs & Hclear & _ & Hheard); [by_evaluation .. |].
  exists evs. split; [done|]. by rewrite Hheard.
Defined.

Lemma drawBitmap_replaces_buffer_witness :
  bit_at (drawBitmap (replicate 384 170) blank) 3 1 = true.
Proof.
  destruct (drawBitmap_replaces_buffer (H:=breakout) (replicate 384 170) blank 3 1)
    as [_ ->]; by_evaluation.
Defined.

End TransferSample.

(** ** Text overwrites what was there *)

Lemma elem_of_cell (f : Z -> Z -> request) w r :
  r ∈ flat_map (fun i => (fun j => f i j) <$> seqZ 0 8) (seqZ 0 (w + 1))
  <-> exists i j, 0 <= i <= w /\ 0 <= j < 8 /\ r = f i j.
Proof.
  rewrite list_elem_of_In, in_flat_map. split.
  - intros (i & Hi & Hr). apply list_elem_of_In, elem_of_seqZ in Hi.
    apply list_elem_of_In, list_elem_of_fmap in Hr as (j & -> & Hj).
    apply elem_of_seqZ in Hj. exists i, j. split; [lia|]. split; [lia | done].
  - intros (i & j & Hi & Hj & ->). exists i.
    split; [apply list_elem_of_In, elem_of_seqZ; lia|].
    apply list_elem_of_In, list_elem_of_fmap. exists j.
    split; [done | apply elem_of_seqZ; lia].
Qed.

Section GlyphCell.
Context `{Header}.

(** Where no place is named twice, a pixel named by a request ends as that
    request leaves it. *)
Lemma fold_effect_unique rs r x y b :
  NoDup ((fun q => (req_x q, req_y q)) <$> rs) -> r ∈ rs -> hits r x y = true ->
  fold_left (fun b q => effect q x y b) rs b = effect r x y b.
Proof.
  intros Hnd Hr Hhit. revert b. induction rs as [|q rs IH]; intros b.
  - by apply elem_of_nil in Hr.
  - rewrite fmap_cons in Hnd. apply NoDup_cons in Hnd as [Hfresh Hnd].
    cbn [fold_left]. apply elem_of_cons in Hr as [<-|Hr].
    + apply fold_effect_miss. apply not_true_is_false. intros Hex.
      apply existsb_hits in Hex. apply hits_true in Hhit. by rewrite <- Hhit in Hex.
    + assert (hits q x y = false) as Hq.
      { apply not_true_is_false. intros Hq. apply hits_true in Hq, Hhit.
        apply Hfresh. rewrite Hq, <- Hhit. apply list_elem_of_fmap. by exists r. }
      unfold effect at 2. rewrite Hq. by apply IH.
Qed.

(** The requests of a single-band glyph that does not wrap, column by
    column: the [fontWidth] glyph columns and the blank one. *)
Lemma glyph_requests_cell o x y c color mode :
  0 <= fontWidth o -> is_u8 x -> is_u8 y -> x + fontWidth o < 256 -> y + 7 < 256 ->
  glyph_requests o x y c color mode
  = flat_map (fun i => (fun j => glyph_cell_request o x y c color mode i j) <$> seqZ 0 8)
      (seqZ 0 (fontWidth o + 1)).
Proof.
  unfold is_u8. intros Hw Hx Hy Hfx Hfy. unfold glyph_requests, glyph_cell_request.
  rewrite (seqZ_app 0 (fontWidth o) 1), flat_map_app by lia.
  rewrite (seqZ_cons _ 1), (seqZ_nil _ (Z.pred 1)) by lia. cbn [flat_map].
  rewrite app_nil_r, Z.add_0_l, Z.eqb_refl. f_equal.
  - apply flat_map_agree, Forall_seqZ. intros i Hi.
    replace (i =? fontWidth o) with false by lia. unfold glyph_column.
    apply list_fmap_ext. intros idx j Hj. apply lookup_seqZ in Hj as [-> Hj].
    by rewrite !u8_small by (unfold is_u8; lia).
  - unfold glyph_column. apply list_fmap_ext. intros idx j Hj.
    apply lookup_seqZ in Hj as [-> Hj].
    by rewrite !u8_small by (unfold is_u8; lia).
Qed.

(** X22. Text is opaque.  For a character of a single-band font, drawn in a
    mode other than XOR where the glyph does not wrap, [drawChar] returns
    and every pixel of the panel inside the cell of [fontWidth+1] columns by
    8 rows reads, whatever was there before, as the glyph has it: the bit of
    the column's byte for that row decides between the colour given and its
    negation, and the last column is all negated colour.  Every pixel
    outside the cell reads as before. *)
Theorem drawChar_overwrites_its_cell fuel o x y c color mode (fb : framebuffer) x' y' :
  LCDHEIGHT mod 8 = 0 -> Z.of_nat (length fb) = screen_bytes ->
  mode <> XOR ->
  0 <= fontHeight o < 16 -> 0 <= fontWidth o < 255 ->
  0 <= fontStartChar o ->
  fontStartChar o <= c <= fontStartChar o + fontTotalChar o - 1 -> c < 256 ->
  is_u8 x -> is_u8 y -> x + fontWidth o < 256 -> y + 7 < 256 ->
  (Z.to_nat (fontWidth o) + 1 < fuel)%nat ->
  0 <= x' < LCDWIDTH -> 0 <= y' < LCDHEIGHT ->
  exists fb',
    drawChar fuel o x y c color mode fb = Some fb'
    /\ bit_at fb' x' y'
       = if (x <=? x') && (x' <=? x + fontWidth o) && (y <=? y') && (y' <? y + 8)
         then (if Z.testbit
                    (if x' - x =? fontWidth o then 0
                     else font_byte (fontType o)
                            (FONTHEADERSIZE + (c - fontStartChar o) * fontWidth o
                             + (x' - x)))
                    (y' - y)
               then color else lognot color) =? WHITE
         else bit_at fb x' y'.
Proof.
  intros Hpages Hlen Hmode Hh Hw Hs Hc Hc8 Hx Hy Hfx Hfy Hfuel Hx' Hy'.
  eexists. split.
  { apply drawChar_served, drawChar_single_band_requests; done. }
  rewrite glyph_requests_cell by (done || lia). unfold is_u8 in *.
  rewrite exec_reads_back; try done.
  2: { rewrite Forall_forall. intros r Hr.
       apply elem_of_cell in Hr as (i & j & Hi & Hj & ->). cbn. lia. }
  destruct ((x <=? x') && (x' <=? x + fontWidth o) && (y <=? y') && (y' <? y + 8))
    eqn:Ecell.
  - rewrite !andb_true_iff in Ecell.
    rewrite (fold_effect_unique _ (glyph_cell_request o x y c color mode (x' - x) (y' - y))).
    + unfold effect, hits, glyph_cell_request. cbn [req_x req_y req_color req_mode].
      replace (x + (x' - x) =? x') with true by lia.
      replace (y + (y' - y) =? y') with true by lia. cbn [andb].
      by replace (mode =? XOR) with false by lia.
    + rewrite fmap_flat_map.
      apply NoDup_flat_map; [apply NoDup_seqZ| |].
      * intros i _. rewrite <- list_fmap_compose.
        apply NoDup_fmap_2; [|apply NoDup_seqZ].
        intros j j' [= ?]. lia.
      * intros i i' [a b] _ _ Hb Hb'.
        rewrite <- list_fmap_compose in Hb, Hb'.
        apply list_elem_of_fmap in Hb as (j & [= -> ->] & _).
        apply list_elem_of_fmap in Hb' as (j' & [= ? ?] & _). lia.
    + apply elem_of_cell. exists (x' - x), (y' - y).
      split; [lia|]. split; [lia | done].
    + unfold hits, glyph_cell_request. cbn [req_x req_y].
      replace (x + (x' - x) =? x') with true by lia.
      by replace (y + (y' - y) =? y') with true by lia.
  - apply fold_effect_miss. apply not_true_is_false. intros Hex.
    apply existsb_exists in Hex as (r & Hr & Hhit).
    apply list_elem_of_In in Hr. apply elem_of_cell in Hr as (i & j & Hi & Hj & ->).
    apply hits_true in Hhit. cbn in Hhit. injection Hhit as <- <-.
    rewrite !andb_false_iff in Ecell. lia.
Qed.

End GlyphCell.

Section GlyphCellSample.
#[local] Existing Instance breakout.

Lemma drawChar_overwrites_its_cell_witness :
  exists fb',
    drawChar 7 (setFontType 0 constructed).2 10 20 49 WHITE NORM (replicate 384 255)
    = Some fb'
    /\ bit_at fb' 10 20 = false /\ bit_at fb' 11 21 = true.
Proof.
  destruct (drawChar_overwrites_its_cell (H:=breakout) 7 (setFontType 0 constructed).2
              10 20 49 WHITE NORM (replicate 384 255) 10 20)
    as (fb' & Hdraw & Hbit); [by_evaluation .. |].
  destruct (drawChar_overwrites_its_cell (H:=breakout) 7 (setFontType 0 constructed).2
              10 20 49 WHITE NORM (replicate 384 255) 11 21)
    as (fb'' & Hdraw' & Hbit'); [by_evaluation .. |].
  exists fb'. split; [done|].
  assert (fb'' = fb') as -> by congruence.
  rewrite Hbit, Hbit'. split; vm_compute; reflexivity.
Defined.

End GlyphCellSample.

(** ** The loops that always end *)

Section LoopsEnd.
Context {T : Type} `{Canvas T}.

(** X23. The loops of [line] and [circle] end for all arguments, unlike those of
    [circleFill] and [drawChar]: the counter of [line] climbs from [x0] to
    [x1] within eight bits, so [x1 - x0] passes reach the end of the loop
    (none when [x1 <= x0]), and the [x] of [circle] climbs from 0 towards a
    [y] that is at most 127, so 128 passes do, whatever the radius and
    however [f] wraps.  Passes allowed beyond these change nothing. *)
Theorem line_and_circle_loops_end
    extra steep x0 y0 x1 dx dy err ystep radius color mode (s : T) :
  is_u8 x0 -> is_u8 x1 ->
  line_loop (Z.to_nat (x1 - x0) + extra) steep x0 y0 x1 dx dy err ystep color mode s
  = line_loop (Z.to_nat (x1 - x0)) steep x0 y0 x1 dx dy err ystep color mode s
  /\ circle_loop (128 + extra) x0 y0
       (i8 (1 - radius), 1, i8 (- 2 * radius), 0, i8 radius) color mode s
     = circle_loop 128 x0 y0
         (i8 (1 - radius), 1, i8 (- 2 * radius), 0, i8 radius) color mode s.
Proof.
  unfold is_u8. intros Hx0 Hx1. split.
  - destruct (Z.le_gt_cases x1 x0) as [Hle|Hlt].
    + replace (Z.to_nat (x1 - x0)) with 0%nat by lia.
      by rewrite !line_loop_done.
    + apply line_loop_fuel; lia.
  - pose proof (i8_range radius). apply circle_loop_fuel; lia.
Qed.

End LoopsEnd.

Lemma line_and_circle_loops_end_witness :
  line_loop (Z.to_nat (9 - 2) + 5) false 2 3 9 7 4 3 1 1 0 []
  = line_loop (Z.to_nat (9 - 2)) false 2 3 9 7 4 3 1 1 0 []
  /\ circle_loop (128 + 5) 32 24 (i8 (1 - 200), 1, i8 (- 2 * 200), 0, i8 200) 1 0 []
     = circle_loop 128 32 24 (i8 (1 - 200), 1, i8 (- 2 * 200), 0, i8 200) 1 0 [].
Proof.
  apply (line_and_circle_loops_end 5 false 2 3 9 7 4 3 1 200 1 0 []); by_evaluation.
Defined.
